(** * Node-local volume lifecycle (pkg/volume/volume.go)

    A shallow embedding of the volume package: path naming, the three volume
    variants with their SetUp / TearDown procedures, the factory functions and
    the directory-scan reconciler, together with the properties the
    specification states about them.

    Calls that leave the package (the [os] and [ioutil] functions, the injected
    disk-attach and mount capabilities, [glog]) are events of a small free
    monad; a handler gives them meaning.  Theorems about call order hold for
    every handler; theorems about filesystem state are proved against a
    simulated host. *)

From Stdlib Require Import ZArith Ascii String List Lia Bool DecimalString.
From Stdlib Require DecimalZ.
From stdpp Require Import base option list gmap strings fin_maps sorting.

Local Open Scope string_scope.
Local Open Scope list_scope.
Local Open Scope nat_scope.

(** ** Go's [path] package (standard library, used by every path function) *)

Module path.

Definition slash : ascii := "/"%char.
Definition dot : ascii := "."%char.

(** [strings.Join(elems, sep)] *)
Fixpoint strings_Join (elems : list string) (sep : string) : string :=
  match elems with
  | [] => ""
  | [e] => e
  | e :: rest => e +:+ sep +:+ strings_Join rest sep
  end.

(** The ".." case of [Clean]: [out.w--] and then
    [for out.w > dotdot && out.index(out.w) != '/' { out.w-- }]. *)
Fixpoint backtrack_scan (buf : list ascii) (dotdot w : nat) : nat :=
  match w with
  | 0 => 0
  | S w' =>
      if (dotdot <? w)%nat && negb (Ascii.eqb (nth w buf zero) slash)
      then backtrack_scan buf dotdot w'
      else w
  end.

Definition backtrack (out : list ascii) (dotdot : nat) : list ascii :=
  take (backtrack_scan out dotdot (length out - 1)) out.

(** The element copy of [Clean]:
    [for ; r < n && path[r] != '/'; r++ { out.append(path[r]) }].
    Returns what is left of the input and the extended buffer. *)
Fixpoint copy_elem (p out : list ascii) : list ascii * list ascii :=
  match p with
  | [] => ([], out)
  | c :: p' =>
      if Ascii.eqb c slash then (p, out) else copy_elem p' (out ++ [c])
  end.

Definition at_elem_end (p : list ascii) : bool :=
  match p with
  | [] => true
  | c :: _ => Ascii.eqb c slash
  end.

(** The main loop of [Clean], [for r < n { switch ... }].  [p] is [path[r:]],
    [out] the bytes written so far ([out.w] is its length).  Every iteration
    consumes at least one byte, so [length p] iterations are enough
    (see [clean_loop_fuel]). *)
Fixpoint clean_loop (fuel : nat) (rooted : bool) (p out : list ascii)
    (dotdot : nat) : list ascii :=
  match fuel with
  | 0 => out
  | S fuel' =>
      match p with
      | [] => out
      | c :: p1 =>
          if Ascii.eqb c slash then
            (* empty path element *)
            clean_loop fuel' rooted p1 out dotdot
          else if Ascii.eqb c dot && at_elem_end p1 then
            (* . element *)
            clean_loop fuel' rooted p1 out dotdot
          else if Ascii.eqb c dot &&
                  match p1 with
                  | d :: p2 => Ascii.eqb d dot && at_elem_end p2
                  | [] => false
                  end then
            (* .. element: remove to last / *)
            let p2 := tail p1 in
            if (dotdot <? length out)%nat then
              clean_loop fuel' rooted p2 (backtrack out dotdot) dotdot
            else if negb rooted then
              let out1 := if (0 <? length out)%nat then out ++ [slash] else out in
              let out2 := out1 ++ [dot; dot] in
              clean_loop fuel' rooted p2 out2 (length out2)
            else clean_loop fuel' rooted p2 out dotdot
          else
            (* real path element: add slash if needed, copy element *)
            let out1 :=
              if rooted && negb (length out =? 1)%nat
                 || negb rooted && negb (length out =? 0)%nat
              then out ++ [slash] else out in
            let '(p', out2) := copy_elem p out1 in
            clean_loop fuel' rooted p' out2 dotdot
      end
  end.

(** [path.Clean] *)
Definition Clean (path : string) : string :=
  if String.eqb path "" then "."
  else
    let p := list_ascii_of_string path in
    let n := length p in
    let rooted := match p with c :: _ => Ascii.eqb c slash | [] => false end in
    let out :=
      if rooted then clean_loop n true (tail p) [slash] 1
      else clean_loop n false p [] 0 in
    if (length out =? 0)%nat then "." else string_of_list_ascii out.

(** [path.Join]: the elements from the first non-empty one on, joined with
    slashes and cleaned; the empty string when all are empty. *)
Fixpoint Join (elem : list string) : string :=
  match elem with
  | [] => ""
  | e :: rest =>
      if String.eqb e "" then Join rest else Clean (strings_Join elem "/")
  end.

(** [strings.LastIndex(s, "/")] as the number of bytes up to and including
    the last slash ([i+1] in the Go code, [0] when there is none). *)
Fixpoint after_last_slash (p : list ascii) : nat :=
  match p with
  | [] => 0
  | c :: p' =>
      match after_last_slash p' with
      | 0 => if Ascii.eqb c slash then 1 else 0
      | S k => S (S k)
      end
  end.

(** [path.Split]: [path[:i+1], path[i+1:]] *)
Definition Split (path : string) : string * string :=
  let p := list_ascii_of_string path in
  let i1 := after_last_slash p in
  (string_of_list_ascii (take i1 p), string_of_list_ascii (drop i1 p)).

(** [path.Dir] *)
Definition Dir (path : string) : string := Clean (fst (Split path)).

(** Strip trailing slashes:
    [for len(path) > 0 && path[len(path)-1] == '/' { path = path[0:len(path)-1] }] *)
Fixpoint strip_trailing_slashes (p : list ascii) : list ascii :=
  match p with
  | [] => []
  | c :: p' =>
      match strip_trailing_slashes p' with
      | [] => if Ascii.eqb c slash then [] else [c]
      | q => c :: q
      end
  end.

(** [path.Base] *)
Definition Base (path : string) : string :=
  if String.eqb path "" then "."
  else
    let p := strip_trailing_slashes (list_ascii_of_string path) in
    let p := drop (after_last_slash p) p in
    match p with
    | [] => "/"
    | _ => string_of_list_ascii p
    end.

End path.

(** ** Values shared by the package *)

(** Go's [int] on the 64-bit hosts the kubelet runs on: arithmetic wraps. *)
Definition int_wrap (z : Z) : Z := ((z + 2 ^ 63) mod 2 ^ 64 - 2 ^ 63)%Z.

(** [strconv.Itoa] *)
Definition Itoa (i : Z) : string := NilZero.string_of_int (Z.to_int i).

Inductive errno : Set := ENOENT | ENOTDIR | EEXIST | EINVAL | EBUSY | EACCES.

(** Go [error] values; the nil error is [None : option error]. *)
Inductive error : Set :=
| ErrUnsupportedVolumeType
| Errno (e : errno)
| ErrExternal (msg : string).

(** [os.IsNotExist] *)
Definition IsNotExist (err : option error) : bool :=
  match err with
  | Some (Errno ENOENT) => true
  | _ => false
  end.

(** [os.FileInfo], as far as the package reads it *)
Record FileInfo : Set := mkFileInfo { fi_Name : string; fi_IsDir : bool }.

(** The part of [pkg/api] the factory reads: a volume has a name and an
    optional source, in which at most the populated descriptors are non-nil. *)
Module api.
Record HostDirectory : Set := mkHostDirectory { Path : string }.
Record EmptyDirectory : Set := mkEmptyDirectory { }.
Record GCEPersistentDisk : Set := mkGCEPersistentDisk {
  PDName : string;
  FSType : string;
  Partition : Z;
  ReadOnly : bool
}.
Record VolumeSource : Set := mkVolumeSource {
  VolumeSource_HostDirectory : option HostDirectory;
  VolumeSource_EmptyDirectory : option EmptyDirectory;
  VolumeSource_GCEPersistentDisk : option GCEPersistentDisk
}.
Record Volume : Set := mkVolume { Name : string; Source : option VolumeSource }.
End api.

(** ** Volume variants *)

Record HostDirectory : Set := mkHostDirectory { HostDirectory_Path : string }.

Record EmptyDirectory : Set := mkEmptyDirectory {
  EmptyDirectory_Name : string;
  EmptyDirectory_PodID : string;
  EmptyDirectory_RootDir : string
}.

(** The two capability handles stored in a [GCEPersistentDisk].  The factory
    functions always store the production implementations; what a call on a
    handle does is decided by the handler that runs the program. *)
Inductive gcePersistentDiskUtil : Set := GCEDiskUtil.
Inductive mounter : Set := DiskMounter.

Record GCEPersistentDisk : Set := mkGCEPersistentDisk {
  GCEPersistentDisk_Name : string;
  GCEPersistentDisk_PodID : string;
  GCEPersistentDisk_RootDir : string;
  GCEPersistentDisk_PDName : string;
  GCEPersistentDisk_FSType : string;
  GCEPersistentDisk_Partition : string;
  GCEPersistentDisk_ReadOnly : bool;
  GCEPersistentDisk_util : gcePersistentDiskUtil;
  GCEPersistentDisk_mounter : mounter
}.

Definition HostDirectory_GetPath (hostVol : HostDirectory) : string :=
  HostDirectory_Path hostVol.

Definition EmptyDirectory_GetPath (emptyDir : EmptyDirectory) : string :=
  path.Join [EmptyDirectory_RootDir emptyDir; EmptyDirectory_PodID emptyDir;
             "volumes"; "empty"; EmptyDirectory_Name emptyDir].

Definition GCEPersistentDisk_GetPath (PD : GCEPersistentDisk) : string :=
  path.Join [GCEPersistentDisk_RootDir PD; GCEPersistentDisk_PodID PD;
             "volumes"; "gce-pd"; GCEPersistentDisk_Name PD].

Definition makeGlobalPDName (rootDir devName : string) : string :=
  path.Join [rootDir; "global"; "pd"; devName].

(** ** Calls that leave the package *)

Inductive Call : Type -> Type :=
| OsStat (name : string) : Call (option error)
| OsMkdirAll (name : string) (perm : Z) : Call (option error)
| OsRemoveAll (name : string) : Call (option error)
| OsRename (oldpath newpath : string) : Call (option error)
| IoutilTempDir (dir prefix : string) : Call (string * option error)
| IoutilReadDir (dirname : string) : Call (list FileInfo * option error)
| UtilAttachDisk (u : gcePersistentDiskUtil) (PD : GCEPersistentDisk)
    : Call (option error)
| UtilDetachDisk (u : gcePersistentDiskUtil) (PD : GCEPersistentDisk)
    (devicePath : string) : Call (option error)
| MounterMount (m : mounter) (source target fstype : string) (flags : Z)
    (data : string) : Call (option error)
| MounterUnmount (m : mounter) (target : string) (flags : Z)
    : Call (option error)
| MounterRefCount (m : mounter) (vol : GCEPersistentDisk)
    : Call (string * Z * option error)  (* [vol] is passed as an [Interface] *)
| GlogErrorf (format arg : string) (err : error) : Call unit.

(** Programs: a result, or a call and what to do with its answer. *)
Inductive Prog (A : Type) : Type :=
| Ret (a : A)
| Vis {X : Type} (c : Call X) (k : X -> Prog A).
Arguments Ret {A} a.
Arguments Vis {A X} c k.

Fixpoint bind {A B : Type} (p : Prog A) (f : A -> Prog B) : Prog B :=
  match p with
  | Ret a => f a
  | Vis c k => Vis c (fun x => bind (k x) f)
  end.

Definition call {X : Type} (c : Call X) : Prog X := Vis c Ret.

(** The monad structure, for stdpp's [x ← p; q] notation. *)
#[global] Instance Prog_ret : MRet Prog := @Ret.
#[global] Instance Prog_bind : MBind Prog := fun A B f p => bind p f.

(** [for _, x := range l { body }] over loop-carried state [s]; [continue]
    is the body returning the state it has. *)
Fixpoint for_range {A S : Type} (l : list A) (body : A -> S -> Prog S) (s : S)
    : Prog S :=
  match l with
  | [] => Ret s
  | x :: l' => s' ← body x s; for_range l' body s'
  end.

(** One observed call with its answer. *)
Inductive Event : Type :=
| Ev : forall {X : Type}, Call X -> X -> Event.

Definition Handler (W : Type) : Type := forall X : Type, Call X -> W -> X * W.

(** Running a program against a handler: the result, the final world and the
    calls made, in order. *)
Fixpoint run {W A : Type} (h : Handler W) (p : Prog A) (w : W)
    : A * W * list Event :=
  match p with
  | Ret a => (a, w, [])
  | Vis c k =>
      let '(x, w1) := h _ c w in
      let '(a, w2, tr) := run h (k x) w1 in
      (a, w2, Ev c x :: tr)
  end.

Definition result {W A : Type} (r : A * W * list Event) : A := fst (fst r).
Definition final {W A : Type} (r : A * W * list Event) : W := snd (fst r).
Definition trace {W A : Type} (r : A * W * list Event) : list Event := snd r.

Definition is_AttachDisk (e : Event) : bool :=
  match e with Ev (UtilAttachDisk _ _) _ => true | _ => false end.
Definition is_DetachDisk (e : Event) : bool :=
  match e with Ev (UtilDetachDisk _ _ _) _ => true | _ => false end.
Definition is_Mount (e : Event) : bool :=
  match e with Ev (MounterMount _ _ _ _ _ _) _ => true | _ => false end.
Definition is_MkdirAll (e : Event) : bool :=
  match e with Ev (OsMkdirAll _ _) _ => true | _ => false end.
Definition is_RemoveAll (e : Event) : bool :=
  match e with Ev (OsRemoveAll _) _ => true | _ => false end.

(** [called f tr]: some call in the trace satisfies [f]. *)
Definition called (f : Event -> bool) (tr : list Event) : bool := existsb f tr.

(** ** SetUp and TearDown *)

(** Host directory mounts require no setup. *)
Definition HostDirectory_SetUp (hostVol : HostDirectory) : Prog (option error) :=
  Ret None.

(** The octal literal [0750]. *)
Definition mode_0750 : Z := (7 * 8 ^ 2 + 5 * 8 + 0)%Z.

(** SetUp creates the new directory. *)
Definition EmptyDirectory_SetUp (emptyDir : EmptyDirectory)
    : Prog (option error) :=
  let path := EmptyDirectory_GetPath emptyDir in
  err ← call (OsMkdirAll path mode_0750);
  match err with
  | Some e => Ret (Some e)
  | None => Ret None
  end.

(** renameDirectory moves the path of the volume mount to a temporary
    directory, suffixed with ".deleting~". *)
Definition renameDirectory (oldPath : string) : Prog (string * option error) :=
  let name := path.Base oldPath in
  '(newPath, err) ← call (IoutilTempDir (path.Dir oldPath) (name +:+ ".deleting~"));
  match err with
  | Some e => Ret ("", Some e)
  | None =>
      err ← call (OsRename oldPath newPath);
      match err with
      | Some e => Ret ("", Some e)
      | None => Ret (newPath, None)
      end
  end.

(** Simply delete everything in the directory. *)
Definition EmptyDirectory_TearDown (emptyDir : EmptyDirectory)
    : Prog (option error) :=
  '(tmpDir, err) ← renameDirectory (EmptyDirectory_GetPath emptyDir);
  match err with
  | Some e => Ret (Some e)
  | None =>
      err ← call (OsRemoveAll tmpDir);
      match err with
      | Some e => Ret (Some e)
      | None => Ret None
      end
  end.

Section MountFlags.

(** The mount flag constants are declared in a file of the package that
    depends on the operating system; the procedures are read for any values. *)
Variable MOUNT_MS_BIND : Z.
Variable MOUNT_MS_RDONLY : Z.

(** Attaches the disk and bind mounts to the volume path. *)
Definition GCEPersistentDisk_SetUp (PD : GCEPersistentDisk)
    : Prog (option error) :=
  err ← call (OsStat (GCEPersistentDisk_GetPath PD));
  if negb (IsNotExist err) then Ret None
  else
    err ← call (UtilAttachDisk (GCEPersistentDisk_util PD) PD);
    match err with
    | Some e => Ret (Some e)
    | None =>
        let flags := if GCEPersistentDisk_ReadOnly PD then MOUNT_MS_RDONLY else 0%Z in
        (* Perform a bind mount to the full path to allow duplicate mounts of
           the same PD. *)
        err ← call (OsStat (GCEPersistentDisk_GetPath PD));
        if IsNotExist err then
          err ← call (OsMkdirAll (GCEPersistentDisk_GetPath PD) mode_0750);
          match err with
          | Some e => Ret (Some e)
          | None =>
              let globalPDPath :=
                makeGlobalPDName (GCEPersistentDisk_RootDir PD)
                                 (GCEPersistentDisk_PDName PD) in
              err ← call (MounterMount (GCEPersistentDisk_mounter PD)
                            globalPDPath (GCEPersistentDisk_GetPath PD) ""
                            (Z.lor MOUNT_MS_BIND flags) "");
              match err with
              | Some e =>
                  _ ← call (OsRemoveAll (GCEPersistentDisk_GetPath PD));
                  Ret (Some e)
              | None => Ret None
              end
          end
        else Ret None
    end.

End MountFlags.

(** Unmounts the bind mount, and detaches the disk only if the PD resource
    was the last reference to that disk on the kubelet. *)
Definition GCEPersistentDisk_TearDown (PD : GCEPersistentDisk)
    : Prog (option error) :=
  '(devicePath, refCount, err) ←
    call (MounterRefCount (GCEPersistentDisk_mounter PD) PD);
  match err with
  | Some e => Ret (Some e)
  | None =>
      err' ← call (MounterUnmount (GCEPersistentDisk_mounter PD)
                     (GCEPersistentDisk_GetPath PD) 0);
      match err' with
      | Some e => Ret (Some e)
      | None =>
          let refCount := int_wrap (refCount - 1) in
          err' ← call (OsRemoveAll (GCEPersistentDisk_GetPath PD));
          match err' with
          | Some e => Ret (Some e)
          | None =>
              (* the second test reads the error of the RefCount call *)
              match err with
              | Some e => Ret (Some e)
              | None =>
                  (* If refCount is 1, then all bind mounts have been removed,
                     and the remaining reference is the global mount. *)
                  if (refCount =? 1)%Z then
                    err' ← call (UtilDetachDisk (GCEPersistentDisk_util PD)
                                   PD devicePath);
                    match err' with
                    | Some e => Ret (Some e)
                    | None => Ret None
                    end
                  else Ret None
              end
          end
      end
  end.

(** ** Builders and cleaners *)

(** The types of the package with a [SetUp] method (and [GetPath]). *)
Inductive Builder : Set :=
| BuilderHostDirectory (v : HostDirectory)
| BuilderEmptyDirectory (v : EmptyDirectory)
| BuilderGCEPersistentDisk (v : GCEPersistentDisk).

(** The types of the package with a [TearDown] method. *)
Inductive Cleaner : Set :=
| CleanerEmptyDirectory (v : EmptyDirectory)
| CleanerGCEPersistentDisk (v : GCEPersistentDisk).

Definition Builder_GetPath (b : Builder) : string :=
  match b with
  | BuilderHostDirectory v => HostDirectory_GetPath v
  | BuilderEmptyDirectory v => EmptyDirectory_GetPath v
  | BuilderGCEPersistentDisk v => GCEPersistentDisk_GetPath v
  end.

Definition Builder_SetUp (MOUNT_MS_BIND MOUNT_MS_RDONLY : Z) (b : Builder)
    : Prog (option error) :=
  match b with
  | BuilderHostDirectory v => HostDirectory_SetUp v
  | BuilderEmptyDirectory v => EmptyDirectory_SetUp v
  | BuilderGCEPersistentDisk v =>
      GCEPersistentDisk_SetUp MOUNT_MS_BIND MOUNT_MS_RDONLY v
  end.

Definition Cleaner_TearDown (c : Cleaner) : Prog (option error) :=
  match c with
  | CleanerEmptyDirectory v => EmptyDirectory_TearDown v
  | CleanerGCEPersistentDisk v => GCEPersistentDisk_TearDown v
  end.

(** A value of one of the three variant types, and the methods its type has:
    [None] where the type does not declare the method. *)
Inductive Volume : Set :=
| VHostDirectory (v : HostDirectory)
| VEmptyDirectory (v : EmptyDirectory)
| VGCEPersistentDisk (v : GCEPersistentDisk).

Definition method_GetPath (v : Volume) : option string :=
  match v with
  | VHostDirectory v => Some (HostDirectory_GetPath v)
  | VEmptyDirectory v => Some (EmptyDirectory_GetPath v)
  | VGCEPersistentDisk v => Some (GCEPersistentDisk_GetPath v)
  end.

Definition method_SetUp (MOUNT_MS_BIND MOUNT_MS_RDONLY : Z) (v : Volume)
    : option (Prog (option error)) :=
  match v with
  | VHostDirectory v => Some (HostDirectory_SetUp v)
  | VEmptyDirectory v => Some (EmptyDirectory_SetUp v)
  | VGCEPersistentDisk v =>
      Some (GCEPersistentDisk_SetUp MOUNT_MS_BIND MOUNT_MS_RDONLY v)
  end.

Definition method_TearDown (v : Volume) : option (Prog (option error)) :=
  match v with
  | VHostDirectory _ => None
  | VEmptyDirectory v => Some (EmptyDirectory_TearDown v)
  | VGCEPersistentDisk v => Some (GCEPersistentDisk_TearDown v)
  end.

(** ** Factory *)

(** The three interpreters dereference [volume.Source] and the descriptor
    they are named after; [None] is the nil-pointer panic. *)

(** Interprets API volume as a HostDirectory *)
Definition createHostDirectory (volume : api.Volume) : option HostDirectory :=
  source ← api.Source volume;
  hd ← api.VolumeSource_HostDirectory source;
  Some (mkHostDirectory (api.Path hd)).

(** Interprets API volume as an EmptyDirectory *)
Definition createEmptyDirectory (volume : api.Volume) (podID rootDir : string)
    : EmptyDirectory :=
  mkEmptyDirectory (api.Name volume) podID rootDir.

(** Interprets API volume as a PersistentDisk *)
Definition createGCEPersistentDisk (volume : api.Volume)
    (podID rootDir : string) : option (GCEPersistentDisk * option error) :=
  source ← api.Source volume;
  pd ← api.VolumeSource_GCEPersistentDisk source;
  let PDName := api.PDName pd in
  let FSType := api.FSType pd in
  let partition := Itoa (api.Partition pd) in
  let partition := if String.eqb partition "0" then "" else partition in
  let readOnly := api.ReadOnly pd in
  Some ({| GCEPersistentDisk_Name := api.Name volume;
           GCEPersistentDisk_PodID := podID;
           GCEPersistentDisk_RootDir := rootDir;
           GCEPersistentDisk_PDName := PDName;
           GCEPersistentDisk_FSType := FSType;
           GCEPersistentDisk_Partition := partition;
           GCEPersistentDisk_ReadOnly := readOnly;
           GCEPersistentDisk_util := GCEDiskUtil;
           GCEPersistentDisk_mounter := DiskMounter |}, None).

(** CreateVolumeBuilder returns a Builder capable of mounting a volume
    described by an [*api.Volume], or an error.  The outer [option] is [None]
    on a nil-pointer panic. *)
Definition CreateVolumeBuilder (volume : api.Volume) (podID rootDir : string)
    : option (option Builder * option error) :=
  match api.Source volume with
  | None => Some (None, None)
  | Some source =>
      if bool_decide (api.VolumeSource_HostDirectory source ≠ None) then
        vol ← createHostDirectory volume;
        Some (Some (BuilderHostDirectory vol), None)
      else if bool_decide (api.VolumeSource_EmptyDirectory source ≠ None) then
        Some (Some (BuilderEmptyDirectory
                      (createEmptyDirectory volume podID rootDir)), None)
      else if bool_decide (api.VolumeSource_GCEPersistentDisk source ≠ None) then
        '(vol, err) ← createGCEPersistentDisk volume podID rootDir;
        match err with
        | Some e => Some (None, Some e)
        | None => Some (Some (BuilderGCEPersistentDisk vol), None)
        end
      else Some (None, Some ErrUnsupportedVolumeType)
  end.

(** CreateVolumeCleaner returns a Cleaner capable of tearing down a volume. *)
Definition CreateVolumeCleaner (kind name podID rootDir : string)
    : option Cleaner * option error :=
  if String.eqb kind "empty" then
    (Some (CleanerEmptyDirectory (mkEmptyDirectory name podID rootDir)), None)
  else if String.eqb kind "gce-pd" then
    (Some (CleanerGCEPersistentDisk
             {| GCEPersistentDisk_Name := name;
                GCEPersistentDisk_PodID := podID;
                GCEPersistentDisk_RootDir := rootDir;
                GCEPersistentDisk_PDName := "";
                GCEPersistentDisk_FSType := "";
                GCEPersistentDisk_Partition := "";
                GCEPersistentDisk_ReadOnly := false;
                GCEPersistentDisk_util := GCEDiskUtil;
                GCEPersistentDisk_mounter := DiskMounter |}), None)
  else (None, Some ErrUnsupportedVolumeType).

(** ** Reconciler *)

Definition log_read_error (dir : string) (err : option error) : Prog unit :=
  match err with
  | Some e => call (GlogErrorf "Could not read directory: %s, (%s)" dir e)
  | None => Ret tt
  end.

(** Examines directory structure to determine volumes that are presently
    active and mounted.  Returns a map of Cleaner values (the nil interface
    value is [None]). *)
Definition GetCurrentVolumes (rootDirectory : string)
    : Prog (gmap string (option Cleaner)) :=
  let currentVolumes : gmap string (option Cleaner) := ∅ in
  '(podIDDirs, err) ← call (IoutilReadDir rootDirectory);
  _ ← log_read_error rootDirectory err;
  (* Volume information is extracted from the directory structure:
     (ROOT_DIR)/(POD_ID)/volumes/(VOLUME_KIND)/(VOLUME_NAME) *)
  for_range podIDDirs (fun podIDDir currentVolumes =>
    if negb (fi_IsDir podIDDir) then Ret currentVolumes
    else
      let podID := fi_Name podIDDir in
      let podIDPath := path.Join [rootDirectory; podID; "volumes"] in
      '(volumeKindDirs, err) ← call (IoutilReadDir podIDPath);
      _ ← log_read_error podIDPath err;
      for_range volumeKindDirs (fun volumeKindDir currentVolumes =>
        let volumeKind := fi_Name volumeKindDir in
        let volumeKindPath := path.Join [podIDPath; volumeKind] in
        '(volumeNameDirs, err) ← call (IoutilReadDir volumeKindPath);
        _ ← log_read_error volumeKindPath err;
        for_range volumeNameDirs (fun volumeNameDir currentVolumes =>
          let volumeName := fi_Name volumeNameDir in
          let identifier := path.Join [podID; volumeName] in
          let '(cleaner, err) :=
            CreateVolumeCleaner volumeKind volumeName podID rootDirectory in
          match err with
          | Some e =>
              _ ← call (GlogErrorf "Could not create volume cleaner: %s, (%s)"
                          (fi_Name volumeNameDir) e);
              Ret currentVolumes
          | None => Ret (<[identifier := cleaner]> currentVolumes)
          end) currentVolumes) currentVolumes) currentVolumes.

(** ** The older package [volumes] *)

Module volumes.

Record HostDirectoryVolume : Set := mkHostDirectoryVolume {
  Name : string;
  Path : string
}.

(** Simple host directory mounts require no setup or cleanup: [Mount] and
    [UnMount] have empty bodies and return nothing. *)
Definition Mount (hostVol : HostDirectoryVolume) : Prog unit := Ret tt.
Definition UnMount (hostVol : HostDirectoryVolume) : Prog unit := Ret tt.
Definition GetPath (hostVol : HostDirectoryVolume) : string := Path hostVol.

End volumes.

(** ** A simulated host

    A small model of what the calls act on: a directory tree, the mount
    table, the disks attached to the host.  The [os] and [ioutil] functions
    follow the documented behaviour of the Go standard library; permissions
    and symbolic links are left out and the working directory is the root. *)

Module sim.

Record World : Type := mkWorld {
  (** absolute path, as its components ↦ is it a directory *)
  fs : gmap (list string) bool;
  (** the mount table: device and mount point of every entry, oldest first *)
  mounts : list (string * string);
  (** names of the disks the provider knows, and of those attached here *)
  disks : list string;
  attached : list string;
  (** source of the suffixes [ioutil.TempDir] appends *)
  tmp_seq : nat;
  (** what was logged, oldest first *)
  log : list (string * string * error)
}.

Definition with_fs (w : World) (f : gmap (list string) bool) : World :=
  mkWorld f (mounts w) (disks w) (attached w) (tmp_seq w) (log w).
Definition with_mounts (w : World) (m : list (string * string)) : World :=
  mkWorld (fs w) m (disks w) (attached w) (tmp_seq w) (log w).
Definition with_attached (w : World) (a : list string) : World :=
  mkWorld (fs w) (mounts w) (disks w) a (tmp_seq w) (log w).

(** The fields of a byte string between slashes. *)
Fixpoint fields (p cur : list ascii) : list (list ascii) :=
  match p with
  | [] => [cur]
  | c :: p' =>
      if Ascii.eqb c path.slash then cur :: fields p' []
      else fields p' (cur ++ [c])
  end.

Definition is_name (s : string) : bool :=
  negb (String.eqb s "") && negb (String.eqb s ".") && negb (String.eqb s "..").

(** The components a path resolves to. *)
Definition key (p : string) : list string :=
  List.filter is_name
    (map string_of_list_ascii
         (fields (list_ascii_of_string (path.Clean p)) [])).

(** Walk [rest] down from the directory [pre]: [None] when every step
    exists, the error of the first failing step otherwise. *)
Fixpoint stat_from (f : gmap (list string) bool) (pre rest : list string)
    : option errno :=
  match rest with
  | [] => None
  | c :: rest' =>
      match f !! (pre ++ [c]) with
      | None => Some ENOENT
      | Some true => stat_from f (pre ++ [c]) rest'
      | Some false =>
          match rest' with
          | [] => None
          | _ => Some ENOTDIR
          end
      end
  end.

Definition stat (f : gmap (list string) bool) (k : list string) : option errno :=
  stat_from f [] k.

Definition is_dir (f : gmap (list string) bool) (k : list string) : bool :=
  match stat f k with
  | None => match k with [] => true | _ => bool_decide (f !! k = Some true) end
  | Some _ => false
  end.

(** [os.MkdirAll]: every missing directory on the way is created; a regular
    file on the way is [ENOTDIR]; an existing directory is left alone. *)
Fixpoint mkdir_all (f : gmap (list string) bool) (pre rest : list string)
    : option errno * gmap (list string) bool :=
  match rest with
  | [] => (None, f)
  | c :: rest' =>
      match f !! (pre ++ [c]) with
      | None => mkdir_all (<[pre ++ [c] := true]> f) (pre ++ [c]) rest'
      | Some true => mkdir_all f (pre ++ [c]) rest'
      | Some false => (Some ENOTDIR, f)
      end
  end.

(** [os.Mkdir]: the parent must be there and be a directory; a missing
    parent is [ENOENT], a regular file on the way to the new name is
    [ENOTDIR]. *)
Definition mkdir (f : gmap (list string) bool) (k : list string)
    : option errno * gmap (list string) bool :=
  match stat f k with
  | None => (Some EEXIST, f)
  | Some _ =>
      match stat f (removelast k) with
      | Some e => (Some e, f)
      | None =>
          if is_dir f (removelast k) then (None, <[k := true]> f)
          else (Some ENOTDIR, f)
      end
  end.

Definition under (k k' : list string) : bool := bool_decide (k `prefix_of` k').

(** [os.RemoveAll]: the path and everything below it; no error when the path
    is not there. *)
Definition remove_all (f : gmap (list string) bool) (k : list string)
    : gmap (list string) bool :=
  filter (fun kv => negb (under k (fst kv)) = true) f.

(** [os.Rename] of a file or a directory tree.  Go refuses a directory at
    the new path before it asks the system: the error of a bad old path
    comes first, then [EEXIST], unless the two names are different spellings
    of the same directory ([same_name] says that the two strings are equal).
    Otherwise the parent of the new path must be a directory, a directory
    does not replace a regular file nor move below itself, and a regular
    file at the new path is replaced. *)
Definition rename (f : gmap (list string) bool) (same_name : bool)
    (ko kn : list string) : option errno * gmap (list string) bool :=
  match stat f ko with
  | Some e => (Some e, f)
  | None =>
      if is_dir f kn && (same_name || negb (bool_decide (ko = kn))) then
        (Some EEXIST, f)
      else
        match stat f (removelast kn) with
        | Some e => (Some e, f)
        | None =>
            if negb (is_dir f (removelast kn)) then (Some ENOTDIR, f)
            else if is_dir f ko && bool_decide (f !! kn = Some false) then
              (Some ENOTDIR, f)
            else if under ko kn && negb (bool_decide (ko = kn)) then
              (Some EINVAL, f)
            else
              let moved :=
                map (fun kv => (kn ++ drop (length ko) (fst kv), snd kv))
                    (List.filter (fun kv => under ko (fst kv)) (map_to_list f)) in
              (None, list_to_map moved ∪ remove_all (remove_all f ko) kn)
        end
  end.

(** [ioutil.TempDir]: up to 10000 attempts to create [dir/prefix<suffix>]
    with a fresh suffix, retried while the name exists. *)
Fixpoint temp_dir (tries : nat) (dir prefix : string) (w : World)
    : (string * option error) * World :=
  match tries with
  | 0 => (("", Some (Errno EEXIST)), w)
  | S tries' =>
      let try := path.Join [dir; prefix +:+ Itoa (Z.of_nat (tmp_seq w))] in
      let w1 := mkWorld (fs w) (mounts w) (disks w) (attached w)
                        (S (tmp_seq w)) (log w) in
      match mkdir (fs w1) (key try) with
      | (Some EEXIST, _) => temp_dir tries' dir prefix w1
      | (Some e, _) => (("", Some (Errno e)), w1)
      | (None, f) => ((try, None), with_fs w1 f)
      end
  end.

Definition name_le (a b : FileInfo) : Prop := String.leb (fi_Name a) (fi_Name b) = true.

#[global] Instance name_le_dec a b : Decision (name_le a b).
Proof. unfold name_le. apply _. Defined.

(** [ioutil.ReadDir]: the entries of a directory sorted by name, or no
    entries and an error. *)
Definition read_dir (f : gmap (list string) bool) (k : list string)
    : list FileInfo * option error :=
  match stat f k with
  | Some e => ([], Some (Errno e))
  | None =>
      if is_dir f k then
        (merge_sort name_le
           (omap (fun kv =>
                    if bool_decide (removelast (fst kv) = k)
                    then match last (fst kv) with
                         | Some n => Some (mkFileInfo n (snd kv))
                         | None => None
                         end
                    else None)
                 (map_to_list f)), None)
      else ([], Some (Errno ENOTDIR))
  end.

(** The device a provider disk shows up as. *)
Definition device_prefix : string := "/dev/disk/by-id/google-".
Definition device_of_disk (name : string) : string := device_prefix +:+ name.
Definition disk_of_device (dev : string) : string :=
  string_of_list_ascii
    (drop (String.length device_prefix) (list_ascii_of_string dev)).

(** The device of the mount entry at a mount point (the last one wins). *)
Fixpoint device_at (m : list (string * string)) (target : string) : option string :=
  match m with
  | [] => None
  | (dev, mp) :: m' =>
      match device_at m' target with
      | Some d => Some d
      | None => if String.eqb mp target then Some dev else None
      end
  end.

(** Drop the last entry mounted at [target]. *)
Fixpoint drop_mount (m : list (string * string)) (target : string)
    : list (string * string) :=
  match m with
  | [] => []
  | (dev, mp) :: m' =>
      match device_at m' target with
      | Some _ => (dev, mp) :: drop_mount m' target
      | None => if String.eqb mp target then m' else (dev, mp) :: m'
      end
  end.

(** Modelled from the spec: the Mount Capability ([DiskMounter], whose file
    is not part of the sources) "performs bind/plain mounts and unmounts, and
    reports the device backing a mount point plus how many mount entries
    reference that device".  A bind mount of a mounted directory shows the
    device of that mount. *)
Definition Mount (source target fstype : string) (flags : Z) (w : World)
    : option error * World :=
  if is_dir (fs w) (key source) && is_dir (fs w) (key target) then
    let dev := match device_at (mounts w) (path.Clean source) with
               | Some d => d
               | None => if String.eqb fstype "" then "rootfs" else source
               end in
    (None, with_mounts w (mounts w ++ [(dev, path.Clean target)]))
  else (Some (Errno ENOENT), w).

(** Modelled from the spec: unmounting (see [Mount]); a target that is not a
    mount point is [EINVAL], as for umount(2). *)
Definition Unmount (target : string) (w : World) : option error * World :=
  match device_at (mounts w) (path.Clean target) with
  | Some _ => (None, with_mounts w (drop_mount (mounts w) (path.Clean target)))
  | None => (Some (Errno EINVAL), w)
  end.

(** Modelled from the spec: the reference count of the Mount Capability (see
    [Mount]): the device backing the volume's path and the number of mount
    entries of that device; no device and count 0 when the path is not a
    mount point. *)
Definition RefCount (vol : GCEPersistentDisk) (w : World) : string * Z * option error :=
  match device_at (mounts w) (GCEPersistentDisk_GetPath vol) with
  | Some dev =>
      (dev,
       Z.of_nat (length (List.filter (fun e => String.eqb (fst e) dev) (mounts w))),
       None)
  | None => ("", 0%Z, None)
  end.

(** Modelled from the spec: the Disk Attach Capability ([GCEDiskUtil], whose
    file is not part of the sources) "attaches/detaches a named block device
    to/from the local host"; after attaching, the state is [AttachedGlobal]:
    "disk attached to host, global mount point populated".  Attaching an
    attached disk changes nothing; a disk the provider does not know fails. *)
Definition AttachDisk (PD : GCEPersistentDisk) (w : World) : option error * World :=
  let name := GCEPersistentDisk_PDName PD in
  if bool_decide (name ∈ disks w) then
    let globalPDPath := makeGlobalPDName (GCEPersistentDisk_RootDir PD) name in
    match device_at (mounts w) globalPDPath with
    | Some _ => (None, w)
    | None =>
        match mkdir_all (fs w) [] (key globalPDPath) with
        | (Some e, _) => (Some (Errno e), w)
        | (None, f) =>
            (None,
             mkWorld f (mounts w ++ [(device_of_disk name, globalPDPath)])
                     (disks w) (name :: attached w) (tmp_seq w) (log w))
        end
    end
  else (Some (ErrExternal "disk not found"), w).

(** Modelled from the spec: detaching (see [AttachDisk]) unmounts and removes
    the global mount point of the device and detaches its disk. *)
Definition DetachDisk (PD : GCEPersistentDisk) (devicePath : string) (w : World)
    : option error * World :=
  let name := disk_of_device devicePath in
  let globalPDPath := makeGlobalPDName (GCEPersistentDisk_RootDir PD) name in
  match Unmount globalPDPath w with
  | (Some e, _) => (Some e, w)
  | (None, w1) =>
      (None,
       mkWorld (remove_all (fs w1) (key globalPDPath)) (mounts w1) (disks w1)
               (List.filter (fun d => negb (String.eqb d name)) (attached w1))
               (tmp_seq w1) (log w1))
  end.

Definition lift_errno (r : option errno * gmap (list string) bool) (w : World)
    : option error * World :=
  (Errno <$> fst r, with_fs w (snd r)).

Definition handler : Handler World :=
  fun X c =>
    match c in Call X return World -> X * World with
    | OsStat name => fun w => (Errno <$> stat (fs w) (key name), w)
    | OsMkdirAll name _ => fun w => lift_errno (mkdir_all (fs w) [] (key name)) w
    | OsRemoveAll name => fun w => (None, with_fs w (remove_all (fs w) (key name)))
    | OsRename oldpath newpath =>
        fun w => lift_errno (rename (fs w) (String.eqb oldpath newpath)
                                    (key oldpath) (key newpath)) w
    | IoutilTempDir dir prefix =>
        fun w => temp_dir (100 * 100) (if String.eqb dir "" then "/tmp" else dir) prefix w
    | IoutilReadDir dirname => fun w => (read_dir (fs w) (key dirname), w)
    | UtilAttachDisk _ PD => fun w => AttachDisk PD w
    | UtilDetachDisk _ PD devicePath => fun w => DetachDisk PD devicePath w
    | MounterMount _ source target fstype flags _ =>
        fun w => Mount source target fstype flags w
    | MounterUnmount _ target _ => fun w => Unmount target w
    | MounterRefCount _ vol => fun w => (RefCount vol w, w)
    | GlogErrorf format arg err =>
        fun w => (tt, mkWorld (fs w) (mounts w) (disks w) (attached w)
                              (tmp_seq w) (log w ++ [(format, arg, err)]))
    end.

(** A directory tree given by the paths of its directories. *)
Definition tree (dirs : list string) : gmap (list string) bool :=
  foldl (fun f d => snd (mkdir_all f [] (key d))) ∅ dirs.

Definition host (dirs : list string) (known : list string) : World :=
  mkWorld (tree dirs) [] known [] 0 [].

End sim.

(** Fixed answers, as the fakes of a test would give them: every call
    succeeds except as the fields say. *)
Record Fake : Type := mkFake {
  fake_stat : option error;
  fake_attach : option error;
  fake_mkdir : option error;
  fake_mount : option error;
  fake_unmount : option error;
  fake_remove : option error;
  fake_detach : option error;
  fake_refcount : string * Z * option error
}.

Definition fake_handler (f : Fake) : Handler unit :=
  fun X c =>
    match c in Call X return unit -> X * unit with
    | OsStat _ => fun w => (fake_stat f, w)
    | OsMkdirAll _ _ => fun w => (fake_mkdir f, w)
    | OsRemoveAll _ => fun w => (fake_remove f, w)
    | OsRename _ _ => fun w => (None, w)
    | IoutilTempDir dir prefix => fun w => ((path.Join [dir; prefix], None), w)
    | IoutilReadDir _ => fun w => (([], None), w)
    | UtilAttachDisk _ _ => fun w => (fake_attach f, w)
    | UtilDetachDisk _ _ _ => fun w => (fake_detach f, w)
    | MounterMount _ _ _ _ _ _ => fun w => (fake_mount f, w)
    | MounterUnmount _ _ _ => fun w => (fake_unmount f, w)
    | MounterRefCount _ _ => fun w => (fake_refcount f, w)
    | GlogErrorf _ _ _ => fun w => (tt, w)
    end.

Definition fake_ok : Fake :=
  mkFake None None None None None None None ("", 0%Z, None).

(** The flag values of a Linux host. *)
Definition linux_MS_RDONLY : Z := 1.
Definition linux_MS_BIND : Z := 4096.

(** ** Vocabulary of the statements *)

(** What a handler answers to a call in a world, and the world it leaves. *)
Definition answer {W X : Type} (h : Handler W) (c : Call X) (w : W) : X :=
  fst (h X c w).
Definition after {W X : Type} (h : Handler W) (c : Call X) (w : W) : W :=
  snd (h X c w).

(** A plain name: not empty, not [.] or [..], and without a slash. *)
Definition plain_name (s : string) : bool :=
  negb (String.eqb s "") && negb (String.eqb s ".") && negb (String.eqb s "..")
  && forallb (fun c => negb (Ascii.eqb c path.slash)) (list_ascii_of_string s).

(** A directory path in clean form: plain names joined by slashes, after a
    leading slash when [rooted]. *)
Definition dir_path (rooted : bool) (names : list string) : string :=
  (if rooted then "/" else "") +:+ path.strings_Join names "/".

(** The (podID, kind, name) triples of a directory listing [readDir], in the
    order the scan meets them: the directories under the root, the entries
    of their [volumes] directory, the entries of those. *)
Definition found_triples (readDir : string -> list FileInfo * option error)
    (rootDirectory : string) : list (string * string * string) :=
  podIDDir ← (readDir rootDirectory).1;
  if fi_IsDir podIDDir then
    let podID := fi_Name podIDDir in
    let podIDPath := path.Join [rootDirectory; podID; "volumes"] in
    volumeKindDir ← (readDir podIDPath).1;
    let volumeKind := fi_Name volumeKindDir in
    volumeNameDir ← (readDir (path.Join [podIDPath; volumeKind])).1;
    [(podID, volumeKind, fi_Name volumeNameDir)]
  else [].

(** What the scan does with one triple: the cleaner of a recognized kind is
    stored under [podID/name], replacing what was there; other triples leave
    the map as it is. *)
Definition record_cleaner (rootDirectory : string)
    (currentVolumes : gmap string (option Cleaner))
    (t : string * string * string) : gmap string (option Cleaner) :=
  let '(podID, volumeKind, volumeName) := t in
  match CreateVolumeCleaner volumeKind volumeName podID rootDirectory with
  | (cleaner, None) => <[path.Join [podID; volumeName] := cleaner]> currentVolumes
  | (_, Some _) => currentVolumes
  end.

(** A program computes [a] on the worlds of [Inv] when every run from such a
    world returns [a] and ends in such a world. *)
Definition computes {W A : Type} (h : Handler W) (Inv : W -> Prop)
    (p : Prog A) (a : A) : Prop :=
  forall w, Inv w -> result (run h p w) = a /\ Inv (final (run h p w)).



(** The bytes of a plain name. *)
Definition seg (l : list ascii) : Prop :=
  l <> [] /\ Forall (fun c => Ascii.eqb c path.slash = false) l /\
  l <> [path.dot] /\ l <> [path.dot; path.dot].

(** Where [Clean] writes a separator before a real path element. *)
Definition sep (rooted : bool) (out : list ascii) : list ascii :=
  if rooted && negb (length out =? 1) || negb rooted && negb (length out =? 0)
  then out ++ [path.slash] else out.

(** The bytes of names joined by slashes, after the first. *)
Definition tail_bytes (ls : list (list ascii)) : list ascii :=
  concat (map (cons path.slash) ls).

(** ** Example inputs *)

Definition example_disk (podID : string) : GCEPersistentDisk :=
  mkGCEPersistentDisk "data" podID "/var/lib/kubelet" "disk-1" "ext4" "" true
                      GCEDiskUtil DiskMounter.

(** A host with no directories yet, whose provider knows [disk-1]. *)
Definition example_host : sim.World := sim.host [] ["disk-1"].

Definition set_up (PD : GCEPersistentDisk) (w : sim.World) : sim.World :=
  final (run sim.handler
           (GCEPersistentDisk_SetUp linux_MS_BIND linux_MS_RDONLY PD) w).

Definition tear_down (PD : GCEPersistentDisk) (w : sim.World) : sim.World :=
  final (run sim.handler (GCEPersistentDisk_TearDown PD) w).

(** The same disk set up for two pods. *)
Definition two_pods_mounted : sim.World :=
  set_up (example_disk "pod-B") (set_up (example_disk "pod-A") example_host).

(** A mounter fake that reports a given reference count. *)
Definition fake_count (n : Z) : Fake :=
  mkFake None None None None None None None ("/dev/sdb", n, None).

(** The tree of the reconciliation scenario, and one in which a pod has
    the same volume name under two kinds. *)
Definition scenario_host : sim.World :=
  sim.host ["/var/lib/kubelet/pod-A/volumes/empty/cache";
            "/var/lib/kubelet/pod-B/volumes/gce-pd/data";
            "/var/lib/kubelet/pod-C/volumes/unknown/x"] [].

Definition collision_host : sim.World :=
  sim.host ["/var/lib/kubelet/p/volumes/empty/x";
            "/var/lib/kubelet/p/volumes/gce-pd/x"] [].

Definition cleaner_PD (name podID rootDir : string) : Cleaner :=
  CleanerGCEPersistentDisk
    (mkGCEPersistentDisk name podID rootDir "" "" "" false GCEDiskUtil DiskMounter).

(** The listing of a fixed tree. *)
Definition listing (w : sim.World) (d : string) : list FileInfo * option error :=
  sim.read_dir (sim.fs w) (sim.key d).

Definition same_tree (w0 w : sim.World) : Prop := sim.fs w = sim.fs w0.

Definition example_empty : EmptyDirectory :=
  mkEmptyDirectory "cache" "pod-A" "/var/lib/kubelet".

(** A host on which another empty directory of the same pod is set up. *)
Definition sibling_host : sim.World :=
  sim.host ["/var/lib/kubelet/pod-A/volumes/empty/logs"] [].


(** ** More vocabulary *)

(** [only_calls P p]: whatever the answers are, every call [p] makes
    satisfies [P]. *)
Fixpoint only_calls {A : Type} (P : forall X : Type, Call X -> bool)
    (p : Prog A) : Prop :=
  match p with
  | Ret _ => True
  | Vis c k => P _ c = true /\ forall x, only_calls P (k x)
  end.

Definition event_call (P : forall X : Type, Call X -> bool) (e : Event) : bool :=
  match e with Ev c _ => P _ c end.

(** The calls of a directory scan: listing and logging. *)
Definition scan_call (X : Type) (c : Call X) : bool :=
  match c with
  | IoutilReadDir _ | GlogErrorf _ _ _ => true
  | _ => false
  end.

(** The calls that set a volume up, and the calls that tear one down. *)
Definition setup_call (X : Type) (c : Call X) : bool :=
  match c with
  | OsStat _ | OsMkdirAll _ _ | UtilAttachDisk _ _
  | MounterMount _ _ _ _ _ _ | OsRemoveAll _ => true
  | _ => false
  end.

Definition teardown_call (X : Type) (c : Call X) : bool :=
  match c with
  | IoutilTempDir _ _ | OsRename _ _ | OsRemoveAll _
  | MounterRefCount _ _ | MounterUnmount _ _ _ | UtilDetachDisk _ _ _ => true
  | _ => false
  end.

(** The calls on the local filesystem only. *)
Definition os_call (X : Type) (c : Call X) : bool :=
  match c with
  | OsStat _ | OsMkdirAll _ _ | OsRemoveAll _ | OsRename _ _
  | IoutilTempDir _ _ | IoutilReadDir _ => true
  | _ => false
  end.

(** [GetPath] of the value behind a [Cleaner] (both types that implement
    [Cleaner] have the method). *)
Definition Cleaner_GetPath (c : Cleaner) : string :=
  match c with
  | CleanerEmptyDirectory v => EmptyDirectory_GetPath v
  | CleanerGCEPersistentDisk v => GCEPersistentDisk_GetPath v
  end.

(** The range of Go's [int]. *)
Definition in_int (z : Z) : Prop := (- 2 ^ 63 <= z < 2 ^ 63)%Z.

(** ** More example inputs *)

(** A disk whose name climbs out of [global/pd], for a pod called [global]:
    its global mount point is the canonical path of the pod's volume. *)
Definition aliasing_disk : GCEPersistentDisk :=
  mkGCEPersistentDisk "data" "global" "/var/lib/kubelet" "../volumes/gce-pd/data"
                      "ext4" "" false GCEDiskUtil DiskMounter.

Definition aliasing_host : sim.World := sim.host [] ["../volumes/gce-pd/data"].

(** A volume specification with all three sources populated. *)
Definition all_sources_volume : api.Volume :=
  api.mkVolume "v"
    (Some (api.mkVolumeSource (Some (api.mkHostDirectory "/data"))
                              (Some api.mkEmptyDirectory)
                              (Some (api.mkGCEPersistentDisk "disk-1" "ext4" 0 true)))).

(** The identity (root directory, pod, name) of the value behind a cleaner. *)
Definition Cleaner_identity (c : Cleaner) : string * string * string :=
  match c with
  | CleanerEmptyDirectory v =>
      (EmptyDirectory_RootDir v, EmptyDirectory_PodID v, EmptyDirectory_Name v)
  | CleanerGCEPersistentDisk v =>
      (GCEPersistentDisk_RootDir v, GCEPersistentDisk_PodID v,
       GCEPersistentDisk_Name v)
  end.

(** A host that answers listings from a table (directory ↦ entries) and
    fails to list any other directory; the world is the log. *)
Fixpoint table_lookup (table : list (string * list FileInfo)) (d : string)
    : list FileInfo * option error :=
  match table with
  | [] => ([], Some (Errno ENOENT))
  | (d', entries) :: table' =>
      if String.eqb d' d then (entries, None) else table_lookup table' d
  end.

Definition table_handler (table : list (string * list FileInfo))
    : Handler (list (string * string * error)) :=
  fun X c =>
    match c in Call X return list (string * string * error) ->
                             X * list (string * string * error) with
    | IoutilReadDir d => fun w => (table_lookup table d, w)
    | GlogErrorf f a e => fun w => (tt, w ++ [(f, a, e)])
    | OsStat _ => fun w => (None, w)
    | OsMkdirAll _ _ => fun w => (None, w)
    | OsRemoveAll _ => fun w => (None, w)
    | OsRename _ _ => fun w => (None, w)
    | IoutilTempDir dir prefix => fun w => ((path.Join [dir; prefix], None), w)
    | UtilAttachDisk _ _ => fun w => (None, w)
    | UtilDetachDisk _ _ _ => fun w => (None, w)
    | MounterMount _ _ _ _ _ _ => fun w => (None, w)
    | MounterUnmount _ _ _ => fun w => (None, w)
    | MounterRefCount _ _ => fun w => (("", 0%Z, None), w)
    end.

(** The listings of the tree with [p/volumes/empty/x] and
    [p/volumes/gce-pd/x]. *)
Definition collision_table : list (string * list FileInfo) :=
  [("/var/lib/kubelet", [mkFileInfo "p" true]);
   ("/var/lib/kubelet/p/volumes",
    [mkFileInfo "empty" true; mkFileInfo "gce-pd" true]);
   ("/var/lib/kubelet/p/volumes/empty", [mkFileInfo "x" true]);
   ("/var/lib/kubelet/p/volumes/gce-pd", [mkFileInfo "x" true])].

(** ** The older package [volumes]: the factory

    [CreateVolume] reads the earlier shape of [api.Volume], with a type tag
    and a path. *)

Module volumes_factory.

Record Volume : Set := mkVolume { Name : string; Type' : string; Path : string }.

(** The types that implement [ExternalVolume]. *)
Inductive ExternalVolume : Set :=
| ExternalHostDirectoryVolume (v : volumes.HostDirectoryVolume).

Definition ExternalVolume_GetPath (v : ExternalVolume) : string :=
  match v with ExternalHostDirectoryVolume v => volumes.GetPath v end.

Definition ExternalVolume_Mount (v : ExternalVolume) : Prog unit :=
  match v with ExternalHostDirectoryVolume v => volumes.Mount v end.

Definition ExternalVolume_UnMount (v : ExternalVolume) : Prog unit :=
  match v with ExternalHostDirectoryVolume v => volumes.UnMount v end.

(** Interprets API volume as a HostDirectory *)
Definition createHostDirectoryVolume (volume : Volume)
    : volumes.HostDirectoryVolume :=
  volumes.mkHostDirectoryVolume (Name volume) (Path volume).

(** Interprets parameters passed in the API as an internal structure with
    utility procedures for mounting. *)
Definition CreateVolume (volume : Volume) : option ExternalVolume * option error :=
  if String.eqb (Type' volume) "HOST" then
    (Some (ExternalHostDirectoryVolume (createHostDirectoryVolume volume)), None)
  else (None, Some (ErrExternal "Unsupported volume type.")).

End volumes_factory.

(** * Package [gce_cloud]: the provider behind the persistent disks *)

(** ** Go's [strings], on bytes

    Every separator the package passes is a single byte; it is given here
    as that byte.  An index is an [int], [-1] for none. *)

Module strings.

Fixpoint index_from (i : Z) (s : list ascii) (sep : ascii) : Z :=
  match s with
  | [] => (-1)%Z
  | c :: s' => if Ascii.eqb c sep then i else index_from (i + 1)%Z s' sep
  end.

Definition Index (s : string) (sep : ascii) : Z :=
  index_from 0%Z (list_ascii_of_string s) sep.

Fixpoint last_index_from (i found : Z) (s : list ascii) (sep : ascii) : Z :=
  match s with
  | [] => found
  | c :: s' =>
      last_index_from (i + 1)%Z (if Ascii.eqb c sep then i else found) s' sep
  end.

Definition LastIndex (s : string) (sep : ascii) : Z :=
  last_index_from 0%Z (-1)%Z (list_ascii_of_string s) sep.

Fixpoint split_bytes (s : list ascii) (sep : ascii) : list (list ascii) :=
  match s with
  | [] => [[]]
  | c :: s' =>
      if Ascii.eqb c sep then [] :: split_bytes s' sep
      else match split_bytes s' sep with
           | part :: parts => (c :: part) :: parts
           | [] => [[c]]
           end
  end.

Definition Split (s : string) (sep : ascii) : list string :=
  map string_of_list_ascii (split_bytes (list_ascii_of_string s) sep).

(** The slice [s[:ix]], for [0 <= ix <= len(s)]. *)
Definition slice_to (s : string) (ix : Z) : string :=
  string_of_list_ascii (take (Z.to_nat ix) (list_ascii_of_string s)).

End strings.

(** [without c s]: the byte [c] does not occur in [s]. *)
Definition without (c : ascii) (s : string) : bool :=
  forallb (fun x => negb (Ascii.eqb x c)) (list_ascii_of_string s).

Module gce_cloud.

(** ** The resources of the compute API, by the fields the package uses *)

Module compute.

Record Disk : Set := mkDisk { Disk_Name : string; Disk_Kind : string }.

Record AttachedDisk : Set := mkAttachedDisk {
  DeviceName : string;
  Kind : string;
  Mode : string;
  Source : string;
  Type' : string
}.

Record TargetPool : Set := mkTargetPool {
  TargetPool_Name : string;
  TargetPool_Instances : list string
}.

Record ForwardingRule : Set := mkForwardingRule {
  ForwardingRule_Name : string;
  IPProtocol : string;
  PortRange : string;
  Target : string
}.

Record InstanceReference : Set := mkInstanceReference { Instance : string }.

Record TargetPoolsAddInstanceRequest : Set := mkTargetPoolsAddInstanceRequest {
  Instances : list InstanceReference
}.

End compute.

(** [cloudprovider.Zone] *)
Record Zone : Set := mkZone { FailureDomain : string; Region : string }.

(** [GCECloud]; its [service] is the API the requests below go to. *)
Record GCECloud : Set := mkGCECloud {
  projectID : string;
  zone : string;
  instanceID : string
}.

(** ** Requests

    What the package asks of the metadata server, of the service account and
    of the compute API, each with the type of its answer.  Of an operation
    the API returns, the functions below keep the error only. *)
Inductive Request : Type -> Type :=
| HttpNewRequest (method url : string) : Request (option error)
| ClientDo (method url : string) (header : list (string * string))
    : Request (option error)
| IoutilReadAll : Request (string * option error)
| BodyClose : Request unit
| ServiceaccountNewClient : Request (option error)
| ComputeNew : Request (option error)
| TargetPoolsInsert (project region : string) (pool : compute.TargetPool)
    : Request (option error)
| TargetPoolsDelete (project region name : string) : Request (option error)
| TargetPoolsAddInstance (project region name : string)
    (req : compute.TargetPoolsAddInstanceRequest) : Request (option error)
| ForwardingRulesGet (project region name : string) : Request (option error)
| ForwardingRulesInsert (project region : string)
    (rule : compute.ForwardingRule) : Request (option error)
| ForwardingRulesDelete (project region name : string)
    : Request (option error)
| InstancesAttachDisk (project zone instance : string)
    (attachedDisk : compute.AttachedDisk) : Request (option error)
| InstancesDetachDisk (project zone instance devicePath : string)
    : Request (option error)
| DisksGet (project zone name : string)
    : Request (compute.Disk * option error).

Inductive Api (A : Type) : Type :=
| Done (a : A)
| Ask {X : Type} (c : Request X) (k : X -> Api A).
Arguments Done {A} a.
Arguments Ask {A X} c k.

Fixpoint Api_then {A B : Type} (p : Api A) (f : A -> Api B) : Api B :=
  match p with
  | Done a => f a
  | Ask c k => Ask c (fun x => Api_then (k x) f)
  end.

Definition ask {X : Type} (c : Request X) : Api X := Ask c Done.

#[global] Instance Api_ret : MRet Api := @Done.
#[global] Instance Api_bind : MBind Api := fun A B f p => Api_then p f.

(** One request with its answer. *)
Inductive Sent : Type :=
| Req : forall {X : Type}, Request X -> X -> Sent.

Definition Server (W : Type) : Type := forall X : Type, Request X -> W -> X * W.

(** Running against a server: the result, the final state of the server and
    the requests made, in order. *)
Fixpoint serve {W A : Type} (h : Server W) (p : Api A) (w : W)
    : A * W * list Sent :=
  match p with
  | Done a => (a, w, [])
  | Ask c k =>
      let '(x, w1) := h _ c w in
      let '(a, w2, tr) := serve h (k x) w1 in
      (a, w2, Req c x :: tr)
  end.

Definition reply {W X : Type} (h : Server W) (c : Request X) (w : W) : X :=
  fst (h X c w).
Definition next {W X : Type} (h : Server W) (c : Request X) (w : W) : W :=
  snd (h X c w).

(** ** The functions of gce.go *)

Definition getMetadata (url : string) : Api (string * option error) :=
  err ← ask (HttpNewRequest "GET" url);
  match err with
  | Some e => mret ("", Some e)
  | None =>
      err ← ask (ClientDo "GET" url [("X-Google-Metadata-Request", "True")]);
      match err with
      | Some e => mret ("", Some e)
      | None =>
          '(data, err) ← ask IoutilReadAll;
          (* the deferred [res.Body.Close()] runs at either return *)
          _ ← ask BodyClose;
          match err with
          | Some e => mret ("", Some e)
          | None => mret (data, None)
          end
      end
  end.

Definition getProjectAndZone : Api (string * string * option error) :=
  let url := "http://metadata/computeMetadata/v1/instance/zone" in
  '(result, err) ← getMetadata url;
  match err with
  | Some e => mret ("", "", Some e)
  | None =>
      let parts := strings.Split result "/" in
      if negb (length parts =? 4) then
        mret ("", "", Some (ErrExternal ("Unexpected response: " +:+ result)))
      else mret (nth 1 parts "", nth 3 parts "", None)
  end.

Definition getInstanceID : Api (string * option error) :=
  let url := "http://metadata/computeMetadata/v1/instance/hostname" in
  '(result, err) ← getMetadata url;
  match err with
  | Some e => mret ("", Some e)
  | None =>
      let parts := strings.Split result "." in
      if length parts =? 0 then
        mret ("", Some (ErrExternal ("Unexpected response: " +:+ result)))
      else mret (nth 0 parts "", None)
  end.

(** newGCECloud creates a new instance of GCECloud. *)
Definition NewGCECloud : Api (option GCECloud * option error) :=
  '(projectID, zone, err) ← getProjectAndZone;
  match err with
  | Some e => mret (None, Some e)
  | None =>
      '(instanceID, err) ← getInstanceID;
      match err with
      | Some e => mret (None, Some e)
      | None =>
          err ← ask ServiceaccountNewClient;
          match err with
          | Some e => mret (None, Some e)
          | None =>
              err ← ask ComputeNew;
              match err with
              | Some e => mret (None, Some e)
              | None => mret (Some (mkGCECloud projectID zone instanceID), None)
              end
          end
      end
  end.

Definition makeHostLink (projectID zone host : string) : string :=
  let ix := strings.Index host "." in
  let host := if negb (ix =? -1)%Z then strings.slice_to host ix else host in
  "https://www.googleapis.com/compute/v1/projects/" +:+ projectID +:+
  "/zones/" +:+ zone +:+ "/instances/" +:+ host.

Definition makeTargetPool (gce : GCECloud) (name region : string)
    (hosts : list string) : Api (string * option error) :=
  let instances :=
    foldl (fun instances host =>
             instances ++ [makeHostLink (projectID gce) (zone gce) host])
          [] hosts in
  let pool := compute.mkTargetPool name instances in
  err ← ask (TargetPoolsInsert (projectID gce) region pool);
  match err with
  | Some e => mret ("", Some e)
  | None =>
      let link :=
        "https://www.googleapis.com/compute/v1/projects/" +:+ projectID gce +:+
        "/regions/" +:+ region +:+ "/targetPools/" +:+ name in
      mret (link, None)
  end.

(** TCPLoadBalancerExists is an implementation of
    TCPLoadBalancer.TCPLoadBalancerExists. *)
Definition TCPLoadBalancerExists (gce : GCECloud) (name region : string)
    : Api (bool * option error) :=
  err ← ask (ForwardingRulesGet (projectID gce) region name);
  mret (false, err).

(** CreateTCPLoadBalancer is an implementation of
    TCPLoadBalancer.CreateTCPLoadBalancer. *)
Definition CreateTCPLoadBalancer (gce : GCECloud) (name region : string)
    (port : Z) (hosts : list string) : Api (option error) :=
  '(pool, err) ← makeTargetPool gce name region hosts;
  match err with
  | Some e => mret (Some e)
  | None =>
      let req := compute.mkForwardingRule name "TCP" (Itoa port) pool in
      ask (ForwardingRulesInsert (projectID gce) region req)
  end.

(** UpdateTCPLoadBalancer is an implementation of
    TCPLoadBalancer.UpdateTCPLoadBalancer. *)
Definition UpdateTCPLoadBalancer (gce : GCECloud) (name region : string)
    (hosts : list string) : Api (option error) :=
  let refs :=
    foldl (fun refs host => refs ++ [compute.mkInstanceReference host])
          [] hosts in
  let req := compute.mkTargetPoolsAddInstanceRequest refs in
  ask (TargetPoolsAddInstance (projectID gce) region name req).

(** DeleteTCPLoadBalancer is an implementation of
    TCPLoadBalancer.DeleteTCPLoadBalancer. *)
Definition DeleteTCPLoadBalancer (gce : GCECloud) (name region : string)
    : Api (option error) :=
  err ← ask (ForwardingRulesDelete (projectID gce) region name);
  match err with
  | Some e => mret (Some e)
  | None => ask (TargetPoolsDelete (projectID gce) region name)
  end.

(** gce zone names are of the form: ${region-name}-${ix}.  So we look for
    the last '-' and trim to just before that. *)
Definition getGceRegion (zone : string) : string * option error :=
  let ix := strings.LastIndex zone "-" in
  if (ix =? -1)%Z then
    ("", Some (ErrExternal ("unexpected zone: " +:+ zone)))
  else (strings.slice_to zone ix, None).

Definition GetZone (gce : GCECloud) : Zone * option error :=
  let '(region, err) := getGceRegion (zone gce) in
  match err with
  | Some e => (mkZone "" "", Some e)
  | None => (mkZone (zone gce) region, None)
  end.

Definition getDisk (gce : GCECloud) (diskName : string)
    : Api (compute.Disk * option error) :=
  ask (DisksGet (projectID gce) (zone gce) diskName).

(** Converts a Disk resource to an AttachedDisk resource. *)
Definition convertDiskToAttachedDisk (gce : GCECloud) (disk : compute.Disk)
    (readWrite : string) : compute.AttachedDisk :=
  compute.mkAttachedDisk
    (compute.Disk_Name disk)
    (compute.Disk_Kind disk)
    readWrite
    ("https://" +:+
     path.Join ["www.googleapis.com/compute/v1/projects/"; projectID gce;
                "zones"; zone gce; "disks"; compute.Disk_Name disk])
    "PERSISTENT".

Definition AttachDisk (gce : GCECloud) (diskName : string) (readOnly : bool)
    : Api (option error) :=
  '(disk, err) ← getDisk gce diskName;
  match err with
  | Some e => mret (Some e)
  | None =>
      let readWrite := if readOnly then "READ_ONLY" else "READ_WRITE" in
      let attachedDisk := convertDiskToAttachedDisk gce disk readWrite in
      ask (InstancesAttachDisk (projectID gce) (zone gce) (instanceID gce)
                               attachedDisk)
  end.

Definition DetachDisk (gce : GCECloud) (devicePath : string)
    : Api (option error) :=
  ask (InstancesDetachDisk (projectID gce) (zone gce) (instanceID gce)
                           devicePath).

Definition is_BodyClose (r : Sent) : bool :=
  match r with Req BodyClose _ => true | _ => false end.

(** The metadata URLs. *)
Definition zone_url : string :=
  "http://metadata/computeMetadata/v1/instance/zone".
Definition hostname_url : string :=
  "http://metadata/computeMetadata/v1/instance/hostname".

(** A metadata server that always answers: the body of the URL last
    requested, from a table ([""] for a URL it does not have); every other
    request succeeds. *)
Fixpoint page (pages : list (string * string)) (url : string) : string :=
  match pages with
  | [] => ""
  | (u, body) :: pages' => if String.eqb u url then body else page pages' url
  end.

Definition metadata_server (pages : list (string * string))
    : Server string :=
  fun X c =>
    match c in Request X return string -> X * string with
    | HttpNewRequest _ _ => fun w => (None, w)
    | ClientDo _ url _ => fun _ => (None, url)
    | IoutilReadAll => fun w => ((page pages w, None), w)
    | BodyClose => fun w => (tt, w)
    | DisksGet _ _ name =>
        fun w => ((compute.mkDisk name "compute#disk", None), w)
    | _ => fun w => (None, w)
    end.

End gce_cloud.

(** * Properties *)

(** ** Path cleaning *)

(** The tables of the tests of Go's [path] package. *)
Example Clean_table :
  Forall (fun io => path.Clean io.1 = io.2)
    [("", "."); ("abc", "abc"); ("abc/def", "abc/def"); ("a/b/c", "a/b/c");
     (".", "."); ("..", ".."); ("../..", "../.."); ("../../abc", "../../abc");
     ("/abc", "/abc"); ("/", "/"); ("abc/", "abc"); ("abc/def/", "abc/def");
     ("a/b/c/", "a/b/c"); ("./", "."); ("../", ".."); ("../../", "../..");
     ("/abc/", "/abc"); ("abc//def//ghi", "abc/def/ghi"); ("//abc", "/abc");
     ("///abc", "/abc"); ("//abc//", "/abc"); ("abc//", "abc");
     ("abc/./def", "abc/def"); ("/./abc/def", "/abc/def"); ("abc/.", "abc");
     ("abc/def/ghi/../jkl", "abc/def/jkl");
     ("abc/def/../ghi/../jkl", "abc/jkl"); ("abc/def/..", "abc");
     ("abc/def/../..", "."); ("/abc/def/../..", "/");
     ("abc/def/../../..", ".."); ("/abc/def/../../..", "/");
     ("abc/def/../../../ghi/jkl/../../../mno", "../../mno");
     ("abc/./../def", "def"); ("abc//./../def", "def");
     ("abc/../../././../def", "../../def")].
Proof. repeat constructor. Qed.

Example Join_table :
  Forall (fun io => path.Join io.1 = io.2)
    [([], ""); ([""], ""); (["a"], "a"); (["a"; "b"], "a/b"); (["a"; ""], "a");
     ([""; "b"], "b"); (["/"; "a"], "/a"); (["/"; ""], "/"); (["a/"; "b"], "a/b");
     (["a/"; ""], "a"); ([""; ""], "")].
Proof. repeat constructor. Qed.

Example Base_table :
  Forall (fun io => path.Base io.1 = io.2)
    [("", "."); (".", "."); ("/.", "."); ("/", "/"); ("////", "/"); ("x/", "x");
     ("abc", "abc"); ("abc/def", "def"); ("a/b/.x", ".x"); ("a/b/c.", "c.");
     ("a/b/c.x", "c.x")].
Proof. repeat constructor. Qed.

Example Dir_table :
  Forall (fun io => path.Dir io.1 = io.2)
    [("", "."); (".", "."); ("/.", "/"); ("/", "/"); ("////", "/"); ("/foo", "/");
     ("x/", "x"); ("abc", "."); ("abc/def", "abc"); ("abc////def", "abc");
     ("a/b/.x", "a/b"); ("a/b/c.", "a/b"); ("a/b/c.x", "a/b")].
Proof. repeat constructor. Qed.

Example Itoa_examples :
  Itoa 0 = "0" /\ Itoa 1 = "1" /\ Itoa 12 = "12" /\ Itoa (-3) = "-3".
Proof. repeat split. Qed.

Section PathFacts.

Import path.

Lemma copy_elem_length p out : length (fst (copy_elem p out)) ≤ length p.
Proof.
  revert out. induction p as [|c p IH]; intros out; simpl; [lia|].
  destruct (Ascii.eqb c slash); simpl; [lia|].
  specialize (IH (out ++ [c])). lia.
Qed.

(** The loop of [Clean] never needs more iterations than bytes are left. *)
Lemma clean_loop_fuel f1 f2 rooted p out dotdot :
  length p ≤ f1 → length p ≤ f2 →
  clean_loop f1 rooted p out dotdot = clean_loop f2 rooted p out dotdot.
Proof.
  revert f2 p out dotdot.
  induction f1 as [|f1 IH]; intros f2 p out dotdot H1 H2.
  { destruct p; simpl in H1; [|lia]. destruct f2; reflexivity. }
  destruct p as [|c p1]; [destruct f2; reflexivity|].
  destruct f2 as [|f2]; [simpl in H2; lia|].
  simpl in H1, H2. simpl.
  destruct (Ascii.eqb c slash); [apply IH; lia|].
  destruct (Ascii.eqb c dot && at_elem_end p1); [apply IH; lia|].
  assert (Ht : length (tail p1) ≤ length p1) by (destruct p1; simpl; lia).
  match goal with |- context [if ?b then _ else _] => destruct b end.
  { destruct (dotdot <? length out)%nat; [apply IH; lia|].
    destruct (negb rooted); apply IH; lia. }
  match goal with |- context [copy_elem p1 ?o] =>
    pose proof (copy_elem_length p1 o) as Hc; destruct (copy_elem p1 o) as [p' out2]
  end.
  simpl in Hc. apply IH; lia.
Qed.

End PathFacts.

Section CleanPaths.

Import path.

Abbreviation L := list_ascii_of_string.

Lemma L_app s t : L (s +:+ t) = L s ++ L t.
Proof. induction s as [|c s IH]; simpl; [reflexivity|]. by rewrite IH. Qed.

Lemma L_inj s t : L s = L t → s = t.
Proof.
  intros H. rewrite <- (string_of_list_ascii_of_string s),
    <- (string_of_list_ascii_of_string t). by rewrite H.
Qed.

Lemma plain_name_seg s : plain_name s = true → seg (L s).
Proof.
  unfold plain_name. rewrite !andb_true_iff, !negb_true_iff, !String.eqb_neq.
  intros [[[H0 H1] H2] H3]. repeat split.
  - intros E. apply H0, L_inj. by rewrite E.
  - rewrite forallb_forall in H3. apply Forall_forall. intros c Hc.
    apply list_elem_of_In, H3 in Hc. by apply negb_true_iff.
  - intros E. apply H1, L_inj. by rewrite E.
  - intros E. apply H2, L_inj. by rewrite E.
Qed.

Lemma copy_elem_seg l rest out :
  Forall (fun c => Ascii.eqb c slash = false) l → at_elem_end rest = true →
  copy_elem (l ++ rest) out = (rest, out ++ l).
Proof.
  intros Hl Hr. revert out.
  induction Hl as [|c l Hc _ IH]; intros out; simpl.
  - rewrite app_nil_r. destruct rest as [|d rest]; [reflexivity|].
    simpl in Hr. simpl. by rewrite Hr.
  - rewrite Hc, IH. by rewrite <- app_assoc.
Qed.

(** One iteration on a plain name copies it to the output. *)
Lemma clean_loop_seg fuel rooted l rest out dotdot :
  seg l → at_elem_end rest = true →
  clean_loop (S fuel) rooted (l ++ rest) out dotdot =
  clean_loop fuel rooted rest (sep rooted out ++ l) dotdot.
Proof.
  intros (Hne & Hs & Hd1 & Hd2) Hr.
  destruct l as [|c l']; [done|].
  pose proof (Forall_inv Hs) as Hc. pose proof (Forall_inv_tail Hs) as Hs'.
  change (clean_loop (S fuel) rooted ((c :: l') ++ rest) out dotdot) with
    (if Ascii.eqb c slash then clean_loop fuel rooted (l' ++ rest) out dotdot
     else if Ascii.eqb c dot && at_elem_end (l' ++ rest)
     then clean_loop fuel rooted (l' ++ rest) out dotdot
     else if Ascii.eqb c dot &&
             match l' ++ rest with
             | d :: p2 => Ascii.eqb d dot && at_elem_end p2
             | [] => false
             end
     then
       let p2 := tail (l' ++ rest) in
       if (dotdot <? length out)%nat
       then clean_loop fuel rooted p2 (backtrack out dotdot) dotdot
       else if negb rooted
       then
         let out1 := if (0 <? length out)%nat then out ++ [slash] else out in
         let out2 := out1 ++ [dot; dot] in
         clean_loop fuel rooted p2 out2 (length out2)
       else clean_loop fuel rooted p2 out dotdot
     else
       let '(p', out2) := copy_elem ((c :: l') ++ rest) (sep rooted out) in
       clean_loop fuel rooted p' out2 dotdot).
  rewrite Hc.
  assert (E1 : Ascii.eqb c dot && at_elem_end (l' ++ rest) = false).
  { destruct (Ascii.eqb_spec c dot) as [->|]; [|done].
    destruct l' as [|d l'']; [done|]. simpl. apply (Forall_inv Hs'). }
  rewrite E1.
  assert (E2 : Ascii.eqb c dot &&
               match l' ++ rest with
               | d :: p2 => Ascii.eqb d dot && at_elem_end p2
               | [] => false
               end = false).
  { destruct (Ascii.eqb_spec c dot) as [->|]; [|done].
    destruct l' as [|d l'']; [done|]. simpl.
    destruct (Ascii.eqb_spec d dot) as [->|]; [|done].
    destruct l'' as [|e l3]; [done|]. simpl.
    apply (Forall_inv (Forall_inv_tail Hs')). }
  rewrite E2.
  by rewrite (copy_elem_seg (c :: l') rest _ Hs Hr).
Qed.

Lemma tail_bytes_end ls : at_elem_end (tail_bytes ls) = true.
Proof. destruct ls; reflexivity. Qed.

Lemma clean_loop_tail fuel (rooted : bool) ls (out : list ascii) dotdot :
  Forall seg ls → (if rooted then 2 else 1) ≤ length out →
  length (tail_bytes ls) ≤ fuel →
  clean_loop fuel rooted (tail_bytes ls) out dotdot = out ++ tail_bytes ls.
Proof.
  intros Hls. revert fuel out.
  induction Hls as [|l ls Hl _ IH]; intros fuel out Hout Hf.
  { simpl. rewrite app_nil_r. destruct fuel; reflexivity. }
  unfold tail_bytes in *. simpl in *. rewrite length_app in Hf.
  destruct fuel as [|fuel]; [lia|].
  change (clean_loop (S fuel) rooted (slash :: l ++ concat (map (cons slash) ls)) out dotdot)
    with (clean_loop fuel rooted (l ++ concat (map (cons slash) ls)) out dotdot).
  assert (Hl' := Hl). destruct Hl' as (Hne & _).
  destruct l as [|c l']; [done|]. simpl in Hf.
  destruct fuel as [|fuel]; [lia|].
  rewrite clean_loop_seg; [|done|apply (tail_bytes_end ls)].
  assert (Es : sep rooted out = out ++ [slash]).
  { unfold sep. destruct rooted, out as [|a [|b out']]; simpl in Hout; try lia;
      reflexivity. }
  rewrite Es, IH.
  - by rewrite <- !app_assoc.
  - rewrite !length_app. simpl. destruct rooted; lia.
  - simpl. lia.
Qed.

Lemma L_strings_Join names :
  names ≠ [] →
  L (strings_Join names "/") =
  L (hd "" names) ++ tail_bytes (map L (tail names)).
Proof.
  induction names as [|n names IH]; [done|]. intros _.
  destruct names as [|m names].
  { simpl. by rewrite app_nil_r. }
  change (strings_Join (n :: m :: names) "/") with
    (n +:+ "/" +:+ strings_Join (m :: names) "/").
  rewrite !L_app, IH by done. reflexivity.
Qed.

(** The loop of [Clean] reproduces the bytes of a path in clean form. *)
Lemma clean_loop_fixed (rooted : bool) l ls :
  seg l → Forall seg ls →
  let p := (if rooted then [slash] else []) ++ l ++ tail_bytes ls in
  (if rooted then clean_loop (length p) true (tail p) [slash] 1
   else clean_loop (length p) false p [] 0) = p.
Proof.
  intros Hl Hls p. subst p.
  assert (Hne : l ≠ []) by apply Hl.
  destruct rooted; simpl app; simpl tail.
  - rewrite (clean_loop_fuel _ (S (length (l ++ tail_bytes ls))))
      by (simpl; lia).
    rewrite clean_loop_seg by (done || apply tail_bytes_end).
    rewrite clean_loop_tail; [by rewrite <- app_assoc | done | |].
    + rewrite length_app. destruct l; [done|]. simpl. lia.
    + rewrite length_app. lia.
  - rewrite (clean_loop_fuel _ (S (length (l ++ tail_bytes ls))))
      by (simpl; lia).
    rewrite clean_loop_seg by (done || apply tail_bytes_end).
    rewrite clean_loop_tail; [done | done | |].
    + destruct l; [done|]. simpl. lia.
    + rewrite length_app. lia.
Qed.

(** A path in clean form is a fixed point of [Clean]. *)
Lemma Clean_dir_path rooted names :
  names ≠ [] → Forall (fun n => plain_name n = true) names →
  Clean (dir_path rooted names) = dir_path rooted names.
Proof.
  intros Hne Hall.
  destruct names as [|n names]; [done|].
  pose proof (plain_name_seg n (Forall_inv Hall)) as Hn.
  assert (Hrest : Forall seg (map L names)).
  { apply Forall_map. eapply Forall_impl; [apply (Forall_inv_tail Hall)|].
    intros x Hx. by apply plain_name_seg. }
  assert (EL : L (dir_path rooted (n :: names)) =
               (if rooted then [slash] else []) ++ L n ++ tail_bytes (map L names)).
  { unfold dir_path. rewrite L_app, L_strings_Join by done. by destruct rooted. }
  pose proof (clean_loop_fixed rooted (L n) (map L names) Hn Hrest) as Hfix.
  cbv zeta in Hfix. rewrite <- EL in Hfix.
  unfold Clean.
  destruct (String.eqb_spec (dir_path rooted (n :: names)) "") as [E|_].
  { exfalso. rewrite E in EL. destruct Hn as (Hn0 & _).
    destruct rooted, (L n); simpl in EL; congruence. }
  cbv zeta.
  assert (Er : match L (dir_path rooted (n :: names)) with
               | c :: _ => Ascii.eqb c slash
               | [] => false
               end = rooted).
  { rewrite EL. destruct Hn as (Hn0 & Hns & _).
    destruct rooted; [reflexivity|]. simpl.
    destruct (L n) as [|c l']; [done|]. apply (Forall_inv Hns). }
  rewrite Er.
  assert (Eo : (if rooted
                then clean_loop (length (L (dir_path rooted (n :: names)))) true
                       (tail (L (dir_path rooted (n :: names)))) [slash] 1
                else clean_loop (length (L (dir_path rooted (n :: names)))) false
                       (L (dir_path rooted (n :: names))) [] 0) =
               L (dir_path rooted (n :: names))).
  { destruct rooted; exact Hfix. }
  destruct rooted; rewrite Eo.
  all: destruct (L (dir_path _ (n :: names))) as [|c0 l0] eqn:E0;
    [destruct Hn as (Hn0 & _); destruct (L n); simpl in EL; congruence|].
  all: simpl length; cbv iota beta; rewrite <- E0;
    apply string_of_list_ascii_of_string.
Qed.

End CleanPaths.

Section PathNaming.

Import path.

Lemma strings_Join_app (l1 l2 : list string) :
  l1 ≠ [] → l2 ≠ [] →
  strings_Join (l1 ++ l2) "/" =
  strings_Join l1 "/" +:+ "/" +:+ strings_Join l2 "/".
Proof.
  intros H1 H2. induction l1 as [|a l1 IH]; [done|].
  destruct l1 as [|b l1].
  - destruct l2; [done|]. reflexivity.
  - change (strings_Join ((a :: b :: l1) ++ l2) "/") with
      (a +:+ "/" +:+ strings_Join ((b :: l1) ++ l2) "/").
    rewrite IH by done.
    change (strings_Join (a :: b :: l1) "/") with
      (a +:+ "/" +:+ strings_Join (b :: l1) "/").
    apply L_inj. rewrite !L_app, <- !app_assoc. reflexivity.
Qed.

Lemma dir_path_nonempty rooted names :
  names ≠ [] → Forall (fun n => plain_name n = true) names →
  dir_path rooted names ≠ "".
Proof.
  intros Hne Hall E. destruct names as [|n names]; [done|].
  apply (f_equal list_ascii_of_string) in E.
  unfold dir_path in E. rewrite L_app, L_strings_Join in E by done.
  destruct (plain_name_seg n (Forall_inv Hall)) as (Hn & _).
  simpl in E. destruct rooted, (list_ascii_of_string n); simpl in E; congruence.
Qed.

(** Joining a clean root with plain names appends them, slash-separated. *)
Lemma Join_dir_path rooted names more :
  names ≠ [] → Forall (fun n => plain_name n = true) names →
  more ≠ [] → Forall (fun n => plain_name n = true) more →
  Join (dir_path rooted names :: more) =
  dir_path rooted names +:+ "/" +:+ strings_Join more "/".
Proof.
  intros Hne Hall Hm Hmall.
  assert (E : strings_Join (dir_path rooted names :: more) "/" =
              dir_path rooted (names ++ more)).
  { destruct more as [|m more]; [done|].
    change (strings_Join (dir_path rooted names :: m :: more) "/") with
      (dir_path rooted names +:+ "/" +:+ strings_Join (m :: more) "/").
    unfold dir_path. rewrite strings_Join_app by done.
    apply L_inj. rewrite !L_app, <- !app_assoc. reflexivity. }
  unfold Join.
  destruct (String.eqb_spec (dir_path rooted names) "") as [E0|_].
  { by apply dir_path_nonempty in E0. }
  rewrite E, Clean_dir_path.
  - unfold dir_path. rewrite strings_Join_app by done.
    apply L_inj. rewrite !L_app, <- !app_assoc. reflexivity.
  - by destruct names.
  - by apply Forall_app.
Qed.

End PathNaming.

(** With a non-empty first component [path.Join] is [path.Clean] of the
    components joined by slashes. *)
Lemma Join_nonempty_root (rootDir : string) (more : list string) :
  rootDir ≠ "" →
  path.Join (rootDir :: more) = path.Clean (path.strings_Join (rootDir :: more) "/").
Proof.
  intros Hne. cbn [path.Join]. by rewrite (proj2 (String.eqb_neq _ _) Hne).
Qed.

(** C1 (as amended).  For every identity with a non-empty root directory,
    [EmptyDirectory.GetPath] is [rootDir/podID/volumes/empty/name] in cleaned
    form ([path.Clean] of that string), [GCEPersistentDisk.GetPath] is
    [rootDir/podID/volumes/gce-pd/name] in cleaned form whatever the provider
    attributes and capability handles of the disk are, and the global mount
    path is [rootDir/global/pd/<externalDiskName>] in cleaned form.  For an
    identity in clean form -- the root directory a clean path of one or more
    plain names, the other components plain names -- the three are exactly
    these strings.  They are functions of their arguments alone: they make no
    call. *)
Theorem GetPath_of_clean_identity :
  (∀ rootDir podID name,
     rootDir ≠ "" →
     EmptyDirectory_GetPath (mkEmptyDirectory name podID rootDir) =
       path.Clean (rootDir +:+ "/" +:+ podID +:+ "/volumes/empty/" +:+ name) ∧
     (∀ PDName FSType Partition ReadOnly util mnt,
        GCEPersistentDisk_GetPath
          (mkGCEPersistentDisk name podID rootDir PDName FSType Partition
                               ReadOnly util mnt) =
        path.Clean (rootDir +:+ "/" +:+ podID +:+ "/volumes/gce-pd/" +:+ name)) ∧
     (∀ externalDiskName,
        makeGlobalPDName rootDir externalDiskName =
        path.Clean (rootDir +:+ "/global/pd/" +:+ externalDiskName))) ∧
  (∀ (rooted : bool) (dirs : list string) (podID name : string),
     dirs ≠ [] → Forall (fun n => plain_name n = true) dirs →
     plain_name podID = true → plain_name name = true →
     let rootDir := dir_path rooted dirs in
     EmptyDirectory_GetPath (mkEmptyDirectory name podID rootDir) =
       rootDir +:+ "/" +:+ podID +:+ "/volumes/empty/" +:+ name ∧
     (∀ PDName FSType Partition ReadOnly util mnt,
        GCEPersistentDisk_GetPath
          (mkGCEPersistentDisk name podID rootDir PDName FSType Partition
                               ReadOnly util mnt) =
        rootDir +:+ "/" +:+ podID +:+ "/volumes/gce-pd/" +:+ name) ∧
     (∀ externalDiskName,
        plain_name externalDiskName = true →
        makeGlobalPDName rootDir externalDiskName =
        rootDir +:+ "/global/pd/" +:+ externalDiskName)).
Proof.
  split.
  - intros rootDir podID name Hne.
    unfold EmptyDirectory_GetPath, GCEPersistentDisk_GetPath, makeGlobalPDName.
    cbn [EmptyDirectory_RootDir EmptyDirectory_PodID EmptyDirectory_Name
         GCEPersistentDisk_RootDir GCEPersistentDisk_PodID
         GCEPersistentDisk_Name].
    repeat split; intros; rewrite Join_nonempty_root by done; f_equal;
      cbn [path.strings_Join]; apply L_inj; rewrite !L_app, <- ?app_assoc;
      reflexivity.
  - intros rooted dirs podID name Hne Hall Hp Hn rootDir. subst rootDir.
    unfold EmptyDirectory_GetPath, GCEPersistentDisk_GetPath, makeGlobalPDName.
    cbn [EmptyDirectory_RootDir EmptyDirectory_PodID EmptyDirectory_Name
         GCEPersistentDisk_RootDir GCEPersistentDisk_PodID
         GCEPersistentDisk_Name].
    repeat split; intros; rewrite Join_dir_path; try done;
      try (repeat constructor; done).
    all: apply L_inj; rewrite !L_app, <- ?app_assoc; reflexivity.
Qed.

Lemma GetPath_of_clean_identity_witness :
  EmptyDirectory_GetPath (mkEmptyDirectory "cache" "pod-A" "/var/lib/kubelet") =
    "/var/lib/kubelet/pod-A/volumes/empty/cache" ∧
  GCEPersistentDisk_GetPath
    (mkGCEPersistentDisk "cache" "pod-A" "/var/lib/kubelet" "disk-1" "ext4" ""
                         true GCEDiskUtil DiskMounter) =
    "/var/lib/kubelet/pod-A/volumes/gce-pd/cache" ∧
  makeGlobalPDName "/var/lib/kubelet" "disk-1" =
    "/var/lib/kubelet/global/pd/disk-1" ∧
  EmptyDirectory_GetPath (mkEmptyDirectory "cache" "pod-A" "/var/lib/kubelet/") =
    path.Clean "/var/lib/kubelet//pod-A/volumes/empty/cache".
Proof.
  destruct GetPath_of_clean_identity as [Hany Hclean].
  destruct (Hclean true ["var"; "lib"; "kubelet"] "pod-A" "cache")
    as (H1 & H2 & H3); [done | repeat constructor | reflexivity | reflexivity |].
  destruct (Hany "/var/lib/kubelet/" "pod-A" "cache") as (H4 & _);
    [discriminate|].
  exact (conj H1 (conj (H2 "disk-1" "ext4" "" true GCEDiskUtil DiskMounter)
                       (conj (H3 "disk-1" eq_refl) H4))).
Defined.

(** C1 as it is written fails where a component is empty or not in clean
    form: [path.Join] drops empty components and cleans the result. *)
Lemma GetPath_not_concatenation :
  EmptyDirectory_GetPath (mkEmptyDirectory "cache" "pod-A" "") =
    "pod-A/volumes/empty/cache" ∧
  EmptyDirectory_GetPath (mkEmptyDirectory "cache" "pod-A" "") ≠
    "" +:+ "/" +:+ "pod-A" +:+ "/volumes/empty/" +:+ "cache" ∧
  GCEPersistentDisk_GetPath
    (mkGCEPersistentDisk "data" "pod-B" "/var/lib/kubelet/" "" "" "" false
                         GCEDiskUtil DiskMounter) ≠
    "/var/lib/kubelet/" +:+ "/" +:+ "pod-B" +:+ "/volumes/gce-pd/" +:+ "data" ∧
  makeGlobalPDName "/var/lib/kubelet" "" ≠
    "/var/lib/kubelet" +:+ "/global/pd/" +:+ "".
Proof. repeat split; discriminate. Qed.
(** ** Running programs *)

Section Running.

Context {W : Type} (h : Handler W).

Lemma run_Vis {A X : Type} (c : Call X) (k : X → Prog A) (w : W) :
  run h (Vis c k) w =
  (result (run h (k (answer h c w)) (after h c w)),
   final (run h (k (answer h c w)) (after h c w)),
   Ev c (answer h c w) :: trace (run h (k (answer h c w)) (after h c w))).
Proof.
  unfold answer, after, result, final, trace. simpl.
  destruct (h X c w) as [x w1]. simpl.
  by destruct (run h (k x) w1) as [[a w2] tr].
Qed.

Lemma run_bind {A B : Type} (p : Prog A) (f : A → Prog B) (w : W) :
  run h (bind p f) w =
  (result (run h (f (result (run h p w))) (final (run h p w))),
   final (run h (f (result (run h p w))) (final (run h p w))),
   trace (run h p w) ++
   trace (run h (f (result (run h p w))) (final (run h p w)))).
Proof.
  revert w. induction p as [a|X c k IH]; intros w.
  - unfold result, final, trace. simpl.
    by destruct (run h (f a) w) as [[b w2] tr].
  - change (bind (Vis c k) f) with (Vis c (fun x => bind (k x) f)).
    rewrite !run_Vis, IH. reflexivity.
Qed.

Lemma run_Ret {A : Type} (a : A) (w : W) : run h (Ret a) w = (a, w, []).
Proof. reflexivity. Qed.

End Running.

(** ** Persistent disk: the order of the calls *)

Section DiskSteps.

Context {W : Type} (h : Handler W).

(** Every run of [TearDown], by the answers it gets. *)
Lemma GCEPersistentDisk_TearDown_run (PD : GCEPersistentDisk) (w : W) :
  let p := GCEPersistentDisk_GetPath PD in
  let m := GCEPersistentDisk_mounter PD in
  let u := GCEPersistentDisk_util PD in
  let q := MounterRefCount m PD in
  let w1 := after h q w in
  let un := MounterUnmount m p 0 in
  let w2 := after h un w1 in
  let rm := OsRemoveAll p in
  let w3 := after h rm w2 in
  let de := UtilDetachDisk u PD (answer h q w).1.1 in
  run h (GCEPersistentDisk_TearDown PD) w =
  match (answer h q w).2 with
  | Some e => (Some e, w1, [Ev q (answer h q w)])
  | None =>
      match answer h un w1 with
      | Some e => (Some e, w2, [Ev q (answer h q w); Ev un (Some e)])
      | None =>
          match answer h rm w2 with
          | Some e =>
              (Some e, w3, [Ev q (answer h q w); Ev un None; Ev rm (Some e)])
          | None =>
              if (int_wrap ((answer h q w).1.2 - 1) =? 1)%Z then
                (answer h de w3, after h de w3,
                 [Ev q (answer h q w); Ev un None; Ev rm None;
                  Ev de (answer h de w3)])
              else (None, w3, [Ev q (answer h q w); Ev un None; Ev rm None])
          end
      end
  end.
Proof.
  intros p m u q w1 un w2 rm w3 de.
  unfold GCEPersistentDisk_TearDown.
  unfold mbind, Prog_bind, call. cbn [bind]. rewrite run_Vis. fold m q w1.
  destruct (answer h q w) as [[devicePath refCount] [e|]] eqn:Eq; cbn [fst snd].
  { reflexivity. }
  cbn [bind]. rewrite run_Vis. fold p m un w2.
  destruct (answer h un w1) as [e|] eqn:Eu; [reflexivity|].
  cbn [bind]. rewrite run_Vis. fold rm w3.
  destruct (answer h rm w2) as [e|] eqn:Er; [reflexivity|].
  destruct (int_wrap (refCount - 1) =? 1)%Z eqn:Ec; [|reflexivity].
  cbn [bind]. rewrite run_Vis. subst de. cbn [fst snd]. fold u.
  by destruct (answer h (UtilDetachDisk u PD devicePath) w3).
Qed.


(** Every run of [SetUp] that finds the canonical path missing, by the
    answers it gets. *)
Lemma GCEPersistentDisk_SetUp_run (MOUNT_MS_BIND MOUNT_MS_RDONLY : Z)
    (PD : GCEPersistentDisk) (w : W) :
  let p := GCEPersistentDisk_GetPath PD in
  let st := OsStat p in
  let w1 := after h st w in
  let at_ := UtilAttachDisk (GCEPersistentDisk_util PD) PD in
  let w2 := after h at_ w1 in
  let w3 := after h st w2 in
  let mk := OsMkdirAll p mode_0750 in
  let w4 := after h mk w3 in
  let flags := Z.lor MOUNT_MS_BIND
                 (if GCEPersistentDisk_ReadOnly PD then MOUNT_MS_RDONLY else 0) in
  let mt := MounterMount (GCEPersistentDisk_mounter PD)
              (makeGlobalPDName (GCEPersistentDisk_RootDir PD)
                                (GCEPersistentDisk_PDName PD)) p "" flags "" in
  let w5 := after h mt w4 in
  let rm := OsRemoveAll p in
  run h (GCEPersistentDisk_SetUp MOUNT_MS_BIND MOUNT_MS_RDONLY PD) w =
  if negb (IsNotExist (answer h st w)) then (None, w1, [Ev st (answer h st w)])
  else
    match answer h at_ w1 with
    | Some e => (Some e, w2, [Ev st (answer h st w); Ev at_ (Some e)])
    | None =>
        if IsNotExist (answer h st w2) then
          match answer h mk w3 with
          | Some e =>
              (Some e, w4,
               [Ev st (answer h st w); Ev at_ None; Ev st (answer h st w2);
                Ev mk (Some e)])
          | None =>
              match answer h mt w4 with
              | Some e =>
                  (Some e, after h rm w5,
                   [Ev st (answer h st w); Ev at_ None; Ev st (answer h st w2);
                    Ev mk None; Ev mt (Some e); Ev rm (answer h rm w5)])
              | None =>
                  (None, w5,
                   [Ev st (answer h st w); Ev at_ None; Ev st (answer h st w2);
                    Ev mk None; Ev mt None])
              end
          end
        else
          (None, w3, [Ev st (answer h st w); Ev at_ None; Ev st (answer h st w2)])
    end.
Proof.
  intros p st w1 at_ w2 w3 mk w4 flags mt w5 rm.
  unfold GCEPersistentDisk_SetUp.
  unfold mbind, Prog_bind, call. cbn [bind]. rewrite run_Vis. fold p st w1.
  destruct (IsNotExist (answer h st w)); [|reflexivity].
  cbn [negb bind]. rewrite run_Vis. fold at_ w2.
  destruct (answer h at_ w1) as [e|]; [reflexivity|].
  cbn [bind]. rewrite run_Vis. fold w3.
  destruct (IsNotExist (answer h st w2)); [|reflexivity].
  cbn [bind]. rewrite run_Vis. fold mk w4.
  destruct (answer h mk w3) as [e|]; [reflexivity|].
  cbn [bind]. rewrite run_Vis. fold flags mt w5.
  destruct (answer h mt w4) as [e|]; [|reflexivity].
  cbn [bind]. rewrite run_Vis. reflexivity.
Qed.

End DiskSteps.

Lemma int_wrap_small (z : Z) :
  (- 2 ^ 63 ≤ z < 2 ^ 63)%Z → int_wrap z = z.
Proof.
  intros Hz. unfold int_wrap. rewrite Z.mod_small; lia.
Qed.

(** Decrementing a count in the range of [int] gives 1 exactly from 2. *)
Lemma int_dec_is_1 (n : Z) :
  (- 2 ^ 63 ≤ n < 2 ^ 63)%Z → int_wrap (n - 1) = 1%Z ↔ n = 2%Z.
Proof.
  intros Hn. destruct (decide (n = - 2 ^ 63)%Z) as [->|Hne].
  { split; [|lia]. vm_compute. discriminate. }
  rewrite int_wrap_small by lia. lia.
Qed.

(** The decrement in [TearDown] compares with 1, so the threshold of the
    observed count is 2. *)
Lemma GCEPersistentDisk_TearDown_detaches {W : Type} (h : Handler W)
    (PD : GCEPersistentDisk) (w : W) :
  let p := GCEPersistentDisk_GetPath PD in
  let m := GCEPersistentDisk_mounter PD in
  let q := MounterRefCount m PD in
  let w1 := after h q w in
  let w2 := after h (MounterUnmount m p 0) w1 in
  called is_DetachDisk (trace (run h (GCEPersistentDisk_TearDown PD) w)) =
  bool_decide ((answer h q w).2 = None) &&
  bool_decide (answer h (MounterUnmount m p 0) w1 = None) &&
  bool_decide (answer h (OsRemoveAll p) w2 = None) &&
  (int_wrap ((answer h q w).1.2 - 1) =? 1)%Z.
Proof.
  intros p m q w1 w2. rewrite GCEPersistentDisk_TearDown_run. fold p m q w1 w2.
  destruct (answer h q w).2; [reflexivity|].
  destruct (answer h (MounterUnmount m p 0) w1); [reflexivity|].
  destruct (answer h (OsRemoveAll p) w2); [reflexivity|].
  by destruct (int_wrap _ =? 1)%Z.
Qed.

(** C2 (as amended).  [GCEPersistentDisk.TearDown] first queries the
    mounter's RefCount for the device path and the reference count of the
    volume, and an error of the query is returned with no further call;
    with that answer it unmounts the canonical per-pod path, and a failing
    unmount is returned with no further call (no removal, no DetachDisk);
    otherwise it removes the canonical per-pod directory, and a failing
    removal is returned with no further call (no DetachDisk); otherwise it
    calls DetachDisk, on the device path of the query, and returns its
    answer when the decremented count is 1, and returns success with no
    further call when it is not.  So DetachDisk is called exactly when the
    query, the unmount and the removal succeeded and the decremented count
    is 1, which for a count in the range of [int] is an observed count
    of 2. *)
Theorem GCEPersistentDisk_TearDown_steps {W : Type} (h : Handler W)
    (PD : GCEPersistentDisk) (w : W) :
  let p := GCEPersistentDisk_GetPath PD in
  let m := GCEPersistentDisk_mounter PD in
  let q := MounterRefCount m PD in
  let devicePath := (answer h q w).1.1 in
  let refCount := (answer h q w).1.2 in
  let w1 := after h q w in
  let un := MounterUnmount m p 0 in
  let w2 := after h un w1 in
  let rm := OsRemoveAll p in
  let w3 := after h rm w2 in
  let de := UtilDetachDisk (GCEPersistentDisk_util PD) PD devicePath in
  let r := run h (GCEPersistentDisk_TearDown PD) w in
  (∀ e, (answer h q w).2 = Some e →
        r = (Some e, w1, [Ev q (answer h q w)])) ∧
  ((answer h q w).2 = None →
   (∀ e, answer h un w1 = Some e →
         r = (Some e, w2, [Ev q (answer h q w); Ev un (Some e)])) ∧
   (answer h un w1 = None →
    (∀ e, answer h rm w2 = Some e →
          r = (Some e, w3,
               [Ev q (answer h q w); Ev un None; Ev rm (Some e)])) ∧
    (answer h rm w2 = None →
     (int_wrap (refCount - 1) = 1%Z →
      r = (answer h de w3, after h de w3,
           [Ev q (answer h q w); Ev un None; Ev rm None;
            Ev de (answer h de w3)])) ∧
     (int_wrap (refCount - 1) ≠ 1%Z →
      r = (None, w3, [Ev q (answer h q w); Ev un None; Ev rm None]))))) ∧
  (called is_DetachDisk (trace r) = true ↔
   (answer h q w).2 = None ∧ answer h un w1 = None ∧
   answer h rm w2 = None ∧ int_wrap (refCount - 1) = 1%Z) ∧
  ((- 2 ^ 63 ≤ refCount < 2 ^ 63)%Z →
   int_wrap (refCount - 1) = 1%Z ↔ refCount = 2%Z).
Proof.
  intros p m q devicePath refCount w1 un w2 rm w3 de r.
  split; [|split; [|split]].
  - intros e He. subst r. rewrite GCEPersistentDisk_TearDown_run.
    fold p m q w1. by rewrite He.
  - intros Hq. subst r. rewrite GCEPersistentDisk_TearDown_run.
    fold p m q w1 un w2 rm w3 devicePath refCount de. rewrite Hq.
    split; [by intros e ->|]. intros ->.
    split; [by intros e ->|]. intros ->.
    split.
    + intros Hc. by rewrite (proj2 (Z.eqb_eq _ _) Hc).
    + intros Hc. by rewrite (proj2 (Z.eqb_neq _ _) Hc).
  - subst r. rewrite GCEPersistentDisk_TearDown_detaches.
    fold p m q w1 un w2 rm refCount.
    rewrite !andb_true_iff, !bool_decide_eq_true, Z.eqb_eq. tauto.
  - apply int_dec_is_1.
Qed.

(** C3 (as amended).  When the RefCount query observes count 3 (the global
    mount and two bind mounts) [TearDown] does not call DetachDisk, whatever
    the other calls answer; when it observes count 2 (the global mount and
    the last bind mount) [TearDown] calls DetachDisk, on the device path of
    the query and as its last call, once the query, the unmount and the
    removal have succeeded, and only then; when it observes count 1
    DetachDisk is not called, whatever the other calls answer. *)
Theorem GCEPersistentDisk_TearDown_threshold {W : Type} (h : Handler W)
    (PD : GCEPersistentDisk) (w : W) (devicePath : string) (refCount : Z)
    (rcErr : option error) :
  let p := GCEPersistentDisk_GetPath PD in
  let m := GCEPersistentDisk_mounter PD in
  let q := MounterRefCount m PD in
  let w1 := after h q w in
  let un := MounterUnmount m p 0 in
  let w2 := after h un w1 in
  let rm := OsRemoveAll p in
  let r := run h (GCEPersistentDisk_TearDown PD) w in
  answer h q w = (devicePath, refCount, rcErr) →
  (refCount = 3%Z → called is_DetachDisk (trace r) = false) ∧
  (refCount = 2%Z →
   (rcErr = None → answer h un w1 = None → answer h rm w2 = None →
    ∃ dErr, last (trace r) =
            Some (Ev (UtilDetachDisk (GCEPersistentDisk_util PD) PD devicePath)
                     dErr) ∧
            called is_DetachDisk (trace r) = true) ∧
   (called is_DetachDisk (trace r) = true →
    rcErr = None ∧ answer h un w1 = None ∧ answer h rm w2 = None)) ∧
  (refCount = 1%Z → called is_DetachDisk (trace r) = false).
Proof.
  intros p m q w1 un w2 rm r Hq. subst r.
  rewrite GCEPersistentDisk_TearDown_detaches. fold p m q w1 un w2 rm.
  rewrite Hq. cbn [fst snd].
  split; [|split].
  - intros ->. change (int_wrap (3 - 1) =? 1)%Z with false.
    apply andb_false_r.
  - intros ->. change (int_wrap (2 - 1) =? 1)%Z with true. split.
    + intros -> Hu Hr. rewrite GCEPersistentDisk_TearDown_run.
      fold p m q w1 un w2 rm. rewrite Hq, Hu, Hr. cbn [fst snd].
      change (int_wrap (2 - 1) =? 1)%Z with true. cbn iota.
      eexists. split; reflexivity.
    + rewrite !andb_true_iff, !bool_decide_eq_true. tauto.
  - intros ->. change (int_wrap (1 - 1) =? 1)%Z with false.
    apply andb_false_r.
Qed.


Lemma GCEPersistentDisk_TearDown_steps_witness :
  (* the last bind mount of a disk is torn down: four calls, the last one
     DetachDisk *)
  let PD := example_disk "pod-B" in
  let w := tear_down (example_disk "pod-A") two_pods_mounted in
  let p := "/var/lib/kubelet/pod-B/volumes/gce-pd/data" in
  let dev := "/dev/disk/by-id/google-disk-1" in
  run sim.handler (GCEPersistentDisk_TearDown PD) w =
  (None,
   tear_down PD w,
   [Ev (MounterRefCount DiskMounter PD) (dev, 2%Z, None);
    Ev (MounterUnmount DiskMounter p 0) None;
    Ev (OsRemoveAll p) None;
    Ev (UtilDetachDisk GCEDiskUtil PD dev) None]).
Proof.
  intros PD w p dev.
  destruct (GCEPersistentDisk_TearDown_steps sim.handler PD w)
    as (_ & Hok & _).
  destruct (Hok ltac:(vm_compute; reflexivity)) as [_ Hun].
  destruct (Hun ltac:(vm_compute; reflexivity)) as [_ Hrm].
  destruct (Hrm ltac:(vm_compute; reflexivity)) as [Hde _].
  specialize (Hde ltac:(vm_compute; reflexivity)).
  rewrite Hde. vm_compute. reflexivity.
Defined.

(** C2 as it is written fails on the exits it leaves out: when the removal
    of the directory fails, DetachDisk is not called although the
    decremented count is 1; when the RefCount query fails, nothing is
    unmounted. *)
Lemma GCEPersistentDisk_TearDown_other_exits :
  let removal_fails :=
    mkFake None None None None None (Some (Errno EBUSY)) None
           ("/dev/sdb", 2%Z, None) in
  let query_fails :=
    mkFake None None None None None None None ("", 0%Z, Some (Errno EACCES)) in
  let r := run (fake_handler removal_fails)
               (GCEPersistentDisk_TearDown (example_disk "pod-A")) tt in
  let r' := run (fake_handler query_fails)
                (GCEPersistentDisk_TearDown (example_disk "pod-A")) tt in
  int_wrap (2 - 1) = 1%Z ∧
  result r = Some (Errno EBUSY) ∧ length (trace r) = 3 ∧
  called is_DetachDisk (trace r) = false ∧
  result r' = Some (Errno EACCES) ∧ length (trace r') = 1 ∧
  called is_RemoveAll (trace r') = false.
Proof. repeat split; reflexivity. Qed.

Lemma GCEPersistentDisk_TearDown_threshold_witness :
  (* two bind mounts: the query observes 3 and the disk stays attached *)
  answer sim.handler (MounterRefCount DiskMounter (example_disk "pod-A"))
         two_pods_mounted = ("/dev/disk/by-id/google-disk-1", 3%Z, None) ∧
  called is_DetachDisk
    (trace (run sim.handler (GCEPersistentDisk_TearDown (example_disk "pod-A"))
                two_pods_mounted)) = false ∧
  (* the last bind mount: the query observes 2 and the disk is detached *)
  answer sim.handler (MounterRefCount DiskMounter (example_disk "pod-B"))
         (tear_down (example_disk "pod-A") two_pods_mounted) =
    ("/dev/disk/by-id/google-disk-1", 2%Z, None) ∧
  called is_DetachDisk
    (trace (run sim.handler (GCEPersistentDisk_TearDown (example_disk "pod-B"))
                (tear_down (example_disk "pod-A") two_pods_mounted))) = true.
Proof.
  split; [vm_compute; reflexivity|]. split.
  - exact (proj1 (GCEPersistentDisk_TearDown_threshold sim.handler
                    (example_disk "pod-A") two_pods_mounted
                    "/dev/disk/by-id/google-disk-1" 3 None
                    ltac:(vm_compute; reflexivity)) eq_refl).
  - split; [vm_compute; reflexivity|].
    destruct (proj1 (proj1 (proj2 (GCEPersistentDisk_TearDown_threshold
                sim.handler (example_disk "pod-B")
                (tear_down (example_disk "pod-A") two_pods_mounted)
                "/dev/disk/by-id/google-disk-1" 2 None
                ltac:(vm_compute; reflexivity))) eq_refl)
              eq_refl ltac:(vm_compute; reflexivity)
              ltac:(vm_compute; reflexivity)) as (dErr & _ & H).
    exact H.
Defined.

(** C3 as it is written fails: a query that observes count 2 is followed by
    DetachDisk, and one that observes count 1 is not. *)
Lemma GCEPersistentDisk_TearDown_count_2_detaches :
  answer (fake_handler (fake_count 2))
         (MounterRefCount DiskMounter (example_disk "pod-A")) tt =
    ("/dev/sdb", 2%Z, None) ∧
  called is_DetachDisk
    (trace (run (fake_handler (fake_count 2))
                (GCEPersistentDisk_TearDown (example_disk "pod-A")) tt)) = true ∧
  answer (fake_handler (fake_count 1))
         (MounterRefCount DiskMounter (example_disk "pod-A")) tt =
    ("/dev/sdb", 1%Z, None) ∧
  called is_DetachDisk
    (trace (run (fake_handler (fake_count 1))
                (GCEPersistentDisk_TearDown (example_disk "pod-A")) tt)) = false.
Proof. repeat split; reflexivity. Qed.



(** A mount that fails: the directory made for it is removed again, the
    error is returned and the disk stays attached. *)
Example GCEPersistentDisk_SetUp_rollback :
  let f := mkFake (Some (Errno ENOENT)) None None (Some (Errno EBUSY))
                  None None None ("", 0%Z, None) in
  let r := run (fake_handler f)
             (GCEPersistentDisk_SetUp linux_MS_BIND linux_MS_RDONLY
                                      (example_disk "pod-A")) tt in
  result r = Some (Errno EBUSY) ∧
  map (fun e => (is_AttachDisk e, is_MkdirAll e, is_Mount e, is_RemoveAll e,
                 is_DetachDisk e)) (trace r) =
  [(false, false, false, false, false); (true, false, false, false, false);
   (false, false, false, false, false); (false, true, false, false, false);
   (false, false, true, false, false); (false, false, false, true, false)].
Proof. split; reflexivity. Qed.

(** ** Factory *)

(** [CreateVolumeBuilder] never dereferences a nil pointer. *)
Lemma CreateVolumeBuilder_no_panic (volume : api.Volume) (podID rootDir : string) :
  is_Some (CreateVolumeBuilder volume podID rootDir).
Proof.
  unfold CreateVolumeBuilder, createHostDirectory, createGCEPersistentDisk.
  destruct volume as [name [[hd ed pd]|]]; cbn; [|eauto].
  destruct hd as [hd|]; cbn; [eauto|].
  destruct ed as [ed|]; cbn; [eauto|].
  destruct pd as [pd|]; cbn; eauto.
Qed.

(** C7.  [CreateVolumeBuilder] returns (nil, nil) when the source is unset
    and [ErrUnsupportedVolumeType], with no volume, when the source is set
    but none of its three descriptors is; [CreateVolumeCleaner] returns
    [ErrUnsupportedVolumeType], with no cleaner, for every kind other than
    "empty" and "gce-pd". *)
Theorem factory_unsupported :
  (∀ volume podID rootDir,
     api.Source volume = None →
     CreateVolumeBuilder volume podID rootDir = Some (None, None)) ∧
  (∀ volume source podID rootDir,
     api.Source volume = Some source →
     api.VolumeSource_HostDirectory source = None →
     api.VolumeSource_EmptyDirectory source = None →
     api.VolumeSource_GCEPersistentDisk source = None →
     CreateVolumeBuilder volume podID rootDir =
     Some (None, Some ErrUnsupportedVolumeType)) ∧
  (∀ kind name podID rootDir,
     kind ≠ "empty" → kind ≠ "gce-pd" →
     CreateVolumeCleaner kind name podID rootDir =
     (None, Some ErrUnsupportedVolumeType)).
Proof.
  split; [|split].
  - intros volume podID rootDir H. unfold CreateVolumeBuilder. by rewrite H.
  - intros volume source podID rootDir H Hh He Hg.
    unfold CreateVolumeBuilder. by rewrite H, Hh, He, Hg.
  - intros kind name podID rootDir He Hg. unfold CreateVolumeCleaner.
    by rewrite (proj2 (String.eqb_neq _ _) He), (proj2 (String.eqb_neq _ _) Hg).
Qed.

Lemma factory_unsupported_witness :
  CreateVolumeBuilder (api.mkVolume "v" None) "pod-C" "/var/lib/kubelet" =
    Some (None, None) ∧
  CreateVolumeBuilder
    (api.mkVolume "v" (Some (api.mkVolumeSource None None None)))
    "pod-C" "/var/lib/kubelet" = Some (None, Some ErrUnsupportedVolumeType) ∧
  CreateVolumeCleaner "host" "x" "pod-C" "/var/lib/kubelet" =
    (None, Some ErrUnsupportedVolumeType).
Proof.
  destruct factory_unsupported as (H1 & H2 & H3).
  split; [exact (H1 (api.mkVolume "v" None) _ _ eq_refl)|].
  split; [exact (H2 (api.mkVolume "v" (Some (api.mkVolumeSource None None None)))
                    _ _ _ eq_refl eq_refl eq_refl eq_refl)|].
  exact (H3 "host" "x" "pod-C" "/var/lib/kubelet"
            ltac:(discriminate) ltac:(discriminate)).
Defined.

(** The factory results the other way round: a set descriptor gives a
    builder, the first of host directory, empty directory, persistent disk;
    the two known kinds give a cleaner. *)
Lemma CreateVolumeBuilder_supported volume source podID rootDir :
  api.Source volume = Some source →
  (api.VolumeSource_HostDirectory source ≠ None ∨
   api.VolumeSource_EmptyDirectory source ≠ None ∨
   api.VolumeSource_GCEPersistentDisk source ≠ None) →
  ∃ b, CreateVolumeBuilder volume podID rootDir = Some (Some b, None).
Proof.
  destruct volume as [name src]. cbn. intros -> Hset.
  unfold CreateVolumeBuilder, createHostDirectory, createGCEPersistentDisk.
  destruct source as [hd ed pd]; cbn in *.
  destruct hd as [hd|]; cbn; [eauto|].
  destruct ed as [ed|]; cbn; [eauto|].
  destruct pd as [pd|]; cbn; [eauto|].
  by destruct Hset as [?|[?|?]].
Qed.

Lemma CreateVolumeCleaner_supported kind name podID rootDir :
  kind = "empty" ∨ kind = "gce-pd" →
  ∃ c, CreateVolumeCleaner kind name podID rootDir = (Some c, None).
Proof. intros [->| ->]; cbn; eauto. Qed.

(** ** Host directories *)

(** C9 (as amended).  [HostDirectory.SetUp] makes no call, returns success
    and leaves the world as it is, under every handler; [GetPath] returns the
    path it was given; the type has no [TearDown] method, and
    [CreateVolumeCleaner] makes cleaners for the kinds "empty" and "gce-pd"
    only. *)
Theorem HostDirectory_is_a_builder_only :
  (∀ (W : Type) (h : Handler W) (w : W) (hostVol : HostDirectory),
     run h (HostDirectory_SetUp hostVol) w = (None, w, [])) ∧
  (∀ path : string, HostDirectory_GetPath (mkHostDirectory path) = path) ∧
  (∀ hostVol : HostDirectory, method_TearDown (VHostDirectory hostVol) = None) ∧
  (∀ kind name podID rootDir c,
     (CreateVolumeCleaner kind name podID rootDir).1 = Some c →
     kind = "empty" ∨ kind = "gce-pd").
Proof.
  repeat split; try reflexivity.
  intros kind name podID rootDir c. unfold CreateVolumeCleaner.
  destruct (String.eqb_spec kind "empty"); [by left|].
  destruct (String.eqb_spec kind "gce-pd"); [by right|done].
Qed.

Lemma HostDirectory_is_a_builder_only_witness :
  run sim.handler (HostDirectory_SetUp (mkHostDirectory "/data")) example_host =
    (None, example_host, []) ∧
  ("empty" = "empty" ∨ "empty" = "gce-pd").
Proof.
  destruct HostDirectory_is_a_builder_only as (H1 & _ & _ & H4).
  split; [exact (H1 _ sim.handler example_host (mkHostDirectory "/data"))|].
  exact (H4 "empty" "cache" "pod-A" "/var/lib/kubelet"
            (CleanerEmptyDirectory example_empty) eq_refl).
Defined.

(** C9 as it is written fails: there is no [HostDirectory.TearDown] to call,
    and asking the factory for a cleaner of a host directory is an error. *)
Lemma HostDirectory_has_no_TearDown :
  method_TearDown (VHostDirectory (mkHostDirectory "/data")) = None ∧
  ¬ (∃ tearDown, method_TearDown (VHostDirectory (mkHostDirectory "/data")) =
                 Some tearDown) ∧
  is_Some (method_SetUp linux_MS_BIND linux_MS_RDONLY
             (VHostDirectory (mkHostDirectory "/data"))) ∧
  CreateVolumeCleaner "host" "data" "pod-A" "/var/lib/kubelet" =
    (None, Some ErrUnsupportedVolumeType).
Proof.
  split; [reflexivity|]. split; [by intros [? ?]|]. split; [by eexists|].
  reflexivity.
Qed.

(** The older package: [Mount] and [UnMount] of a host directory volume make
    no call and change nothing. *)
Lemma HostDirectoryVolume_noop {W : Type} (h : Handler W) (w : W)
    (hostVol : volumes.HostDirectoryVolume) :
  run h (volumes.Mount hostVol) w = (tt, w, []) ∧
  run h (volumes.UnMount hostVol) w = (tt, w, []) ∧
  volumes.GetPath hostVol = volumes.Path hostVol.
Proof. repeat split. Qed.

(** ** Reconciler *)

Lemma foldl_bind {A B S : Type} (f : S → B → S) (k : A → list B)
    (l : list A) (s : S) :
  foldl f s (l ≫= k) = foldl (fun s x => foldl f s (k x)) s l.
Proof.
  revert s. induction l as [|x l IH]; intros s; [done|].
  cbn. by rewrite foldl_app, IH.
Qed.

Lemma foldl_ext_eq {A S : Type} (f g : S → A → S) (l : list A) (s : S) :
  (∀ s x, f s x = g s x) → foldl f s l = foldl g s l.
Proof.
  intros Hfg. revert s. induction l as [|x l IH]; intros s; [done|].
  cbn. by rewrite Hfg, IH.
Qed.

Section Reconciler.

Context {W : Type} (h : Handler W).

(** The directory tree does not change during the scan: on the worlds of
    [Inv], listing a directory answers [readDir], and listing and logging
    stay within [Inv]. *)
Variable readDir : string → list FileInfo * option error.
Variable Inv : W → Prop.
Hypothesis Inv_read : ∀ w d,
  Inv w → answer h (IoutilReadDir d) w = readDir d ∧
          Inv (after h (IoutilReadDir d) w).
Hypothesis Inv_log : ∀ w f a e, Inv w → Inv (after h (GlogErrorf f a e) w).

Lemma computes_Ret {A : Type} (a : A) : computes h Inv (Ret a) a.
Proof. by intros w Hw. Qed.

Lemma computes_bind {A B : Type} (p : Prog A) (f : A → Prog B) a b :
  computes h Inv p a → computes h Inv (f a) b → computes h Inv (p ≫= f) b.
Proof.
  intros Hp Hf w Hw. unfold mbind, Prog_bind. rewrite run_bind.
  destruct (Hp w Hw) as [-> Hw1]. cbn [result final fst snd].
  apply Hf, Hw1.
Qed.

Lemma computes_ReadDir d : computes h Inv (call (IoutilReadDir d)) (readDir d).
Proof.
  intros w Hw. unfold call. rewrite run_Vis. cbn [result final fst snd run].
  by apply Inv_read.
Qed.

Lemma computes_Errorf f a e : computes h Inv (call (GlogErrorf f a e)) tt.
Proof.
  intros w Hw. unfold call. rewrite run_Vis. cbn [result final fst snd run].
  split; [by destruct (answer _ _ _)|by apply Inv_log].
Qed.

Lemma computes_log_read_error dir err :
  computes h Inv (log_read_error dir err) tt.
Proof.
  destruct err as [e|]; [apply computes_Errorf|apply computes_Ret].
Qed.

(** A loop whose body computes [g] is a fold of [g]. *)
Lemma computes_for_range {A S : Type} (body : A → S → Prog S) (g : S → A → S)
    (l : list A) :
  (∀ x s, computes h Inv (body x s) (g s x)) →
  ∀ s, computes h Inv (for_range l body s) (foldl g s l).
Proof.
  intros Hbody. induction l as [|x l IH]; intros s; [apply computes_Ret|].
  cbn [for_range foldl]. eapply computes_bind; [apply Hbody|apply IH].
Qed.

(** The scan computes the fold of [record_cleaner] over the triples found. *)
Lemma GetCurrentVolumes_fold (rootDirectory : string) :
  computes h Inv (GetCurrentVolumes rootDirectory)
    (foldl (record_cleaner rootDirectory) ∅
           (found_triples readDir rootDirectory)).
Proof.
  unfold GetCurrentVolumes, found_triples.
  eapply computes_bind; [apply computes_ReadDir|].
  destruct (readDir rootDirectory) as [podIDDirs err].
  eapply computes_bind; [apply computes_log_read_error|].
  rewrite foldl_bind. cbn [fst].
  apply computes_for_range. intros podIDDir cv.
  destruct (fi_IsDir podIDDir); [|apply computes_Ret]. cbn [negb].
  eapply computes_bind; [apply computes_ReadDir|].
  destruct (readDir (path.Join [rootDirectory; fi_Name podIDDir; "volumes"]))
    as [volumeKindDirs err1].
  eapply computes_bind; [apply computes_log_read_error|].
  rewrite foldl_bind. cbn [fst].
  apply computes_for_range. intros volumeKindDir cv1.
  eapply computes_bind; [apply computes_ReadDir|].
  destruct (readDir _) as [volumeNameDirs err2].
  eapply computes_bind; [apply computes_log_read_error|].
  rewrite foldl_bind. cbn [fst].
  apply computes_for_range. intros volumeNameDir cv2.
  cbn [foldl record_cleaner].
  destruct (CreateVolumeCleaner _ _ _ _) as [cleaner [e|]].
  - eapply computes_bind; [apply computes_Errorf|apply computes_Ret].
  - apply computes_Ret.
Qed.









End Reconciler.

(** What the fold of [record_cleaner] holds. *)
Lemma record_cleaner_lookup root m t key v :
  record_cleaner root m t !! key = Some v →
  m !! key = Some v ∨
  ∃ c, key = path.Join [t.1.1; t.2] ∧ v = Some c ∧
       (t.1.2 = "empty" ∨ t.1.2 = "gce-pd") ∧
       CreateVolumeCleaner t.1.2 t.2 t.1.1 root = (Some c, None).
Proof.
  destruct t as [[podID kind] name]. cbn [record_cleaner fst snd].
  unfold CreateVolumeCleaner.
  destruct (String.eqb_spec kind "empty") as [->|He].
  { rewrite lookup_insert. case_decide; [|by left].
    intros [= <-]. right. eexists. by repeat split; [| left]. }
  destruct (String.eqb_spec kind "gce-pd") as [->|Hg]; [|by left].
  rewrite lookup_insert. case_decide; [|by left].
  intros [= <-]. right. eexists. by repeat split; [| right].
Qed.

Lemma fold_record_lookup root (l : list (string * string * string)) m key v :
  foldl (record_cleaner root) m l !! key = Some v →
  m !! key = Some v ∨
  ∃ t c, t ∈ l ∧ key = path.Join [t.1.1; t.2] ∧ v = Some c ∧
         (t.1.2 = "empty" ∨ t.1.2 = "gce-pd") ∧
         CreateVolumeCleaner t.1.2 t.2 t.1.1 root = (Some c, None).
Proof.
  revert m. induction l as [|t l IH]; intros m; cbn [foldl]; [by left|].
  intros H. destruct (IH _ H) as [H1|(t' & c & Hin & Hrest)].
  - destruct (record_cleaner_lookup _ _ _ _ _ H1) as [?|(c & Hrest)]; [by left|].
    right. exists t, c. split; [apply list_elem_of_here|done].
  - right. exists t', c. split; [by apply list_elem_of_further|done].
Qed.

Lemma record_cleaner_keeps root m t key :
  (∃ c, m !! key = Some (Some c)) →
  ∃ c, record_cleaner root m t !! key = Some (Some c).
Proof.
  intros [c Hc]. destruct t as [[podID kind] name]. cbn [record_cleaner].
  unfold CreateVolumeCleaner.
  destruct (String.eqb kind "empty");
    [rewrite lookup_insert; case_decide; eauto|].
  destruct (String.eqb kind "gce-pd");
    [rewrite lookup_insert; case_decide; eauto|eauto].
Qed.

Lemma fold_record_keeps root (l : list (string * string * string)) m key :
  (∃ c, m !! key = Some (Some c)) →
  ∃ c, foldl (record_cleaner root) m l !! key = Some (Some c).
Proof.
  revert m. induction l as [|t l IH]; intros m Hm; [done|].
  cbn [foldl]. by apply IH, record_cleaner_keeps.
Qed.

Lemma fold_record_found root (l : list (string * string * string)) m
    podID kind name :
  (podID, kind, name) ∈ l → kind = "empty" ∨ kind = "gce-pd" →
  ∃ c, foldl (record_cleaner root) m l !! path.Join [podID; name] =
       Some (Some c).
Proof.
  intros Hin Hk. revert m. induction l as [|t l IH]; intros m.
  { by apply elem_of_nil in Hin. }
  apply elem_of_cons in Hin as [<-|Hin]; cbn [foldl]; [|by apply IH].
  apply fold_record_keeps.
  unfold record_cleaner, CreateVolumeCleaner.
  destruct Hk as [-> | ->].
  - change ("empty" =? "empty")%string with true. cbn iota.
    rewrite lookup_insert_eq. eauto.
  - change ("gce-pd" =? "empty")%string with false.
    change ("gce-pd" =? "gce-pd")%string with true. cbn iota.
    rewrite lookup_insert_eq. eauto.
Qed.

(** A later triple with the same pod and name replaces the cleaner of an
    earlier one. *)
Lemma record_cleaner_overwrites root m podID kind kind' name :
  kind' = "empty" ∨ kind' = "gce-pd" →
  record_cleaner root (record_cleaner root m (podID, kind, name))
                 (podID, kind', name) !! path.Join [podID; name] =
  Some (CreateVolumeCleaner kind' name podID root).1.
Proof.
  intros Hk. unfold record_cleaner at 1.
  destruct Hk as [-> | ->]; cbn -[path.Join record_cleaner];
    apply lookup_insert_eq.
Qed.

Lemma found_triples_spec readDir root podID kind name :
  (podID, kind, name) ∈ found_triples readDir root ↔
  ∃ podIDDir volumeKindDir volumeNameDir,
    podIDDir ∈ (readDir root).1 ∧ fi_IsDir podIDDir = true ∧
    volumeKindDir ∈ (readDir (path.Join [root; podID; "volumes"])).1 ∧
    volumeNameDir ∈
      (readDir (path.Join [path.Join [root; podID; "volumes"]; kind])).1 ∧
    fi_Name podIDDir = podID ∧ fi_Name volumeKindDir = kind ∧
    fi_Name volumeNameDir = name.
Proof.
  unfold found_triples. rewrite list_elem_of_bind. split.
  - intros (d & Hd & Hin). destruct (fi_IsDir d) eqn:Edir; [|by apply elem_of_nil in Hd].
    apply list_elem_of_bind in Hd as (k & Hk & Hkin).
    apply list_elem_of_bind in Hk as (n & Hn & Hnin).
    apply list_elem_of_singleton in Hn as [= -> -> ->].
    by exists d, k, n.
  - intros (d & k & n & Hd & Edir & Hk & Hn & <- & <- & <-).
    exists d. split; [|done]. rewrite Edir.
    apply list_elem_of_bind. exists k. split; [|done].
    apply list_elem_of_bind. exists n. split; [|done].
    by apply list_elem_of_singleton.
Qed.

Lemma Join_two_names podID name :
  plain_name podID = true → plain_name name = true →
  path.Join [podID; name] = podID +:+ "/" +:+ name.
Proof.
  intros Hp Hn.
  apply (Join_dir_path false [podID] [name]); try done; by repeat constructor.
Qed.



(** Scanning the simulated host neither changes its tree nor depends on
    anything else. *)
Lemma sim_scan_static (w0 : sim.World) :
  (∀ w d, same_tree w0 w →
     answer sim.handler (IoutilReadDir d) w = listing w0 d ∧
     same_tree w0 (after sim.handler (IoutilReadDir d) w)) ∧
  (∀ w f a e, same_tree w0 w →
     same_tree w0 (after sim.handler (GlogErrorf f a e) w)).
Proof.
  unfold same_tree, listing, answer, after. split.
  - intros w d Hw. cbn. by rewrite Hw.
  - intros w f a e Hw. exact Hw.
Qed.


(** The reconciliation scenario: two cleaners, of kinds empty and gce-pd,
    and one logged warning for the entry of unknown kind. *)
Example GetCurrentVolumes_scenario :
  let r := run sim.handler (GetCurrentVolumes "/var/lib/kubelet") scenario_host in
  result r =
    <["pod-A/cache" :=
        Some (CleanerEmptyDirectory
                (mkEmptyDirectory "cache" "pod-A" "/var/lib/kubelet"))]>
      (<["pod-B/data" := Some (cleaner_PD "data" "pod-B" "/var/lib/kubelet")]> ∅) ∧
  size (result r) = 2 ∧
  sim.log (final r) =
    [("Could not create volume cleaner: %s, (%s)", "x",
      ErrUnsupportedVolumeType)].
Proof. vm_compute. repeat split. Qed.

(** C10.  There is a directory tree in which a pod has the volume name [x]
    under both [empty] and [gce-pd]: the scan meets the two triples in this
    order and returns a single entry, under [p/x], the cleaner of the kind
    met last; the empty directory has no cleaner in the result. *)
Theorem GetCurrentVolumes_kind_collision :
  ∃ (w : sim.World) (rootDir : string),
    let m := result (run sim.handler (GetCurrentVolumes rootDir) w) in
    sim.is_dir (sim.fs w)
      (sim.key (EmptyDirectory_GetPath (mkEmptyDirectory "x" "p" rootDir))) = true ∧
    sim.is_dir (sim.fs w)
      (sim.key (GCEPersistentDisk_GetPath
                  (mkGCEPersistentDisk "x" "p" rootDir "" "" "" false
                                       GCEDiskUtil DiskMounter))) = true ∧
    found_triples (listing w) rootDir = [("p", "empty", "x"); ("p", "gce-pd", "x")] ∧
    m = {["p/x" := Some (cleaner_PD "x" "p" rootDir)]} ∧
    size m = 1 ∧
    (∀ key, m !! key ≠
            Some (Some (CleanerEmptyDirectory (mkEmptyDirectory "x" "p" rootDir)))).
Proof.
  exists collision_host, "/var/lib/kubelet". cbv zeta.
  assert (E : result (run sim.handler (GetCurrentVolumes "/var/lib/kubelet")
                          collision_host) =
              {["p/x" := Some (cleaner_PD "x" "p" "/var/lib/kubelet")]})
    by (vm_compute; reflexivity).
  rewrite E.
  split; [vm_compute; reflexivity|]. split; [vm_compute; reflexivity|].
  split; [vm_compute; reflexivity|]. split; [reflexivity|].
  split; [apply map_size_singleton|].
  intros key Hkey. apply lookup_singleton_Some in Hkey as [_ [=]].
Qed.

(** ** Calling twice *)

Section MkdirAll.

Import sim.

(** [os.MkdirAll] keeps the directories that are there. *)
Lemma mkdir_all_keeps f pre rest e f' (k : list string) :
  mkdir_all f pre rest = (e, f') → f !! k = Some true → f' !! k = Some true.
Proof.
  revert f pre. induction rest as [|c rest IH]; intros f pre; cbn [mkdir_all].
  { by intros [= _ <-]. }
  destruct (f !! (pre ++ [c])) as [[|]|] eqn:E.
  - apply IH.
  - by intros [= _ <-].
  - intros H Hk. eapply IH; [exact H|].
    rewrite lookup_insert_ne; [done|]. intros <-. congruence.
Qed.

(** After a successful [os.MkdirAll] the path is there: a second call
    changes nothing and succeeds, and [os.Stat] finds the path. *)
Lemma mkdir_all_done f pre rest f' :
  mkdir_all f pre rest = (None, f') →
  mkdir_all f' pre rest = (None, f') ∧ stat_from f' pre rest = None.
Proof.
  revert f pre. induction rest as [|c rest IH]; intros f pre;
    cbn [mkdir_all stat_from].
  { by intros [= <-]. }
  destruct (f !! (pre ++ [c])) as [[|]|] eqn:E; [| done |]; intros H.
  - rewrite (mkdir_all_keeps _ _ _ _ _ _ H E). by apply (IH f).
  - assert (Hk : (<[pre ++ [c] := true]> f) !! (pre ++ [c]) = Some true)
      by apply lookup_insert_eq.
    rewrite (mkdir_all_keeps _ _ _ _ _ _ H Hk). by apply (IH _ _ H).
Qed.

End MkdirAll.

(** C5.  A second [SetUp] with no teardown in between succeeds and repeats
    no side effect: for a host directory [SetUp] makes no call at all; for an
    empty directory on the simulated host, once [SetUp] has succeeded a
    second [SetUp] succeeds and leaves the host exactly as it is; for a
    persistent disk whose canonical path exists ([os.Stat] does not answer
    "not exist"), under every handler [SetUp] returns nil after that one
    [os.Stat], without AttachDisk, MkdirAll or Mount. *)
Theorem SetUp_twice :
  (∀ (W : Type) (h : Handler W) (w : W) (hostVol : HostDirectory),
     let r1 := run h (HostDirectory_SetUp hostVol) w in
     let r2 := run h (HostDirectory_SetUp hostVol) (final r1) in
     result r2 = None ∧ final r2 = w ∧ trace r1 ++ trace r2 = []) ∧
  (∀ (w : sim.World) (emptyDir : EmptyDirectory),
     let r1 := run sim.handler (EmptyDirectory_SetUp emptyDir) w in
     let r2 := run sim.handler (EmptyDirectory_SetUp emptyDir) (final r1) in
     result r1 = None → result r2 = None ∧ final r2 = final r1) ∧
  (∀ (MOUNT_MS_BIND MOUNT_MS_RDONLY : Z) (W : Type) (h : Handler W) (w : W)
     (PD : GCEPersistentDisk),
     let st := OsStat (GCEPersistentDisk_GetPath PD) in
     let r := run h (GCEPersistentDisk_SetUp MOUNT_MS_BIND MOUNT_MS_RDONLY PD) w in
     IsNotExist (answer h st w) = false →
     result r = None ∧ trace r = [Ev st (answer h st w)] ∧
     called is_AttachDisk (trace r) = false ∧
     called is_Mount (trace r) = false ∧
     called is_MkdirAll (trace r) = false).
Proof.
  split; [done|]. split.
  - intros w emptyDir r1 r2. subst r1 r2.
    unfold EmptyDirectory_SetUp, mbind, Prog_bind, call. cbn [bind].
    rewrite !run_Vis. unfold answer, after. cbn [sim.handler].
    unfold sim.lift_errno. cbn [fst snd].
    destruct (sim.mkdir_all (sim.fs w) [] _) as [[e|] f'] eqn:E; [done|].
    intros _. cbn [fst snd fmap option_fmap option_map run result final].
    cbn [sim.with_fs sim.fs].
    destruct (mkdir_all_done _ _ _ _ E) as [-> _]. done.
  - intros BIND RDONLY W h w PD st r Hst. subst r.
    rewrite (GCEPersistentDisk_SetUp_run h). fold st. rewrite Hst. done.
Qed.

Lemma SetUp_twice_witness :
  let r1 := run sim.handler (EmptyDirectory_SetUp example_empty) example_host in
  let r2 := run sim.handler (EmptyDirectory_SetUp example_empty) (final r1) in
  let w := set_up (example_disk "pod-A") example_host in
  let r := run sim.handler
             (GCEPersistentDisk_SetUp linux_MS_BIND linux_MS_RDONLY
                                      (example_disk "pod-A")) w in
  (result r1 = None ∧ result r2 = None ∧ final r2 = final r1) ∧
  (result r = None ∧ called is_AttachDisk (trace r) = false ∧
   called is_Mount (trace r) = false).
Proof.
  intros r1 r2 w r.
  destruct SetUp_twice as (_ & Hempty & Hdisk). split.
  - split; [vm_compute; reflexivity|].
    apply (Hempty example_host example_empty). vm_compute. reflexivity.
  - destruct (Hdisk linux_MS_BIND linux_MS_RDONLY sim.World sim.handler w
                (example_disk "pod-A") ltac:(vm_compute; reflexivity))
      as (H1 & _ & H2 & H3 & _).
    exact (conj H1 (conj H2 H3)).
Defined.

Lemma sim_MkdirAll_done (p : string) (perm : Z) (w : sim.World) :
  answer sim.handler (OsMkdirAll p perm) w = None →
  sim.stat (sim.fs (after sim.handler (OsMkdirAll p perm) w)) (sim.key p) = None.
Proof.
  unfold answer, after. cbn [sim.handler]. unfold sim.lift_errno.
  cbn [fst snd sim.with_fs sim.fs].
  destruct (sim.mkdir_all (sim.fs w) [] (sim.key p)) as [[e|] f'] eqn:E; [done|].
  intros _. apply (mkdir_all_done _ _ _ _ E).
Qed.

Lemma sim_Mount_fs m source target fstype flags data (w : sim.World) :
  sim.fs (after sim.handler (MounterMount m source target fstype flags data) w)
  = sim.fs w.
Proof.
  unfold after. cbn [sim.handler]. unfold sim.Mount. by destruct (_ && _).
Qed.

(** On the simulated host a persistent disk behaves the same way: once
    [SetUp] has succeeded, a second [SetUp] only looks at the canonical path,
    succeeds and changes nothing. *)
Lemma GCEPersistentDisk_second_SetUp_sim (MOUNT_MS_BIND MOUNT_MS_RDONLY : Z)
    (w : sim.World) (PD : GCEPersistentDisk) :
  let st := OsStat (GCEPersistentDisk_GetPath PD) in
  let r1 := run sim.handler
              (GCEPersistentDisk_SetUp MOUNT_MS_BIND MOUNT_MS_RDONLY PD) w in
  let r2 := run sim.handler
              (GCEPersistentDisk_SetUp MOUNT_MS_BIND MOUNT_MS_RDONLY PD)
              (final r1) in
  result r1 = None →
  result r2 = None ∧ final r2 = final r1 ∧
  trace r2 = [Ev st (answer sim.handler st (final r1))].
Proof.
  intros st r1 r2. subst r1 r2.
  assert (Hskip : ∀ w', IsNotExist (answer sim.handler st w') = false →
            run sim.handler
              (GCEPersistentDisk_SetUp MOUNT_MS_BIND MOUNT_MS_RDONLY PD) w' =
            (None, w', [Ev st (answer sim.handler st w')])).
  { intros w' Hw'. rewrite (GCEPersistentDisk_SetUp_run sim.handler).
    fold st. by rewrite Hw'. }
  destruct (IsNotExist (answer sim.handler st w)) eqn:E1.
  2:{ intros _. rewrite (Hskip w E1). cbn [final fst snd].
      by rewrite (Hskip w E1). }
  rewrite (GCEPersistentDisk_SetUp_run sim.handler _ _ PD w). fold st.
  rewrite E1. cbn [negb].
  change (after sim.handler st w) with w.
  set (at_ := UtilAttachDisk (GCEPersistentDisk_util PD) PD).
  destruct (answer sim.handler at_ w) as [e|]; [done|].
  set (w2 := after sim.handler at_ w).
  change (after sim.handler st w2) with w2.
  destruct (IsNotExist (answer sim.handler st w2)) eqn:E2.
  2:{ intros _. cbn [final fst snd]. by rewrite (Hskip w2 E2). }
  set (mk := OsMkdirAll (GCEPersistentDisk_GetPath PD) mode_0750).
  destruct (answer sim.handler mk w2) as [e|] eqn:Emk; [done|].
  set (w4 := after sim.handler mk w2).
  match goal with |- context [MounterMount ?a ?b ?c ?d ?e ?f] =>
    set (mt := MounterMount a b c d e f) end.
  destruct (answer sim.handler mt w4) as [e|] eqn:Emt; [done|].
  intros _. cbn [final fst snd].
  assert (Hst : answer sim.handler st (after sim.handler mt w4) = None).
  { change (answer sim.handler st (after sim.handler mt w4)) with
      (Errno <$> sim.stat (sim.fs (after sim.handler mt w4))
                          (sim.key (GCEPersistentDisk_GetPath PD))).
    unfold mt. rewrite sim_Mount_fs. unfold w4, mk.
    by rewrite (sim_MkdirAll_done _ _ _ Emk). }
  rewrite (Hskip _ ltac:(by rewrite Hst)). by rewrite Hst.
Qed.

(** ** Tearing down what was never set up *)

(** [EmptyDirectory.TearDown] succeeds only after [ioutil.TempDir] and
    [os.Rename] of the canonical path have both succeeded, under every
    handler. *)
Lemma EmptyDirectory_TearDown_needs_rename {W : Type} (h : Handler W) (w : W)
    (emptyDir : EmptyDirectory) :
  let p := EmptyDirectory_GetPath emptyDir in
  let td := IoutilTempDir (path.Dir p) (path.Base p +:+ ".deleting~") in
  let r := run h (EmptyDirectory_TearDown emptyDir) w in
  result r = None →
  (answer h td w).2 = None ∧
  answer h (OsRename p (answer h td w).1) (after h td w) = None ∧
  ∃ rest, trace r = Ev td (answer h td w) ::
                    Ev (OsRename p (answer h td w).1) None :: rest.
Proof.
  intros p td r. subst r.
  unfold EmptyDirectory_TearDown, renameDirectory, mbind, Prog_bind, call.
  fold p. cbn [bind]. rewrite run_Vis. fold td.
  destruct (answer h td w) as [newPath [e|]]; [done|].
  cbn [bind fst snd]. rewrite run_Vis.
  destruct (answer h (OsRename p newPath) (after h td w)) as [e|]; [done|].
  intros _. split; [done|]. split; [done|]. cbn [trace snd]. eauto.
Qed.

(** C6 fails on the code: tearing down an empty directory that was never
    set up is an error, on a host without the pod's directories (the one
    call, [ioutil.TempDir], fails) and on a host where a sibling volume
    exists (the second call, [os.Rename] of the missing path, fails, and an
    empty [cache.deleting~0] directory is left behind). *)
Theorem TearDown_never_set_up_fails :
  let r := run sim.handler (EmptyDirectory_TearDown example_empty) example_host in
  let r' := run sim.handler (EmptyDirectory_TearDown example_empty) sibling_host in
  sim.stat (sim.fs example_host) (sim.key (EmptyDirectory_GetPath example_empty))
    = Some ENOENT ∧
  result r = Some (Errno ENOENT) ∧
  length (trace r) = 1 ∧
  sim.stat (sim.fs sibling_host) (sim.key (EmptyDirectory_GetPath example_empty))
    = Some ENOENT ∧
  result r' = Some (Errno ENOENT) ∧
  length (trace r') = 2 ∧
  sim.is_dir (sim.fs (final r'))
    (sim.key "/var/lib/kubelet/pod-A/volumes/empty/cache.deleting~0") = true.
Proof. vm_compute. repeat split. Qed.

(** On the simulated host a persistent disk that was never set up fails to
    tear down as well, at the unmount. *)
Example GCEPersistentDisk_TearDown_not_mounted :
  let d := run sim.handler (GCEPersistentDisk_TearDown (example_disk "pod-A"))
               example_host in
  sim.mounts example_host = [] ∧ result d = Some (Errno EINVAL) ∧
  called is_RemoveAll (trace d) = false.
Proof. vm_compute. repeat split. Qed.

(** * Further properties of the package *)

(** ** What the procedures never call *)

Lemma only_calls_trace {W A : Type} (P : ∀ X : Type, Call X → bool)
    (h : Handler W) (p : Prog A) (w : W) :
  only_calls P p → forallb (event_call P) (trace (run h p w)) = true.
Proof.
  revert w. induction p as [a|X c k IH]; intros w; [done|].
  intros [Hc Hk]. rewrite run_Vis. cbn [trace snd forallb event_call].
  rewrite Hc. cbn [andb]. apply IH, Hk.
Qed.

Lemma only_calls_bind {A B : Type} (P : ∀ X : Type, Call X → bool)
    (p : Prog A) (f : A → Prog B) :
  only_calls P p → (∀ a, only_calls P (f a)) → only_calls P (p ≫= f).
Proof.
  intros Hp Hf. unfold mbind, Prog_bind.
  induction p as [a|X c k IH]; cbn [bind only_calls]; [apply Hf|].
  destruct Hp as [Hc Hk]. split; [done|]. intros x. apply IH, Hk.
Qed.

Lemma only_calls_for_range {A S : Type} (P : ∀ X : Type, Call X → bool)
    (l : list A) (body : A → S → Prog S) (s : S) :
  (∀ x s, only_calls P (body x s)) → only_calls P (for_range l body s).
Proof.
  intros Hbody. revert s. induction l as [|x l IH]; intros s; [done|].
  cbn [for_range]. apply only_calls_bind; [apply Hbody|apply IH].
Qed.

Lemma only_calls_call {X : Type} (P : ∀ X : Type, Call X → bool) (c : Call X) :
  P _ c = true → only_calls P (call c).
Proof. by intros Hc; split. Qed.

Lemma GetCurrentVolumes_only_scans (rootDirectory : string) :
  only_calls scan_call (GetCurrentVolumes rootDirectory).
Proof.
  assert (Hlog : ∀ d e, only_calls scan_call (log_read_error d e)).
  { intros d [e|]; by cbn. }
  unfold GetCurrentVolumes.
  apply only_calls_bind; [by apply only_calls_call|]. intros [podIDDirs err].
  apply only_calls_bind; [apply Hlog|]. intros _.
  apply only_calls_for_range. intros podIDDir cv.
  destruct (negb (fi_IsDir podIDDir)); [done|].
  apply only_calls_bind; [by apply only_calls_call|]. intros [kinds err1].
  apply only_calls_bind; [apply Hlog|]. intros _.
  apply only_calls_for_range. intros kindDir cv1.
  apply only_calls_bind; [by apply only_calls_call|]. intros [names err2].
  apply only_calls_bind; [apply Hlog|]. intros _.
  apply only_calls_for_range. intros nameDir cv2.
  destruct (CreateVolumeCleaner _ _ _ _) as [cleaner [e|]]; [|done].
  apply only_calls_bind; [by apply only_calls_call|done].
Qed.

(** X1.  The scan is read-only: under every handler, whatever the listings
    answer, [GetCurrentVolumes] calls nothing but [ioutil.ReadDir] and
    [glog.Errorf]; its first call lists the root directory. *)
Theorem GetCurrentVolumes_read_only {W : Type} (h : Handler W) (w : W)
    (rootDirectory : string) :
  let r := run h (GetCurrentVolumes rootDirectory) w in
  forallb (event_call scan_call) (trace r) = true ∧
  head (trace r) =
    Some (Ev (IoutilReadDir rootDirectory)
             (answer h (IoutilReadDir rootDirectory) w)) ∧
  called is_AttachDisk (trace r) = false ∧
  called is_DetachDisk (trace r) = false ∧
  called is_Mount (trace r) = false ∧
  called is_MkdirAll (trace r) = false ∧
  called is_RemoveAll (trace r) = false.
Proof.
  intros r.
  pose proof (only_calls_trace scan_call h _ w
                (GetCurrentVolumes_only_scans rootDirectory)) as Hscan.
  fold r in Hscan.
  assert (Hno : ∀ f : Event → bool,
            (∀ e, event_call scan_call e = true → f e = false) →
            called f (trace r) = false).
  { intros f Hf. unfold called. apply not_true_is_false. intros Hex.
    apply existsb_exists in Hex as (e & Hin & He).
    rewrite forallb_forall in Hscan. specialize (Hf e (Hscan e Hin)).
    congruence. }
  split; [exact Hscan|]. split.
  { subst r. unfold GetCurrentVolumes, mbind, Prog_bind, call. cbn [bind].
    by rewrite run_Vis. }
  repeat split; apply Hno; intros [X c x]; by destruct c.
Qed.

Lemma not_called (P : ∀ X : Type, Call X → bool) (f : Event → bool)
    (tr : list Event) :
  forallb (event_call P) tr = true →
  (∀ e, event_call P e = true → f e = false) → called f tr = false.
Proof.
  intros Hall Hf. unfold called. apply not_true_is_false. intros Hex.
  apply existsb_exists in Hex as (e & Hin & He).
  rewrite forallb_forall in Hall. specialize (Hf e (Hall e Hin)). congruence.
Qed.

Ltac only_calls_steps :=
  repeat first
    [ done
    | apply only_calls_bind; [by apply only_calls_call|intros ?]
    | match goal with
      | |- only_calls _ (match ?x with _ => _ end) => destruct x
      end ].

Lemma Builder_SetUp_calls (MOUNT_MS_BIND MOUNT_MS_RDONLY : Z) (b : Builder) :
  only_calls setup_call (Builder_SetUp MOUNT_MS_BIND MOUNT_MS_RDONLY b).
Proof.
  destruct b as [v|v|v]; cbn [Builder_SetUp].
  - done.
  - unfold EmptyDirectory_SetUp. only_calls_steps.
  - unfold GCEPersistentDisk_SetUp. only_calls_steps.
Qed.

Lemma Cleaner_TearDown_calls (c : Cleaner) :
  only_calls teardown_call (Cleaner_TearDown c).
Proof.
  destruct c as [v|v]; cbn [Cleaner_TearDown].
  - unfold EmptyDirectory_TearDown, renameDirectory.
    unfold mbind, Prog_bind, call. cbn [bind only_calls teardown_call].
    split; [done|]. intros [newPath [e|]]; cbn [bind only_calls]; [done|].
    split; [done|]. intros [e|]; cbn [bind only_calls]; [done|].
    split; [done|]. by intros [e|].
  - unfold GCEPersistentDisk_TearDown. only_calls_steps.
Qed.

Lemma EmptyDirectory_os_calls (emptyDir : EmptyDirectory) :
  only_calls os_call (EmptyDirectory_SetUp emptyDir) ∧
  only_calls os_call (EmptyDirectory_TearDown emptyDir).
Proof.
  split.
  - unfold EmptyDirectory_SetUp. only_calls_steps.
  - unfold EmptyDirectory_TearDown, renameDirectory.
    unfold mbind, Prog_bind, call. cbn [bind only_calls os_call].
    split; [done|]. intros [newPath [e|]]; cbn [bind only_calls]; [done|].
    split; [done|]. intros [e|]; cbn [bind only_calls]; [done|].
    split; [done|]. by intros [e|].
Qed.

(** X2.  Setting up never undoes and tearing down never builds, under every
    handler: [SetUp] of any builder calls only [os.Stat], [os.MkdirAll],
    AttachDisk, Mount and [os.RemoveAll], so never DetachDisk; [TearDown] of
    any cleaner calls only [ioutil.TempDir], [os.Rename], [os.RemoveAll],
    RefCount, Unmount and DetachDisk, so never AttachDisk, Mount or
    [os.MkdirAll]; an empty directory makes filesystem calls only. *)
Theorem lifecycle_call_sets (MOUNT_MS_BIND MOUNT_MS_RDONLY : Z) {W : Type}
    (h : Handler W) (w : W) :
  (∀ b : Builder,
     let tr := trace (run h (Builder_SetUp MOUNT_MS_BIND MOUNT_MS_RDONLY b) w) in
     forallb (event_call setup_call) tr = true ∧
     called is_DetachDisk tr = false) ∧
  (∀ c : Cleaner,
     let tr := trace (run h (Cleaner_TearDown c) w) in
     forallb (event_call teardown_call) tr = true ∧
     called is_AttachDisk tr = false ∧ called is_Mount tr = false ∧
     called is_MkdirAll tr = false) ∧
  (∀ emptyDir : EmptyDirectory,
     forallb (event_call os_call)
       (trace (run h (EmptyDirectory_SetUp emptyDir) w)) = true ∧
     forallb (event_call os_call)
       (trace (run h (EmptyDirectory_TearDown emptyDir) w)) = true).
Proof.
  split; [|split].
  - intros b tr.
    pose proof (only_calls_trace _ h _ w
                  (Builder_SetUp_calls MOUNT_MS_BIND MOUNT_MS_RDONLY b)) as H.
    split; [exact H|]. apply (not_called _ _ _ H).
    intros [X c x]; by destruct c.
  - intros c tr.
    pose proof (only_calls_trace _ h _ w (Cleaner_TearDown_calls c)) as H.
    split; [exact H|].
    repeat split; apply (not_called _ _ _ H); intros [X c' x]; by destruct c'.
  - intros emptyDir.
    destruct (EmptyDirectory_os_calls emptyDir) as [H1 H2].
    split; by apply only_calls_trace.
Qed.

(** ** Empty directories: rename before delete *)

(** X3.  [EmptyDirectory.TearDown] deletes only what it has renamed, under
    every handler: it asks [ioutil.TempDir] for a directory, renames the
    canonical path onto it, and only then removes -- the renamed directory,
    never the canonical path by name.  An error of any of the three calls is
    returned at once with no further call. *)
Theorem EmptyDirectory_TearDown_steps {W : Type} (h : Handler W) (w : W)
    (emptyDir : EmptyDirectory) :
  let p := EmptyDirectory_GetPath emptyDir in
  let td := IoutilTempDir (path.Dir p) (path.Base p +:+ ".deleting~") in
  let tmp := (answer h td w).1 in
  let w1 := after h td w in
  let rn := OsRename p tmp in
  let w2 := after h rn w1 in
  let rm := OsRemoveAll tmp in
  let r := run h (EmptyDirectory_TearDown emptyDir) w in
  (∀ e, (answer h td w).2 = Some e →
        r = (Some e, w1, [Ev td (answer h td w)])) ∧
  ((answer h td w).2 = None →
   (∀ e, answer h rn w1 = Some e →
         r = (Some e, w2, [Ev td (answer h td w); Ev rn (Some e)])) ∧
   (answer h rn w1 = None →
    r = (answer h rm w2, after h rm w2,
         [Ev td (answer h td w); Ev rn None; Ev rm (answer h rm w2)]))).
Proof.
  intros p td tmp w1 rn w2 rm r. subst r tmp rn rm w2.
  unfold EmptyDirectory_TearDown, renameDirectory, mbind, Prog_bind, call.
  fold p. cbn [bind]. rewrite run_Vis. fold td. fold w1.
  destruct (answer h td w) as [newPath [e|]]; cbn [fst snd bind].
  { split; [by intros ? [= <-]|done]. }
  split; [done|]. intros _. rewrite run_Vis.
  destruct (answer h (OsRename p newPath) w1) as [e|]; cbn [bind].
  { split; [by intros ? [= <-]|done]. }
  split; [done|]. intros _. rewrite run_Vis.
  by destruct (answer h (OsRemoveAll newPath) _) as [e|].
Qed.

Lemma EmptyDirectory_TearDown_steps_witness :
  (* on the simulated host, after a set up: the new name is taken by the
     directory [ioutil.TempDir] has made, the rename is refused and nothing
     is removed *)
  (let r := run sim.handler (EmptyDirectory_TearDown example_empty)
                (final (run sim.handler (EmptyDirectory_SetUp example_empty)
                            example_host)) in
   result r = Some (Errno EEXIST) ∧ length (trace r) = 2) ∧
  (* with fakes that let every call succeed *)
  (let r := run (fake_handler fake_ok) (EmptyDirectory_TearDown example_empty) tt in
   result r = None ∧ length (trace r) = 3).
Proof.
  split.
  - destruct (EmptyDirectory_TearDown_steps sim.handler
                (final (run sim.handler (EmptyDirectory_SetUp example_empty)
                            example_host)) example_empty) as [_ Hok].
    destruct (Hok ltac:(vm_compute; reflexivity)) as [Hrn _].
    specialize (Hrn (Errno EEXIST) ltac:(vm_compute; reflexivity)).
    cbn zeta. rewrite Hrn. split; reflexivity.
  - destruct (EmptyDirectory_TearDown_steps (fake_handler fake_ok) tt
                example_empty) as [_ Hok].
    destruct (Hok ltac:(vm_compute; reflexivity)) as [_ Hrm].
    specialize (Hrm ltac:(vm_compute; reflexivity)).
    cbn zeta. rewrite Hrm. split; [vm_compute; reflexivity|reflexivity].
Defined.

(** ** Persistent disks: when the disk is detached, when the mount is skipped *)

(** X4.  For a reference count in the range of [int], [TearDown] calls
    DetachDisk exactly when the RefCount query succeeded and observed 2, and
    the unmount and the removal of the directory both succeeded. *)
Theorem GCEPersistentDisk_TearDown_detaches_iff {W : Type} (h : Handler W)
    (PD : GCEPersistentDisk) (w : W) (devicePath : string) (refCount : Z)
    (rcErr : option error) :
  let p := GCEPersistentDisk_GetPath PD in
  let m := GCEPersistentDisk_mounter PD in
  let q := MounterRefCount m PD in
  let w1 := after h q w in
  let w2 := after h (MounterUnmount m p 0) w1 in
  answer h q w = (devicePath, refCount, rcErr) →
  in_int refCount →
  called is_DetachDisk (trace (run h (GCEPersistentDisk_TearDown PD) w)) = true ↔
  rcErr = None ∧ refCount = 2%Z ∧
  answer h (MounterUnmount m p 0) w1 = None ∧
  answer h (OsRemoveAll p) w2 = None.
Proof.
  intros p m q w1 w2 Hq Hrange.
  rewrite GCEPersistentDisk_TearDown_detaches. fold p m q w1 w2.
  rewrite Hq. cbn [fst snd].
  rewrite !andb_true_iff, !bool_decide_eq_true, Z.eqb_eq.
  rewrite (int_dec_is_1 refCount Hrange). tauto.
Qed.

Lemma GCEPersistentDisk_TearDown_detaches_iff_witness :
  let w := tear_down (example_disk "pod-A") two_pods_mounted in
  called is_DetachDisk
    (trace (run sim.handler (GCEPersistentDisk_TearDown (example_disk "pod-B")) w))
  = true.
Proof.
  intros w.
  apply (GCEPersistentDisk_TearDown_detaches_iff sim.handler
           (example_disk "pod-B") w "/dev/disk/by-id/google-disk-1" 2 None
           ltac:(vm_compute; reflexivity)
           ltac:(unfold in_int; lia)).
  repeat split; vm_compute; reflexivity.
Defined.

(** X5.  [SetUp] looks at the canonical path a second time after AttachDisk.
    When the path was missing at first and is there then (it is no longer
    "not exist"), [SetUp] returns success after these three calls: it makes
    no directory and no bind mount, and the disk stays attached. *)
Theorem GCEPersistentDisk_SetUp_path_appears (MOUNT_MS_BIND MOUNT_MS_RDONLY : Z)
    {W : Type} (h : Handler W) (PD : GCEPersistentDisk) (w : W) :
  let st := OsStat (GCEPersistentDisk_GetPath PD) in
  let w1 := after h st w in
  let at_ := UtilAttachDisk (GCEPersistentDisk_util PD) PD in
  let w2 := after h at_ w1 in
  let r := run h (GCEPersistentDisk_SetUp MOUNT_MS_BIND MOUNT_MS_RDONLY PD) w in
  IsNotExist (answer h st w) = true →
  answer h at_ w1 = None →
  IsNotExist (answer h st w2) = false →
  r = (None, after h st w2,
       [Ev st (answer h st w); Ev at_ None; Ev st (answer h st w2)]) ∧
  called is_MkdirAll (trace r) = false ∧ called is_Mount (trace r) = false ∧
  called is_DetachDisk (trace r) = false.
Proof.
  intros st w1 at_ w2 r H1 Ha H2. subst r.
  rewrite (GCEPersistentDisk_SetUp_run h). fold st w1 at_ w2.
  by rewrite H1, Ha, H2.
Qed.

Lemma GCEPersistentDisk_SetUp_path_appears_witness :
  let r := run sim.handler
             (GCEPersistentDisk_SetUp linux_MS_BIND linux_MS_RDONLY aliasing_disk)
             aliasing_host in
  makeGlobalPDName "/var/lib/kubelet" "../volumes/gce-pd/data" =
    GCEPersistentDisk_GetPath aliasing_disk ∧
  result r = None ∧ called is_Mount (trace r) = false.
Proof.
  intros r. split; [reflexivity|].
  destruct (GCEPersistentDisk_SetUp_path_appears linux_MS_BIND linux_MS_RDONLY
              sim.handler aliasing_disk aliasing_host
              ltac:(vm_compute; reflexivity) ltac:(vm_compute; reflexivity)
              ltac:(vm_compute; reflexivity)) as (Hr & _ & Hm & _).
  split; [|exact Hm]. subst r. by rewrite Hr.
Defined.

(** ** Factory: which source wins, and that builder and cleaner agree *)

(** X6.  [CreateVolumeBuilder] takes the first populated source in the order
    host directory, empty directory, persistent disk, whatever the later ones
    hold: a host directory gives a builder whose path is the path of the
    specification; otherwise an empty directory gives the empty directory of
    (volume name, podID, rootDir); otherwise a persistent disk gives a disk of
    that identity with the disk name, filesystem type and read-only flag of
    the specification.  It never fails for a populated source. *)
Theorem CreateVolumeBuilder_first_source (volume : api.Volume)
    (source : api.VolumeSource) (podID rootDir : string) :
  api.Source volume = Some source →
  (∀ hd, api.VolumeSource_HostDirectory source = Some hd →
     ∃ b, CreateVolumeBuilder volume podID rootDir = Some (Some b, None) ∧
          b = BuilderHostDirectory (mkHostDirectory (api.Path hd)) ∧
          Builder_GetPath b = api.Path hd) ∧
  (api.VolumeSource_HostDirectory source = None →
   ∀ ed, api.VolumeSource_EmptyDirectory source = Some ed →
     CreateVolumeBuilder volume podID rootDir =
     Some (Some (BuilderEmptyDirectory
                   (mkEmptyDirectory (api.Name volume) podID rootDir)), None)) ∧
  (api.VolumeSource_HostDirectory source = None →
   api.VolumeSource_EmptyDirectory source = None →
   ∀ pd, api.VolumeSource_GCEPersistentDisk source = Some pd →
     ∃ v, CreateVolumeBuilder volume podID rootDir =
          Some (Some (BuilderGCEPersistentDisk v), None) ∧
          GCEPersistentDisk_Name v = api.Name volume ∧
          GCEPersistentDisk_PodID v = podID ∧
          GCEPersistentDisk_RootDir v = rootDir ∧
          GCEPersistentDisk_PDName v = api.PDName pd ∧
          GCEPersistentDisk_FSType v = api.FSType pd ∧
          GCEPersistentDisk_ReadOnly v = api.ReadOnly pd).
Proof.
  destruct volume as [name src]. cbn [api.Source api.Name]. intros ->.
  destruct source as [h e p].
  cbn [api.VolumeSource_HostDirectory api.VolumeSource_EmptyDirectory
       api.VolumeSource_GCEPersistentDisk].
  unfold CreateVolumeBuilder, createHostDirectory, createGCEPersistentDisk,
    createEmptyDirectory.
  split; [|split].
  - intros hd ->. cbn. eexists. split; [reflexivity|]. by split.
  - intros -> ed ->. reflexivity.
  - intros -> -> pd ->. cbn. eexists. split; [reflexivity|]. by repeat split.
Qed.

Lemma CreateVolumeBuilder_first_source_witness :
  CreateVolumeBuilder all_sources_volume "pod-A" "/var/lib/kubelet" =
  Some (Some (BuilderHostDirectory (mkHostDirectory "/data")), None).
Proof.
  destruct (CreateVolumeBuilder_first_source all_sources_volume _
              "pod-A" "/var/lib/kubelet" eq_refl) as [Hh _].
  destruct (Hh _ eq_refl) as (b & Hb & -> & _). exact Hb.
Defined.

(** X7.  What a builder sets up, a cleaner made from identity alone tears
    down: whenever [CreateVolumeBuilder] returns an empty directory or a
    persistent disk, [CreateVolumeCleaner], given the kind of that variant
    and the volume name, returns a cleaner with the same canonical path; for
    an empty directory it is the very same value. *)
Theorem builder_and_cleaner_agree (volume : api.Volume) (podID rootDir : string)
    (b : Builder) :
  CreateVolumeBuilder volume podID rootDir = Some (Some b, None) →
  (∀ v, b = BuilderEmptyDirectory v →
     CreateVolumeCleaner "empty" (api.Name volume) podID rootDir =
     (Some (CleanerEmptyDirectory v), None)) ∧
  (∀ v, b = BuilderGCEPersistentDisk v →
     ∃ v', CreateVolumeCleaner "gce-pd" (api.Name volume) podID rootDir =
           (Some (CleanerGCEPersistentDisk v'), None) ∧
           GCEPersistentDisk_GetPath v' = GCEPersistentDisk_GetPath v ∧
           GCEPersistentDisk_util v' = GCEPersistentDisk_util v ∧
           GCEPersistentDisk_mounter v' = GCEPersistentDisk_mounter v).
Proof.
  unfold CreateVolumeBuilder, createHostDirectory, createGCEPersistentDisk,
    createEmptyDirectory.
  destruct volume as [name [[hd ed pd]|]]; cbn; [|done].
  destruct hd as [hd|]; cbn.
  { intros [= <-]. by split. }
  destruct ed as [ed|]; cbn.
  { intros [= <-]. split; [by intros v [= <-]|done]. }
  destruct pd as [pd|]; cbn; [|done].
  intros [= <-]. split; [done|]. intros v [= <-]. eauto.
Qed.

Lemma builder_and_cleaner_agree_witness :
  CreateVolumeCleaner "empty" "cache" "pod-A" "/var/lib/kubelet" =
  (Some (CleanerEmptyDirectory example_empty), None).
Proof.
  exact (proj1 (builder_and_cleaner_agree
                  (api.mkVolume "cache"
                     (Some (api.mkVolumeSource None (Some api.mkEmptyDirectory)
                                               None)))
                  "pod-A" "/var/lib/kubelet"
                  (BuilderEmptyDirectory example_empty) eq_refl)
               example_empty eq_refl).
Defined.

(** ** The scan: an unreadable root, and which cleaner a key holds *)

(** X8.  When the root directory cannot be listed or lists nothing,
    [GetCurrentVolumes] returns the empty map, under every handler; it lists
    nothing further, and logs the error of the listing, with the root
    directory, if there was one. *)
Theorem GetCurrentVolumes_empty_root {W : Type} (h : Handler W) (w : W)
    (rootDirectory : string) :
  let rd := IoutilReadDir rootDirectory in
  let r := run h (GetCurrentVolumes rootDirectory) w in
  (answer h rd w).1 = [] →
  result r = ∅ ∧
  trace r =
    Ev rd (answer h rd w) ::
    match (answer h rd w).2 with
    | Some e =>
        [Ev (GlogErrorf "Could not read directory: %s, (%s)" rootDirectory e) tt]
    | None => []
    end.
Proof.
  intros rd r Hnil. subst r.
  unfold GetCurrentVolumes, mbind, Prog_bind, call. cbn [bind].
  rewrite run_Vis. fold rd.
  destruct (answer h rd w) as [dirs err]. cbn [fst snd] in *. subst dirs.
  destruct err as [e|]; cbn [log_read_error call bind for_range]; [|done].
  rewrite run_Vis. cbn [run result final trace fst snd].
  by destruct (answer h (GlogErrorf _ _ _) _).
Qed.

Lemma GetCurrentVolumes_empty_root_witness :
  let r := run sim.handler (GetCurrentVolumes "/var/lib/kubelet") example_host in
  result r = ∅ ∧ length (trace r) = 2.
Proof.
  intros r.
  destruct (GetCurrentVolumes_empty_root sim.handler example_host
              "/var/lib/kubelet" ltac:(vm_compute; reflexivity)) as [H1 H2].
  split; [exact H1|]. subst r. rewrite H2. vm_compute. reflexivity.
Defined.

(** Triples that do not store under [key] leave its entry alone. *)
Lemma fold_record_other root (l : list (string * string * string)) m key :
  (∀ t, t ∈ l → t.1.2 = "empty" ∨ t.1.2 = "gce-pd" →
        path.Join [t.1.1; t.2] ≠ key) →
  foldl (record_cleaner root) m l !! key = m !! key.
Proof.
  revert m. induction l as [|t l IH]; intros m Hl; [done|].
  cbn [foldl]. rewrite IH.
  2:{ intros t' Hin. apply Hl. by apply list_elem_of_further. }
  destruct t as [[podID kind] name]. unfold record_cleaner, CreateVolumeCleaner.
  specialize (Hl (podID, kind, name) (list_elem_of_here _ _)).
  cbn [fst snd] in Hl.
  destruct (String.eqb_spec kind "empty") as [->|He].
  { apply lookup_insert_ne, Hl. by left. }
  destruct (String.eqb_spec kind "gce-pd") as [->|Hg]; [|done].
  apply lookup_insert_ne, Hl. by right.
Qed.

(** X9.  When several triples of the scan have the same key, the map holds
    the cleaner of the one met last: on a tree that does not change during
    the scan, if a triple of a recognized kind is followed by no recognized
    triple with the same key, the entry under its key is the cleaner the
    factory makes for it. *)
Theorem GetCurrentVolumes_last_wins {W : Type} (h : Handler W)
    (readDir : string → list FileInfo * option error) (Inv : W → Prop)
    (rootDir : string) (w : W)
    (before after_ : list (string * string * string))
    (podID kind name : string) :
  (∀ w d, Inv w → answer h (IoutilReadDir d) w = readDir d ∧
                  Inv (after h (IoutilReadDir d) w)) →
  (∀ w f a e, Inv w → Inv (after h (GlogErrorf f a e) w)) →
  Inv w →
  found_triples readDir rootDir = before ++ (podID, kind, name) :: after_ →
  kind = "empty" ∨ kind = "gce-pd" →
  (∀ t, t ∈ after_ → t.1.2 = "empty" ∨ t.1.2 = "gce-pd" →
        path.Join [t.1.1; t.2] ≠ path.Join [podID; name]) →
  result (run h (GetCurrentVolumes rootDir) w) !! path.Join [podID; name] =
  Some (CreateVolumeCleaner kind name podID rootDir).1.
Proof.
  intros Hread Hlog Hw Hfound Hk Hafter.
  destruct (GetCurrentVolumes_fold h readDir Inv Hread Hlog rootDir w Hw)
    as [-> _].
  rewrite Hfound, foldl_app. cbn [foldl].
  rewrite fold_record_other by done.
  unfold record_cleaner, CreateVolumeCleaner.
  destruct Hk as [-> | ->]; cbn -[path.Join]; apply lookup_insert_eq.
Qed.

Lemma GetCurrentVolumes_last_wins_witness :
  result (run sim.handler (GetCurrentVolumes "/var/lib/kubelet") collision_host)
    !! "p/x" = Some (Some (cleaner_PD "x" "p" "/var/lib/kubelet")).
Proof.
  exact (GetCurrentVolumes_last_wins sim.handler (listing collision_host)
           (same_tree collision_host) "/var/lib/kubelet" collision_host
           [("p", "empty", "x")] [] "p" "gce-pd" "x"
           (proj1 (sim_scan_static collision_host))
           (proj2 (sim_scan_static collision_host)) eq_refl
           ltac:(vm_compute; reflexivity) (or_intror eq_refl)
           ltac:(intros t Ht; by apply elem_of_nil in Ht)).
Defined.

(** ** More on clean paths *)

Section MoreCleanPaths.

Import path.

Abbreviation L := list_ascii_of_string.

(** The loop of [Clean] copies names joined by slashes and goes on with what
    follows them. *)
Lemma clean_loop_tail_then fuel fuel' (rooted : bool) ls rest
    (out : list ascii) dotdot :
  Forall seg ls → at_elem_end rest = true →
  (if rooted then 2 else 1) ≤ length out →
  length (tail_bytes ls ++ rest) ≤ fuel → length rest ≤ fuel' →
  clean_loop fuel rooted (tail_bytes ls ++ rest) out dotdot =
  clean_loop fuel' rooted rest (out ++ tail_bytes ls) dotdot.
Proof.
  intros Hls Hrest. revert fuel out.
  induction Hls as [|l ls Hl Hls IH]; intros fuel out Hout Hf Hf'.
  { cbn [tail_bytes map concat app] in *. rewrite app_nil_r.
    by apply clean_loop_fuel. }
  change (tail_bytes (l :: ls)) with (slash :: l ++ tail_bytes ls) in *.
  cbn [app] in *. rewrite <- app_assoc in *.
  cbn [length] in Hf. rewrite length_app in Hf.
  destruct fuel as [|fuel]; [lia|].
  change (clean_loop (S fuel) rooted (slash :: l ++ tail_bytes ls ++ rest)
                     out dotdot)
    with (clean_loop fuel rooted (l ++ tail_bytes ls ++ rest) out dotdot).
  assert (Hne : l ≠ []) by apply Hl.
  destruct fuel as [|fuel]; [destruct l; [done|simpl in Hf; lia]|].
  rewrite clean_loop_seg; [|done|].
  2:{ destruct ls; [by rewrite app_nil_l|reflexivity]. }
  assert (Es : sep rooted out = out ++ [slash]).
  { unfold sep. destruct rooted, out as [|a [|b out']]; simpl in Hout; try lia;
      reflexivity. }
  rewrite Es, IH.
  - by rewrite <- !app_assoc.
  - rewrite !length_app. simpl. destruct rooted; lia.
  - destruct l; [done|]. simpl in Hf. lia.
  - done.
Qed.

(** The bytes of a path in clean form. *)
Lemma L_dir_path rooted n names :
  L (dir_path rooted (n :: names)) =
  (if rooted then [slash] else []) ++ L n ++ tail_bytes (map L names).
Proof.
  unfold dir_path. rewrite L_app, L_strings_Join by done. by destruct rooted.
Qed.

Lemma seg_names names :
  Forall (fun n => plain_name n = true) names → Forall seg (map L names).
Proof.
  intros H. apply Forall_map. eapply Forall_impl; [exact H|].
  intros x Hx. by apply plain_name_seg.
Qed.

(** [Clean] of names joined by slashes with some slashes doubled, or with
    slashes at the end: a path in clean form [a], then a run of slashes,
    then more names (or nothing). *)
Lemma Clean_extra_slashes rooted names (k : nat) more :
  names ≠ [] → Forall (fun n => plain_name n = true) names →
  Forall (fun n => plain_name n = true) more →
  Clean (string_of_list_ascii
           (L (dir_path rooted names) ++ replicate k slash ++
            tail_bytes (map L more))) =
  dir_path rooted (names ++ more).
Proof.
  intros Hne Hall Hmore.
  destruct names as [|n names]; [done|].
  pose proof (plain_name_seg n (Forall_inv Hall)) as Hn.
  pose proof (seg_names names (Forall_inv_tail Hall)) as Hrest.
  pose proof (seg_names more Hmore) as Hmore'.
  assert (Hgoal : L (dir_path rooted ((n :: names) ++ more)) =
                  (if rooted then [slash] else []) ++ L n ++
                  tail_bytes (map L names) ++ tail_bytes (map L more)).
  { change ((n :: names) ++ more) with (n :: (names ++ more)).
    rewrite L_dir_path, map_app. unfold tail_bytes.
    by rewrite map_app, concat_app. }
  rewrite <- (string_of_list_ascii_of_string
                (dir_path rooted ((n :: names) ++ more))), Hgoal.
  clear Hgoal. rewrite L_dir_path, <- !app_assoc.
  set (T1 := tail_bytes (map L names)) in *.
  set (T2 := tail_bytes (map L more)) in *.
  set (S := replicate k slash).
  assert (Hskip : ∀ fuel out dotdot,
            (if rooted then 2 else 1) ≤ length out →
            length (S ++ T2) ≤ fuel →
            clean_loop fuel rooted (S ++ T2) out dotdot = out ++ T2).
  { subst S. clear -Hmore'. induction k as [|k IH]; intros fuel out dd Hout Hf.
    - cbn [replicate app] in *. by apply clean_loop_tail.
    - cbn [replicate app length] in *. destruct fuel as [|fuel]; [lia|].
      change (clean_loop (Datatypes.S fuel) rooted
                (slash :: replicate k slash ++ T2) out dd)
        with (clean_loop fuel rooted (replicate k slash ++ T2) out dd).
      apply IH; [done|lia]. }
  assert (Hend : at_elem_end (S ++ T2) = true).
  { subst S T2. destruct k; [apply tail_bytes_end|reflexivity]. }
  destruct Hn as (Hn0 & Hns & Hn1 & Hn2).
  destruct (L n) as [|c l'] eqn:En; [done|].
  assert (Hseg : seg (c :: l')) by done.
  pose proof (Forall_inv Hns) as Hc. cbn beta in Hc.
  unfold Clean. rewrite list_ascii_of_string_of_list_ascii.
  destruct rooted.
  - cbn [app]. destruct (String.eqb_spec (string_of_list_ascii
        (slash :: c :: l' ++ T1 ++ S ++ T2)) "") as [E|_]; [done|].
    cbv zeta. change (slash =? slash)%char with true. cbn iota. cbn [tail].
    rewrite (clean_loop_fuel _ (Datatypes.S (length (c :: l' ++ T1 ++ S ++ T2))))
      by (simpl; lia).
    change (c :: l' ++ T1 ++ S ++ T2) with ((c :: l') ++ T1 ++ S ++ T2).
    rewrite clean_loop_seg; [|done|].
    2:{ subst T1. destruct (map L names); [exact Hend|reflexivity]. }
    subst T1.
    rewrite (clean_loop_tail_then _ (length (S ++ T2))); try done.
    2:{ simpl. lia. }
    2:{ rewrite !length_app. simpl. lia. }
    rewrite Hskip; [|rewrite !length_app; simpl; lia|done].
    cbn [sep andb negb Nat.eqb length orb app]. rewrite <- !app_assoc.
    reflexivity.
  - cbn [app]. destruct (String.eqb_spec (string_of_list_ascii
        (c :: l' ++ T1 ++ S ++ T2)) "") as [E|_]; [done|].
    cbv zeta. rewrite Hc. cbn iota.
    rewrite (clean_loop_fuel _ (Datatypes.S (length (c :: l' ++ T1 ++ S ++ T2))))
      by (simpl; lia).
    change (c :: l' ++ T1 ++ S ++ T2) with ((c :: l') ++ T1 ++ S ++ T2).
    rewrite clean_loop_seg; [|done|].
    2:{ subst T1. destruct (map L names); [exact Hend|reflexivity]. }
    subst T1.
    rewrite (clean_loop_tail_then _ (length (S ++ T2))); try done.
    2:{ simpl. lia. }
    2:{ rewrite !length_app. simpl. lia. }
    rewrite Hskip; [|rewrite !length_app; simpl; lia|done].
    cbn [sep andb negb Nat.eqb length orb app]. rewrite <- !app_assoc.
    reflexivity.
Qed.

End MoreCleanPaths.

Section SplitPaths.

Import path.

Abbreviation L := list_ascii_of_string.

Lemma after_last_slash_none n :
  Forall (fun c => Ascii.eqb c slash = false) n → after_last_slash n = 0.
Proof.
  induction 1 as [|c n Hc _ IH]; [done|]. cbn [after_last_slash].
  by rewrite IH, Hc.
Qed.

Lemma after_last_slash_app pre n :
  Forall (fun c => Ascii.eqb c slash = false) n →
  after_last_slash (pre ++ slash :: n) = S (length pre).
Proof.
  intros Hn. induction pre as [|c pre IH]; cbn [app after_last_slash length].
  - by rewrite (after_last_slash_none n Hn).
  - by rewrite IH.
Qed.

Lemma strip_trailing_slashes_name pre n :
  Forall (fun c => Ascii.eqb c slash = false) n → n ≠ [] →
  strip_trailing_slashes (pre ++ n) = pre ++ n.
Proof.
  intros Hn Hne. induction pre as [|c pre IH]; cbn [app].
  - clear Hne. induction Hn as [|c n Hc _ IH]; [done|].
    cbn [strip_trailing_slashes]. rewrite IH. destruct n; [by rewrite Hc|done].
  - cbn [strip_trailing_slashes]. rewrite IH.
    destruct (pre ++ n) eqn:E; [|done].
    apply app_eq_nil in E as [_ ->]. done.
Qed.

(** [Dir] and [Base] take a path in clean form apart at its last name. *)
Lemma Dir_Base_dir_path rooted names n :
  names ≠ [] → Forall (fun m => plain_name m = true) names →
  plain_name n = true →
  Dir (dir_path rooted names +:+ "/" +:+ n) = dir_path rooted names ∧
  Base (dir_path rooted names +:+ "/" +:+ n) = n.
Proof.
  intros Hne Hall Hn.
  destruct (plain_name_seg n Hn) as (Hn0 & Hns & _).
  assert (EL : L (dir_path rooted names +:+ "/" +:+ n) =
               L (dir_path rooted names) ++ slash :: L n).
  { by rewrite !L_app. }
  assert (Ecut : L (dir_path rooted names) ++ slash :: L n =
                 (L (dir_path rooted names) ++ [slash]) ++ L n)
    by (by rewrite <- app_assoc).
  assert (Elen : length (L (dir_path rooted names) ++ [slash]) =
                 S (length (L (dir_path rooted names))))
    by (rewrite length_app; simpl; lia).
  split.
  - unfold Dir, Split. cbn [fst]. rewrite EL, after_last_slash_app by done.
    rewrite Ecut, take_app_length' by done.
    pose proof (Clean_extra_slashes rooted names 1 [] Hne Hall (Forall_nil_2 _))
      as Hc.
    cbn [replicate map tail_bytes concat] in Hc. rewrite !app_nil_r in Hc.
    exact Hc.
  - unfold Base.
    destruct (String.eqb_spec (dir_path rooted names +:+ "/" +:+ n) "")
      as [E|_].
    { apply (f_equal L) in E. rewrite EL in E. by destruct (L (dir_path _ _)). }
    cbv zeta. rewrite EL.
    assert (Es : strip_trailing_slashes
                   (L (dir_path rooted names) ++ slash :: L n) =
                 L (dir_path rooted names) ++ slash :: L n).
    { rewrite Ecut. apply strip_trailing_slashes_name; done. }
    rewrite !Es, after_last_slash_app by done.
    rewrite Ecut, drop_app_length' by done.
    destruct (L n) eqn:En; [done|]. rewrite <- En.
    apply string_of_list_ascii_of_string.
Qed.

End SplitPaths.

(** ** Canonical paths of identities in clean form *)

(** The canonical paths as paths in clean form. *)
Lemma GetPath_dir_path rooted dirs podID name :
  dirs ≠ [] → Forall (fun n => plain_name n = true) dirs →
  plain_name podID = true → plain_name name = true →
  EmptyDirectory_GetPath (mkEmptyDirectory name podID (dir_path rooted dirs)) =
    dir_path rooted (dirs ++ [podID; "volumes"; "empty"; name]) ∧
  (∀ PDName FSType Partition ReadOnly util mnt,
     GCEPersistentDisk_GetPath
       (mkGCEPersistentDisk name podID (dir_path rooted dirs) PDName FSType
                            Partition ReadOnly util mnt) =
     dir_path rooted (dirs ++ [podID; "volumes"; "gce-pd"; name])).
Proof.
  intros Hne Hall Hp Hn.
  unfold EmptyDirectory_GetPath, GCEPersistentDisk_GetPath.
  cbn [EmptyDirectory_RootDir EmptyDirectory_PodID EmptyDirectory_Name
       GCEPersistentDisk_RootDir GCEPersistentDisk_PodID GCEPersistentDisk_Name].
  split; intros; rewrite Join_dir_path; try done;
    try (repeat constructor; done).
  all: unfold dir_path; rewrite strings_Join_app by done.
  all: cbn [path.strings_Join].
  all: apply L_inj; rewrite !L_app, <- ?app_assoc; reflexivity.
Qed.

(** X10.  The directory [EmptyDirectory.TearDown] renames a volume to is
    asked for beside the volume: for an identity in clean form its first
    call, under every handler, is [ioutil.TempDir] in
    [rootDir/podID/volumes/empty], the parent of the canonical path, with the
    prefix [name.deleting~]. *)
Theorem renameDirectory_beside_volume {W : Type} (h : Handler W) (w : W)
    (rooted : bool) (dirs : list string) (podID name : string) :
  dirs ≠ [] → Forall (fun n => plain_name n = true) dirs →
  plain_name podID = true → plain_name name = true →
  let rootDir := dir_path rooted dirs in
  let emptyDir := mkEmptyDirectory name podID rootDir in
  let parent := rootDir +:+ "/" +:+ podID +:+ "/volumes/empty" in
  let td := IoutilTempDir parent (name +:+ ".deleting~") in
  path.Dir (EmptyDirectory_GetPath emptyDir) = parent ∧
  path.Base (EmptyDirectory_GetPath emptyDir) = name ∧
  EmptyDirectory_GetPath emptyDir = parent +:+ "/" +:+ name ∧
  head (trace (run h (EmptyDirectory_TearDown emptyDir) w)) =
    Some (Ev td (answer h td w)).
Proof.
  intros Hne Hall Hp Hn rootDir emptyDir parent td.
  destruct (GetPath_dir_path rooted dirs podID name Hne Hall Hp Hn) as [Hpath _].
  fold rootDir in Hpath. fold emptyDir in Hpath.
  assert (Eparent : parent = dir_path rooted (dirs ++ [podID; "volumes"; "empty"])).
  { subst parent rootDir. unfold dir_path. rewrite strings_Join_app by done.
    cbn [path.strings_Join].
    apply L_inj; rewrite !L_app, <- ?app_assoc; reflexivity. }
  assert (Efull : EmptyDirectory_GetPath emptyDir = parent +:+ "/" +:+ name).
  { rewrite Hpath, Eparent. unfold dir_path.
    rewrite !strings_Join_app by (done || by destruct dirs).
    cbn [path.strings_Join].
    apply L_inj; rewrite !L_app, <- ?app_assoc; reflexivity. }
  destruct (Dir_Base_dir_path rooted (dirs ++ [podID; "volumes"; "empty"]) name)
    as [Hdir Hbase]; [by destruct dirs| |done|].
  { apply Forall_app. split; [done|]. by repeat constructor. }
  rewrite <- Eparent in Hdir, Hbase. rewrite <- Efull in Hdir, Hbase.
  split; [done|]. split; [done|]. split; [done|].
  unfold EmptyDirectory_TearDown, renameDirectory, mbind, Prog_bind, call.
  cbn [bind]. rewrite run_Vis. cbn [trace snd head].
  rewrite Hdir, Hbase. reflexivity.
Qed.

Lemma renameDirectory_beside_volume_witness :
  path.Dir (EmptyDirectory_GetPath example_empty) =
    "/var/lib/kubelet/pod-A/volumes/empty" ∧
  path.Base (EmptyDirectory_GetPath example_empty) = "cache".
Proof.
  destruct (renameDirectory_beside_volume sim.handler example_host true
              ["var"; "lib"; "kubelet"] "pod-A" "cache")
    as (H1 & H2 & _); [done|repeat constructor|reflexivity|reflexivity|].
  exact (conj H1 H2).
Defined.

Ltac string_eq :=
  cbn [path.strings_Join]; apply L_inj; rewrite !L_app, <- ?app_assoc;
  reflexivity.

(** Joining onto a path in clean form extends it. *)
Lemma Join_extends rooted names more :
  names ≠ [] → Forall (fun n => plain_name n = true) names →
  more ≠ [] → Forall (fun n => plain_name n = true) more →
  path.Join (dir_path rooted names :: more) = dir_path rooted (names ++ more).
Proof.
  intros Hne Hall Hm Hmall. rewrite Join_dir_path by done.
  unfold dir_path. rewrite strings_Join_app by done. string_eq.
Qed.

Lemma split_first_slash (l1 l2 r1 r2 : list ascii) :
  Forall (fun c => Ascii.eqb c path.slash = false) l1 →
  Forall (fun c => Ascii.eqb c path.slash = false) l2 →
  l1 ++ path.slash :: r1 = l2 ++ path.slash :: r2 → l1 = l2 ∧ r1 = r2.
Proof.
  intros H1. revert l2. induction H1 as [|c l1 Hc _ IH]; intros l2 H2 E.
  - destruct H2 as [|d l2 Hd _]; cbn in E; [by injection E|].
    injection E as <- _. by rewrite Ascii.eqb_refl in Hd.
  - destruct H2 as [|d l2 Hd H2]; cbn in E.
    + injection E as -> _. by rewrite Ascii.eqb_refl in Hc.
    + injection E as -> E. destruct (IH l2 H2 E) as [-> ->]. done.
Qed.

Lemma plain_name_no_slash n :
  plain_name n = true →
  Forall (fun c => Ascii.eqb c path.slash = false) (list_ascii_of_string n).
Proof. intros H. apply (plain_name_seg n H). Qed.

(** The key of the scan tells pod and name apart. *)
Lemma identifier_inj p1 n1 p2 n2 :
  plain_name p1 = true → plain_name n1 = true →
  plain_name p2 = true → plain_name n2 = true →
  path.Join [p1; n1] = path.Join [p2; n2] → p1 = p2 ∧ n1 = n2.
Proof.
  intros Hp1 Hn1 Hp2 Hn2. rewrite !Join_two_names by done. intros E.
  apply (f_equal list_ascii_of_string) in E. rewrite !L_app in E.
  apply split_first_slash in E as [E1 E2]; try by apply plain_name_no_slash.
  split; by apply L_inj.
Qed.

(** X11.  Identities in clean form under one root directory never share a
    directory: the canonical path of an empty directory determines pod and
    name, and so does that of a persistent disk; an empty directory and a
    persistent disk never have the same path; and the global mount point of
    a disk is the canonical path of no volume. *)
Theorem canonical_paths_distinct (rooted : bool) (dirs : list string)
    (p1 n1 p2 n2 : string) :
  dirs ≠ [] → Forall (fun n => plain_name n = true) dirs →
  plain_name p1 = true → plain_name n1 = true →
  plain_name p2 = true → plain_name n2 = true →
  let rootDir := dir_path rooted dirs in
  let empty p n := EmptyDirectory_GetPath (mkEmptyDirectory n p rootDir) in
  let disk p n :=
    GCEPersistentDisk_GetPath
      (mkGCEPersistentDisk n p rootDir "" "" "" false GCEDiskUtil DiskMounter) in
  (empty p1 n1 = empty p2 n2 → p1 = p2 ∧ n1 = n2) ∧
  (disk p1 n1 = disk p2 n2 → p1 = p2 ∧ n1 = n2) ∧
  empty p1 n1 ≠ disk p2 n2 ∧
  (∀ externalDiskName,
     plain_name externalDiskName = true →
     makeGlobalPDName rootDir externalDiskName ≠ empty p1 n1 ∧
     makeGlobalPDName rootDir externalDiskName ≠ disk p1 n1).
Proof.
  intros Hne Hall Hp1 Hn1 Hp2 Hn2 rootDir empty disk. subst rootDir.
  assert (Hempty : ∀ p n, plain_name p = true → plain_name n = true →
            list_ascii_of_string (empty p n) =
            list_ascii_of_string (dir_path rooted dirs) ++ path.slash ::
            list_ascii_of_string p ++ path.slash ::
            list_ascii_of_string "volumes/empty/" ++ list_ascii_of_string n).
  { intros p n Hp Hn. subst empty. cbn beta. unfold EmptyDirectory_GetPath.
    cbn [EmptyDirectory_RootDir EmptyDirectory_PodID EmptyDirectory_Name].
    rewrite Join_dir_path by (done || by repeat constructor).
    cbn [path.strings_Join]. by rewrite !L_app, <- ?app_assoc. }
  assert (Hdisk : ∀ p n, plain_name p = true → plain_name n = true →
            list_ascii_of_string (disk p n) =
            list_ascii_of_string (dir_path rooted dirs) ++ path.slash ::
            list_ascii_of_string p ++ path.slash ::
            list_ascii_of_string "volumes/gce-pd/" ++ list_ascii_of_string n).
  { intros p n Hp Hn. subst disk. cbn beta. unfold GCEPersistentDisk_GetPath.
    cbn [GCEPersistentDisk_RootDir GCEPersistentDisk_PodID
         GCEPersistentDisk_Name].
    rewrite Join_dir_path by (done || by repeat constructor).
    cbn [path.strings_Join]. by rewrite !L_app, <- ?app_assoc. }
  assert (Hglobal : ∀ d, plain_name d = true →
            list_ascii_of_string (makeGlobalPDName (dir_path rooted dirs) d) =
            list_ascii_of_string (dir_path rooted dirs) ++ path.slash ::
            list_ascii_of_string "global" ++ path.slash ::
            list_ascii_of_string "pd/" ++ list_ascii_of_string d).
  { intros d Hd. unfold makeGlobalPDName.
    rewrite Join_dir_path by (done || by repeat constructor).
    cbn [path.strings_Join]. by rewrite !L_app, <- ?app_assoc. }
  assert (Hcut : ∀ (a b c d : list ascii) x y,
            plain_name x = true → plain_name y = true →
            list_ascii_of_string (dir_path rooted dirs) ++ path.slash ::
              list_ascii_of_string x ++ path.slash :: a ++ b =
            list_ascii_of_string (dir_path rooted dirs) ++ path.slash ::
              list_ascii_of_string y ++ path.slash :: c ++ d →
            x = y ∧ a ++ b = c ++ d).
  { intros a b c d x y Hx Hy E. apply app_inv_head in E. injection E as E.
    apply split_first_slash in E as [E1 E2]; try by apply plain_name_no_slash.
    split; [by apply L_inj|done]. }
  split; [|split; [|split]].
  - intros E. apply (f_equal list_ascii_of_string) in E.
    rewrite !Hempty in E by done. apply Hcut in E as [-> E]; [|done..].
    apply app_inv_head in E. split; [done|]. by apply L_inj.
  - intros E. apply (f_equal list_ascii_of_string) in E.
    rewrite !Hdisk in E by done. apply Hcut in E as [-> E]; [|done..].
    apply app_inv_head in E. split; [done|]. by apply L_inj.
  - intros E. apply (f_equal list_ascii_of_string) in E.
    rewrite Hempty, Hdisk in E by done. apply Hcut in E as [_ E]; [|done..].
    cbn in E. discriminate E.
  - intros d Hd. split; intros E; apply (f_equal list_ascii_of_string) in E.
    + rewrite Hempty, Hglobal in E by done.
      apply Hcut in E as [_ E]; [|done..]. cbn in E. discriminate E.
    + rewrite Hdisk, Hglobal in E by done.
      apply Hcut in E as [_ E]; [|done..]. cbn in E. discriminate E.
Qed.

Lemma canonical_paths_distinct_witness :
  EmptyDirectory_GetPath (mkEmptyDirectory "pd" "global" "/var/lib/kubelet") ≠
  GCEPersistentDisk_GetPath
    (mkGCEPersistentDisk "pd" "global" "/var/lib/kubelet" "" "" "" false
                         GCEDiskUtil DiskMounter) ∧
  makeGlobalPDName "/var/lib/kubelet" "volumes" ≠
  EmptyDirectory_GetPath (mkEmptyDirectory "pd" "global" "/var/lib/kubelet").
Proof.
  destruct (canonical_paths_distinct true ["var"; "lib"; "kubelet"]
              "global" "pd" "global" "pd")
    as (_ & _ & H3 & H4);
    [done | repeat constructor | reflexivity..|].
  exact (conj H3 (proj1 (H4 "volumes" eq_refl))).
Defined.

(** The names the scan meets are names of directory entries. *)
Lemma found_triples_plain readDir root podID kind name :
  (∀ d, Forall (fun fi => plain_name (fi_Name fi) = true) (readDir d).1) →
  (podID, kind, name) ∈ found_triples readDir root →
  plain_name podID = true ∧ plain_name kind = true ∧ plain_name name = true.
Proof.
  intros Hplain Hin.
  apply found_triples_spec in Hin
    as (d & k & n & Hd & _ & Hk & Hn & <- & <- & <-).
  repeat split.
  - exact (proj1 (Forall_forall _ _) (Hplain _) d Hd).
  - exact (proj1 (Forall_forall _ _) (Hplain _) k Hk).
  - exact (proj1 (Forall_forall _ _) (Hplain _) n Hn).
Qed.

(** X12.  Keys collide across kinds only.  On a tree that does not change
    during the scan and whose listings give plain names (as directory
    entries are), every found triple of a recognized kind has, under
    [podID/name], a cleaner of its own identity (rootDir, podID, name); the
    kind of that cleaner is the kind of some found triple with the same pod
    and name. *)
Theorem GetCurrentVolumes_identity {W : Type} (h : Handler W)
    (readDir : string → list FileInfo * option error) (Inv : W → Prop)
    (rootDir : string) (w : W) (podID kind name : string) :
  (∀ w d, Inv w → answer h (IoutilReadDir d) w = readDir d ∧
                  Inv (after h (IoutilReadDir d) w)) →
  (∀ w f a e, Inv w → Inv (after h (GlogErrorf f a e) w)) →
  Inv w →
  (∀ d, Forall (fun fi => plain_name (fi_Name fi) = true) (readDir d).1) →
  (podID, kind, name) ∈ found_triples readDir rootDir →
  kind = "empty" ∨ kind = "gce-pd" →
  ∃ c kind',
    result (run h (GetCurrentVolumes rootDir) w) !! (podID +:+ "/" +:+ name) =
      Some (Some c) ∧
    Cleaner_identity c = (rootDir, podID, name) ∧
    (podID, kind', name) ∈ found_triples readDir rootDir ∧
    CreateVolumeCleaner kind' name podID rootDir = (Some c, None).
Proof.
  intros Hread Hlog Hw Hplain Hin Hk.
  destruct (GetCurrentVolumes_fold h readDir Inv Hread Hlog rootDir w Hw)
    as [-> _].
  destruct (found_triples_plain _ _ _ _ _ Hplain Hin) as (Hp & _ & Hn).
  rewrite <- (Join_two_names podID name Hp Hn).
  destruct (fold_record_found rootDir _ ∅ podID kind name Hin Hk) as [c Hc].
  exists c.
  destruct (fold_record_lookup _ _ _ _ _ Hc) as [Hc'|(t & c' & Ht & Hkey & Hv & Hk' & Hmk)].
  { by rewrite lookup_empty in Hc'. }
  destruct t as [[p' k'] n']. cbn [fst snd] in *.
  destruct (found_triples_plain _ _ _ _ _ Hplain Ht) as (Hp' & _ & Hn').
  apply identifier_inj in Hkey as [-> ->]; [|done..].
  injection Hv as <-. exists k'. split; [done|]. split; [|done].
  unfold CreateVolumeCleaner in Hmk.
  destruct (String.eqb k' "empty"); [by injection Hmk as <-|].
  destruct (String.eqb k' "gce-pd"); [by injection Hmk as <-|done].
Qed.

Lemma table_lookup_plain table d :
  Forall (fun de => Forall (fun fi => plain_name (fi_Name fi) = true) de.2) table →
  Forall (fun fi => plain_name (fi_Name fi) = true) (table_lookup table d).1.
Proof.
  induction 1 as [|[d' entries] table Hd _ IH]; cbn [table_lookup]; [done|].
  by destruct (String.eqb d' d).
Qed.

Lemma GetCurrentVolumes_identity_witness :
  ∃ c kind',
    result (run (table_handler collision_table)
                (GetCurrentVolumes "/var/lib/kubelet") []) !! "p/x" =
      Some (Some c) ∧
    Cleaner_identity c = ("/var/lib/kubelet", "p", "x") ∧
    ("p", kind', "x") ∈
      found_triples (table_lookup collision_table) "/var/lib/kubelet" ∧
    CreateVolumeCleaner kind' "x" "p" "/var/lib/kubelet" = (Some c, None).
Proof.
  apply (GetCurrentVolumes_identity (table_handler collision_table)
           (table_lookup collision_table) (fun _ => True) "/var/lib/kubelet" []
           "p" "empty" "x").
  - by intros w d _.
  - by intros.
  - done.
  - intros d. apply table_lookup_plain. repeat constructor.
  - vm_compute. apply list_elem_of_here.
  - by left.
Defined.

(** X13.  A cleaner made from what the scan finds points at the directory it
    was found in: for a root directory in clean form, plain names and a
    recognized kind, the canonical path of the cleaner
    [CreateVolumeCleaner] returns is the directory the scan listed, joined
    level by level as the scan joins it, and that is the string
    [rootDir/podID/volumes/kind/name]. *)
Theorem cleaner_path_is_scanned_directory (rooted : bool) (dirs : list string)
    (podID kind name : string) :
  dirs ≠ [] → Forall (fun n => plain_name n = true) dirs →
  plain_name podID = true → plain_name name = true →
  kind = "empty" ∨ kind = "gce-pd" →
  let rootDir := dir_path rooted dirs in
  let podIDPath := path.Join [rootDir; podID; "volumes"] in
  let volumeKindPath := path.Join [podIDPath; kind] in
  ∃ c, CreateVolumeCleaner kind name podID rootDir = (Some c, None) ∧
       Cleaner_GetPath c = path.Join [volumeKindPath; name] ∧
       Cleaner_GetPath c =
         rootDir +:+ "/" +:+ podID +:+ "/volumes/" +:+ kind +:+ "/" +:+ name.
Proof.
  intros Hne Hall Hp Hn Hk rootDir podIDPath volumeKindPath.
  subst volumeKindPath podIDPath rootDir.
  assert (Hkind : plain_name kind = true) by (by destruct Hk as [-> | ->]).
  assert (H1 : Forall (fun n => plain_name n = true)
                  (dirs ++ [podID; "volumes"])).
  { apply Forall_app. split; [done|]. by repeat constructor. }
  assert (H2 : Forall (fun n => plain_name n = true)
                  ((dirs ++ [podID; "volumes"]) ++ [kind])).
  { apply Forall_app. split; [done|]. by repeat constructor. }
  rewrite (Join_extends rooted dirs [podID; "volumes"]);
    [|done|done|done|by repeat constructor].
  rewrite (Join_extends rooted _ [kind]);
    [|by destruct dirs|done|done|by repeat constructor].
  rewrite (Join_extends rooted _ [name]);
    [|by destruct dirs|done|done|by repeat constructor].
  rewrite <- !app_assoc. cbn [app].
  destruct (GetPath_dir_path rooted dirs podID name Hne Hall Hp Hn) as [He Hd].
  destruct Hk as [-> | ->]; eexists; (split; [reflexivity|]).
  - cbn [Cleaner_GetPath]. rewrite He. split; [done|].
    unfold dir_path. rewrite strings_Join_app by done. string_eq.
  - cbn [Cleaner_GetPath]. rewrite Hd. split; [done|].
    unfold dir_path. rewrite strings_Join_app by done. string_eq.
Qed.

Lemma cleaner_path_is_scanned_directory_witness :
  Cleaner_GetPath (cleaner_PD "data" "pod-B" "/var/lib/kubelet") =
  "/var/lib/kubelet/pod-B/volumes/gce-pd/data".
Proof.
  destruct (cleaner_path_is_scanned_directory true ["var"; "lib"; "kubelet"]
              "pod-B" "gce-pd" "data")
    as (c & Hc & _ & Hpath);
    [done | repeat constructor | reflexivity | reflexivity | by right |].
  injection Hc as <-. exact Hpath.
Defined.

(** A slash at the end of the first element is absorbed by [Join]. *)
Lemma Join_root_trailing_slash (rooted : bool) (dirs more : list string) :
  dirs ≠ [] → Forall (fun n => plain_name n = true) dirs →
  more ≠ [] → Forall (fun n => plain_name n = true) more →
  path.Join ((dir_path rooted dirs +:+ "/") :: more) =
  path.Join (dir_path rooted dirs :: more).
Proof.
  intros Hne Hall Hm Hmall. rewrite (Join_extends rooted dirs more) by done.
  rewrite Join_nonempty_root.
  2:{ intros E. apply (f_equal list_ascii_of_string) in E.
      rewrite L_app in E. by destruct (list_ascii_of_string (dir_path _ _)). }
  rewrite <- (Clean_extra_slashes rooted dirs 1 more) by done.
  f_equal. apply L_inj. rewrite list_ascii_of_string_of_list_ascii.
  destruct more as [|m more]; [done|].
  change (path.strings_Join ((dir_path rooted dirs +:+ "/") :: m :: more) "/")
    with ((dir_path rooted dirs +:+ "/") +:+ "/" +:+
          path.strings_Join (m :: more) "/").
  rewrite !L_app, L_strings_Join by done. cbn [hd tail map].
  unfold tail_bytes. cbn [map concat replicate app].
  by rewrite <- !app_assoc.
Qed.

(** X14.  A trailing slash on the root directory changes nothing: for a root
    directory in clean form and plain names, the canonical paths and the
    global mount path computed from [rootDir/] are those computed from
    [rootDir]. *)
Theorem GetPath_trailing_slash (rooted : bool) (dirs : list string)
    (podID name : string) :
  dirs ≠ [] → Forall (fun n => plain_name n = true) dirs →
  plain_name podID = true → plain_name name = true →
  let rootDir := dir_path rooted dirs in
  EmptyDirectory_GetPath (mkEmptyDirectory name podID (rootDir +:+ "/")) =
    EmptyDirectory_GetPath (mkEmptyDirectory name podID rootDir) ∧
  (∀ PDName FSType Partition ReadOnly util mnt,
     GCEPersistentDisk_GetPath
       (mkGCEPersistentDisk name podID (rootDir +:+ "/") PDName FSType
                            Partition ReadOnly util mnt) =
     GCEPersistentDisk_GetPath
       (mkGCEPersistentDisk name podID rootDir PDName FSType Partition
                            ReadOnly util mnt)) ∧
  makeGlobalPDName (rootDir +:+ "/") name = makeGlobalPDName rootDir name.
Proof.
  intros Hne Hall Hp Hn rootDir. subst rootDir.
  pose proof (Join_root_trailing_slash rooted dirs) as Hslash.
  unfold EmptyDirectory_GetPath, GCEPersistentDisk_GetPath, makeGlobalPDName.
  cbn [EmptyDirectory_RootDir EmptyDirectory_PodID EmptyDirectory_Name
       GCEPersistentDisk_RootDir GCEPersistentDisk_PodID GCEPersistentDisk_Name].
  repeat split; intros; apply Hslash; try done; by repeat constructor.
Qed.

Lemma GetPath_trailing_slash_witness :
  EmptyDirectory_GetPath (mkEmptyDirectory "cache" "pod-A" "/var/lib/kubelet/") =
  EmptyDirectory_GetPath example_empty.
Proof.
  exact (proj1 (GetPath_trailing_slash true ["var"; "lib"; "kubelet"]
                  "pod-A" "cache" ltac:(done) ltac:(repeat constructor)
                  eq_refl eq_refl)).
Defined.

(** ** The partition of a persistent disk *)

Lemma to_int_proper (z : Z) :
  Z.to_int z ≠ Decimal.Pos Decimal.Nil ∧ Z.to_int z ≠ Decimal.Neg Decimal.Nil.
Proof.
  split; intros E; pose proof (f_equal Z.of_int E) as E';
    rewrite DecimalZ.of_to in E'; cbn in E'; subst z; discriminate.
Qed.

(** [strconv.Itoa] can be read back. *)
Lemma Itoa_inj (a b : Z) : Itoa a = Itoa b → a = b.
Proof.
  unfold Itoa. intros E.
  destruct (to_int_proper a) as [Ha1 Ha2], (to_int_proper b) as [Hb1 Hb2].
  pose proof (NilZero.isi _ Ha1 Ha2) as Ia.
  pose proof (NilZero.isi _ Hb1 Hb2) as Ib.
  rewrite E, Ib in Ia. injection Ia as Ia. by apply DecimalZ.to_int_inj.
Qed.

Lemma Itoa_nonempty (a : Z) : Itoa a ≠ "".
Proof.
  unfold Itoa. intros E. destruct (to_int_proper a) as [Ha1 Ha2].
  pose proof (NilZero.isi _ Ha1 Ha2) as Ia. by rewrite E in Ia.
Qed.

(** X15.  The partition of a persistent disk is its number in decimal, with
    0 written as the empty string, and nothing is lost: the partition string
    is empty exactly for partition 0, it is [strconv.Itoa] of any other
    number, and two specifications get the same partition string only when
    their partition numbers are equal. *)
Theorem createGCEPersistentDisk_partition (name podID rootDir : string)
    (h1 h2 : option api.HostDirectory) (e1 e2 : option api.EmptyDirectory)
    (pd1 pd2 : api.GCEPersistentDisk) (v1 v2 : GCEPersistentDisk) :
  createGCEPersistentDisk
    (api.mkVolume name (Some (api.mkVolumeSource h1 e1 (Some pd1))))
    podID rootDir = Some (v1, None) →
  createGCEPersistentDisk
    (api.mkVolume name (Some (api.mkVolumeSource h2 e2 (Some pd2))))
    podID rootDir = Some (v2, None) →
  (GCEPersistentDisk_Partition v1 = "" ↔ api.Partition pd1 = 0%Z) ∧
  (api.Partition pd1 ≠ 0%Z →
   GCEPersistentDisk_Partition v1 = Itoa (api.Partition pd1)) ∧
  (GCEPersistentDisk_Partition v1 = GCEPersistentDisk_Partition v2 →
   api.Partition pd1 = api.Partition pd2).
Proof.
  unfold createGCEPersistentDisk. cbn. intros [= <-] [= <-]. cbn.
  assert (Hz : ∀ n, String.eqb (Itoa n) "0" = true ↔ n = 0%Z).
  { intros n. rewrite String.eqb_eq. split; [|by intros ->].
    intros E. by apply (Itoa_inj n 0). }
  assert (Hp : ∀ n, (if String.eqb (Itoa n) "0" then "" else Itoa n) = "" ↔
                    n = 0%Z).
  { intros n. destruct (String.eqb (Itoa n) "0") eqn:E.
    - split; [|done]. intros _. by apply Hz.
    - split; [intros E'; by apply Itoa_nonempty in E'|].
      intros ->. by rewrite (proj2 (Hz 0%Z) eq_refl) in E. }
  split; [apply Hp|]. split.
  - intros Hne. destruct (String.eqb (Itoa _) "0") eqn:E; [|done].
    by apply Hz in E.
  - destruct (String.eqb (Itoa (api.Partition pd1)) "0") eqn:E1,
             (String.eqb (Itoa (api.Partition pd2)) "0") eqn:E2.
    + intros _. apply Hz in E1, E2. congruence.
    + intros E. symmetry in E. by apply Itoa_nonempty in E.
    + intros E. by apply Itoa_nonempty in E.
    + apply Itoa_inj.
Qed.

Lemma createGCEPersistentDisk_partition_witness :
  GCEPersistentDisk_Partition
    (mkGCEPersistentDisk "data" "pod-A" "/var/lib/kubelet" "disk-1" "ext4" "3"
                         false GCEDiskUtil DiskMounter) = Itoa 3.
Proof.
  exact (proj1 (proj2 (createGCEPersistentDisk_partition
                         "data" "pod-A" "/var/lib/kubelet" None None None None
                         (api.mkGCEPersistentDisk "disk-1" "ext4" 3 false)
                         (api.mkGCEPersistentDisk "disk-1" "ext4" 3 false)
                         _ _ eq_refl eq_refl))
               ltac:(discriminate)).
Defined.

(** ** The older package [volumes]: the factory *)

(** X16.  [CreateVolume] of the older package knows the one type tag "HOST",
    compared as written: for it, it returns a volume whose path is the path
    of the specification (what [TestCreateVolumes] checks on one volume) and
    whose [Mount] and [UnMount] call nothing; for every other tag it returns
    no volume and the error "Unsupported volume type.". *)
Theorem CreateVolume_host_only (volume : volumes_factory.Volume) :
  (volumes_factory.Type' volume = "HOST" →
   ∃ v, volumes_factory.CreateVolume volume = (Some v, None) ∧
        volumes_factory.ExternalVolume_GetPath v = volumes_factory.Path volume ∧
        (∀ (W : Type) (h : Handler W) (w : W),
           run h (volumes_factory.ExternalVolume_Mount v) w = (tt, w, []) ∧
           run h (volumes_factory.ExternalVolume_UnMount v) w = (tt, w, []))) ∧
  (volumes_factory.Type' volume ≠ "HOST" →
   volumes_factory.CreateVolume volume =
   (None, Some (ErrExternal "Unsupported volume type."))).
Proof.
  unfold volumes_factory.CreateVolume. split.
  - intros ->. cbn. eexists. by repeat split.
  - intros Hne. by rewrite (proj2 (String.eqb_neq _ _) Hne).
Qed.

Lemma CreateVolume_host_only_witness :
  (∃ v, volumes_factory.CreateVolume
          (volumes_factory.mkVolume "host-dir" "HOST" "/dir/path") = (Some v, None) ∧
        volumes_factory.ExternalVolume_GetPath v = "/dir/path") ∧
  volumes_factory.CreateVolume
    (volumes_factory.mkVolume "host-dir" "host" "/dir/path") =
  (None, Some (ErrExternal "Unsupported volume type.")).
Proof.
  split.
  - destruct (proj1 (CreateVolume_host_only
                       (volumes_factory.mkVolume "host-dir" "HOST" "/dir/path"))
                    eq_refl) as (v & Hv & Hp & _).
    exists v. by split.
  - exact (proj2 (CreateVolume_host_only
                    (volumes_factory.mkVolume "host-dir" "host" "/dir/path"))
                 ltac:(discriminate)).
Defined.

(** * Package [gce_cloud] *)

(** ** Searching and splitting strings *)

Section Strings.

Import strings.
Local Abbreviation L := list_ascii_of_string.

Lemma without_Forall c s :
  without c s = true → Forall (fun x => Ascii.eqb x c = false) (L s).
Proof.
  unfold without. rewrite forallb_forall. intros H. apply Forall_forall.
  intros x Hx. apply list_elem_of_In, H in Hx. by apply negb_true_iff.
Qed.

Lemma index_from_none i s c :
  Forall (fun x => Ascii.eqb x c = false) s → index_from i s c = (-1)%Z.
Proof.
  intros H. revert i. induction H as [|x s Hx _ IH]; intros i; [done|].
  cbn. by rewrite Hx.
Qed.

Lemma index_from_first i a b c :
  Forall (fun x => Ascii.eqb x c = false) a →
  index_from i (a ++ c :: b) c = (i + Z.of_nat (length a))%Z.
Proof.
  intros H. revert i. induction H as [|x s Hx _ IH]; intros i; cbn.
  - rewrite Ascii.eqb_refl. lia.
  - rewrite Hx, IH. lia.
Qed.

Lemma last_index_from_none i found s c :
  Forall (fun x => Ascii.eqb x c = false) s →
  last_index_from i found s c = found.
Proof.
  intros H. revert i. induction H as [|x s Hx _ IH]; intros i; [done|].
  cbn. by rewrite Hx.
Qed.

Lemma last_index_from_last i found a b c :
  Forall (fun x => Ascii.eqb x c = false) b →
  last_index_from i found (a ++ c :: b) c = (i + Z.of_nat (length a))%Z.
Proof.
  intros H. revert i found. induction a as [|x a IH]; intros i found; cbn.
  - rewrite Ascii.eqb_refl, last_index_from_none by done. lia.
  - rewrite IH. lia.
Qed.

Lemma split_bytes_one s c :
  Forall (fun x => Ascii.eqb x c = false) s → split_bytes s c = [s].
Proof.
  induction 1 as [|x s Hx _ IH]; [done|]. cbn. by rewrite Hx, IH.
Qed.

Lemma split_bytes_first a b c :
  Forall (fun x => Ascii.eqb x c = false) a →
  split_bytes (a ++ c :: b) c = a :: split_bytes b c.
Proof.
  induction 1 as [|x s Hx _ IH]; cbn.
  - by rewrite Ascii.eqb_refl.
  - by rewrite Hx, IH.
Qed.

(** [Split] gives one more part than there are separators. *)
Lemma split_bytes_length s c :
  length (split_bytes s c) = S (count_occ ascii_dec s c).
Proof.
  induction s as [|x s IH]; [done|]. cbn [split_bytes count_occ].
  destruct (Ascii.eqb x c) eqn:E.
  - apply Ascii.eqb_eq in E. subst x.
    destruct (ascii_dec c c); [|done]. cbn. by rewrite IH.
  - apply Ascii.eqb_neq in E. destruct (ascii_dec x c); [done|].
    destruct (split_bytes s c); [done|]. cbn in *. done.
Qed.

Lemma slice_to_prefix a b :
  slice_to (a +:+ b) (Z.of_nat (length (L a))) = a.
Proof.
  unfold slice_to. rewrite Nat2Z.id, L_app, take_app_length.
  apply string_of_list_ascii_of_string.
Qed.

Lemma Index_first a b c :
  without c a = true →
  Index (a +:+ String c b) c = Z.of_nat (length (L a)).
Proof.
  intros H. unfold Index. rewrite L_app. cbn [list_ascii_of_string].
  by rewrite index_from_first; [|apply without_Forall].
Qed.

Lemma Index_none a c : without c a = true → Index a c = (-1)%Z.
Proof. intros H. by apply index_from_none, without_Forall. Qed.

Lemma LastIndex_last a b c :
  without c b = true →
  LastIndex (a +:+ String c b) c = Z.of_nat (length (L a)).
Proof.
  intros H. unfold LastIndex. rewrite L_app. cbn [list_ascii_of_string].
  by rewrite last_index_from_last; [|apply without_Forall].
Qed.

Lemma LastIndex_none a c : without c a = true → LastIndex a c = (-1)%Z.
Proof. intros H. by apply last_index_from_none, without_Forall. Qed.

Lemma Split_one a c : without c a = true → Split a c = [a].
Proof.
  intros H. unfold Split. rewrite split_bytes_one by by apply without_Forall.
  cbn. by rewrite string_of_list_ascii_of_string.
Qed.

Lemma Split_first a b c :
  without c a = true → Split (a +:+ String c b) c = a :: Split b c.
Proof.
  intros H. unfold Split. rewrite L_app. cbn [list_ascii_of_string].
  rewrite split_bytes_first by by apply without_Forall.
  cbn. by rewrite string_of_list_ascii_of_string.
Qed.

Lemma Split_length s c :
  length (Split s c) = S (count_occ ascii_dec (L s) c).
Proof. unfold Split. by rewrite length_map, split_bytes_length. Qed.

End Strings.

(** ** Zones and host links *)

(** X17.  The region of a zone is everything before its last dash: for a
    zone [region-ix] whose last part [ix] has no dash, [getGceRegion]
    returns [region], itself possibly with dashes, and [GetZone] the zone as
    failure domain with that region; for a zone without any dash both fail
    with "unexpected zone: " and the zone, and [GetZone] returns the empty
    [Zone]. *)
Theorem getGceRegion_last_dash (gce : gce_cloud.GCECloud) :
  (∀ region ix,
     without "-" ix = true →
     gce_cloud.zone gce = region +:+ "-" +:+ ix →
     gce_cloud.getGceRegion (gce_cloud.zone gce) = (region, None) ∧
     gce_cloud.GetZone gce =
       (gce_cloud.mkZone (gce_cloud.zone gce) region, None)) ∧
  (without "-" (gce_cloud.zone gce) = true →
   let err := ErrExternal ("unexpected zone: " +:+ gce_cloud.zone gce) in
   gce_cloud.getGceRegion (gce_cloud.zone gce) = ("", Some err) ∧
   gce_cloud.GetZone gce = (gce_cloud.mkZone "" "", Some err)).
Proof.
  split.
  - intros region ix Hix Hz.
    assert (E : gce_cloud.getGceRegion (gce_cloud.zone gce) = (region, None)).
    { rewrite Hz. unfold gce_cloud.getGceRegion.
      change (region +:+ "-" +:+ ix) with (region +:+ String "-" ix).
      rewrite LastIndex_last by done.
      destruct (Z.eqb_spec (Z.of_nat (length (list_ascii_of_string region)))
                           (-1)); [lia|].
      by rewrite slice_to_prefix. }
    split; [done|]. unfold gce_cloud.GetZone. by rewrite E.
  - intros Hz err.
    assert (E : gce_cloud.getGceRegion (gce_cloud.zone gce) = ("", Some err)).
    { unfold gce_cloud.getGceRegion. by rewrite LastIndex_none. }
    split; [done|]. unfold gce_cloud.GetZone. by rewrite E.
Qed.

Lemma getGceRegion_last_dash_witness :
  gce_cloud.GetZone (gce_cloud.mkGCECloud "proj" "us-central1-b" "minion-1") =
    (gce_cloud.mkZone "us-central1-b" "us-central1", None) ∧
  gce_cloud.GetZone (gce_cloud.mkGCECloud "proj" "nowhere" "minion-1") =
    (gce_cloud.mkZone "" "", Some (ErrExternal "unexpected zone: nowhere")).
Proof.
  split.
  - exact (proj2 (proj1 (getGceRegion_last_dash
                           (gce_cloud.mkGCECloud "proj" "us-central1-b" "minion-1"))
                        "us-central1" "b" eq_refl eq_refl)).
  - exact (proj2 (proj2 (getGceRegion_last_dash
                           (gce_cloud.mkGCECloud "proj" "nowhere" "minion-1"))
                        eq_refl)).
Defined.

(** X18.  A host link names the instance by the first label of the host: a
    fully qualified name and its first label alone give the same link, and
    that link is the instances URL of project, zone and label. *)
Theorem makeHostLink_short_name (projectID zone label rest : string) :
  without "." label = true →
  gce_cloud.makeHostLink projectID zone (label +:+ "." +:+ rest) =
    gce_cloud.makeHostLink projectID zone label ∧
  gce_cloud.makeHostLink projectID zone label =
    "https://www.googleapis.com/compute/v1/projects/" +:+ projectID +:+
    "/zones/" +:+ zone +:+ "/instances/" +:+ label.
Proof.
  intros Hl. unfold gce_cloud.makeHostLink.
  change (label +:+ "." +:+ rest) with (label +:+ String "." rest).
  rewrite Index_first, Index_none by done.
  destruct (Z.eqb_spec (Z.of_nat (length (list_ascii_of_string label))) (-1));
    [lia|].
  cbn [negb]. by rewrite slice_to_prefix.
Qed.

Lemma makeHostLink_short_name_witness :
  gce_cloud.makeHostLink "proj" "us-central1-b" "minion-1.c.proj.internal" =
  "https://www.googleapis.com/compute/v1/projects/proj/zones/us-central1-b/instances/minion-1".
Proof.
  destruct (makeHostLink_short_name "proj" "us-central1-b" "minion-1"
              "c.proj.internal" eq_refl) as [E1 E2].
  exact (eq_trans E1 E2).
Defined.

(** ** Running against a server *)

Section Serving.

Import gce_cloud.
Context {W : Type} (h : Server W).

Lemma serve_Ask {A X : Type} (c : Request X) (k : X → Api A) (w : W) :
  serve h (Ask c k) w =
  let r := serve h (k (reply h c w)) (next h c w) in
  (r.1.1, r.1.2, Req c (reply h c w) :: r.2).
Proof.
  unfold reply, next. simpl. destruct (h X c w) as [x w1]. simpl.
  by destruct (serve h (k x) w1) as [[a w2] tr].
Qed.

Lemma serve_then {A B : Type} (p : Api A) (f : A → Api B) (w : W) :
  serve h (Api_then p f) w =
  let r1 := serve h p w in
  let r2 := serve h (f r1.1.1) r1.1.2 in
  (r2.1.1, r2.1.2, r1.2 ++ r2.2).
Proof.
  revert w. induction p as [a|X c k IH]; intros w.
  - simpl. by destruct (serve h (f a) w) as [[b w2] tr].
  - change (Api_then (Ask c k) f) with (Ask c (fun x => Api_then (k x) f)).
    rewrite !serve_Ask, IH. reflexivity.
Qed.

End Serving.

(** ** The metadata server *)

(** X19.  [getMetadata] closes the response body exactly when it has one:
    under every server it first builds a GET request for the URL, sends it
    with the header [X-Google-Metadata-Request: True], and closes the body
    once if and only if both steps succeeded, also when reading the body
    fails.  Whenever it returns an error, the string it returns is empty. *)
Theorem getMetadata_closes_body {W : Type} (h : gce_cloud.Server W) (w : W)
    (url : string) :
  let nr := gce_cloud.HttpNewRequest "GET" url in
  let w1 := gce_cloud.next h nr w in
  let cd := gce_cloud.ClientDo "GET" url [("X-Google-Metadata-Request", "True")] in
  let r := gce_cloud.serve h (gce_cloud.getMetadata url) w in
  head r.2 = Some (gce_cloud.Req nr (gce_cloud.reply h nr w)) ∧
  length (filter (fun x => gce_cloud.is_BodyClose x = true) r.2) =
    (if gce_cloud.reply h nr w is None
     then if gce_cloud.reply h cd w1 is None then 1 else 0
     else 0) ∧
  (gce_cloud.reply h nr w = None →
   r.2 !! 1 = Some (gce_cloud.Req cd (gce_cloud.reply h cd w1))) ∧
  (r.1.1.2 ≠ None → r.1.1.1 = "").
Proof.
  cbn zeta. unfold gce_cloud.getMetadata, mbind, gce_cloud.Api_bind, gce_cloud.ask.
  cbn [gce_cloud.Api_then]. rewrite serve_Ask. cbn zeta.
  destruct (gce_cloud.reply h (gce_cloud.HttpNewRequest "GET" url) w) as [e|];
    [by cbn|].
  cbn [gce_cloud.Api_then]. rewrite serve_Ask. cbn zeta.
  destruct (gce_cloud.reply h (gce_cloud.ClientDo _ _ _) _) as [e|]; [by cbn|].
  cbn [gce_cloud.Api_then]. rewrite serve_Ask. cbn zeta.
  destruct (gce_cloud.reply h gce_cloud.IoutilReadAll _) as [data [e|]];
    cbn [gce_cloud.Api_then]; rewrite serve_Ask; by cbn.
Qed.

(** X20.  [getProjectAndZone] makes the requests of [getMetadata] for the
    zone URL and reads the answer by its slashes: an error of the request is
    returned as it is; a body of four parts [a/b/c/d] gives project [b] and
    zone [d], whatever [a] and [c] are; a body whose number of slashes is
    not three gives the error "Unexpected response: " and the body. *)
Theorem getProjectAndZone_parse {W : Type} (h : gce_cloud.Server W) (w : W) :
  let m := gce_cloud.serve h (gce_cloud.getMetadata gce_cloud.zone_url) w in
  let r := gce_cloud.serve h gce_cloud.getProjectAndZone w in
  r.2 = m.2 ∧ r.1.2 = m.1.2 ∧
  (∀ e, m.1.1.2 = Some e → r.1.1 = ("", "", Some e)) ∧
  (m.1.1.2 = None →
   (∀ a b c d,
      without "/" a = true → without "/" b = true →
      without "/" c = true → without "/" d = true →
      m.1.1.1 = a +:+ "/" +:+ b +:+ "/" +:+ c +:+ "/" +:+ d →
      r.1.1 = (b, d, None)) ∧
   (count_occ ascii_dec (list_ascii_of_string m.1.1.1) "/"%char ≠ 3 →
    r.1.1 = ("", "", Some (ErrExternal ("Unexpected response: " +:+ m.1.1.1))))).
Proof.
  cbn zeta. unfold gce_cloud.getProjectAndZone, mbind, gce_cloud.Api_bind.
  change "http://metadata/computeMetadata/v1/instance/zone"
    with gce_cloud.zone_url.
  rewrite serve_then. cbn zeta.
  destruct (gce_cloud.serve h (gce_cloud.getMetadata gce_cloud.zone_url) w)
    as [[[body err] w'] tr].
  cbn [fst snd]. destruct err as [e|].
  { cbn. rewrite app_nil_r.
    split; [done|split; [done|split; [by intros ? [= ->]|done]]]. }
  assert (Hlen := Split_length body "/").
  destruct (negb (length (strings.Split body "/") =? 4)) eqn:E4;
    cbn; rewrite app_nil_r; (split; [done|split; [done|split; [done|]]]);
    intros _; split.
  - intros a b c d Ha Hb Hc Hd ->. exfalso.
    apply negb_true_iff, Nat.eqb_neq in E4. apply E4.
    change (a +:+ "/" +:+ b +:+ "/" +:+ c +:+ "/" +:+ d) with
      (a +:+ String "/" (b +:+ String "/" (c +:+ String "/" d))).
    by rewrite !Split_first, Split_one.
  - done.
  - intros a b c d Ha Hb Hc Hd ->.
    change (a +:+ "/" +:+ b +:+ "/" +:+ c +:+ "/" +:+ d) with
      (a +:+ String "/" (b +:+ String "/" (c +:+ String "/" d))).
    by rewrite !Split_first, Split_one.
  - intros Hc. apply negb_false_iff, Nat.eqb_eq in E4. lia.
Qed.

Lemma getMetadata_closes_body_witness :
  let r := gce_cloud.serve (gce_cloud.metadata_server []) 
             (gce_cloud.getMetadata gce_cloud.zone_url) "" in
  r.2 !! 1 =
    Some (gce_cloud.Req
            (gce_cloud.ClientDo "GET" gce_cloud.zone_url
               [("X-Google-Metadata-Request", "True")]) None).
Proof.
  exact (proj1 (proj2 (proj2 (getMetadata_closes_body
                                (gce_cloud.metadata_server []) ""
                                gce_cloud.zone_url))) eq_refl).
Defined.

Lemma getProjectAndZone_parse_witness :
  (gce_cloud.serve
     (gce_cloud.metadata_server
        [(gce_cloud.zone_url, "projects/1234/zones/us-central1-b")])
     gce_cloud.getProjectAndZone "").1.1 = ("1234", "us-central1-b", None).
Proof.
  exact (proj1 (proj2 (proj2 (proj2 (getProjectAndZone_parse
           (gce_cloud.metadata_server
              [(gce_cloud.zone_url, "projects/1234/zones/us-central1-b")]) "")))
           eq_refl)
         "projects" "1234" "zones" "us-central1-b"
         eq_refl eq_refl eq_refl eq_refl eq_refl).
Defined.

(** X21.  [getInstanceID] makes the requests of [getMetadata] for the
    hostname URL and fails only when that request fails: its error is the
    error of [getMetadata], so the "Unexpected response" branch is never
    taken, not even for an empty body.  Of a body [label.rest] it returns
    the first label, of a body without a dot the whole body. *)
Theorem getInstanceID_first_label {W : Type} (h : gce_cloud.Server W) (w : W) :
  let m := gce_cloud.serve h (gce_cloud.getMetadata gce_cloud.hostname_url) w in
  let r := gce_cloud.serve h gce_cloud.getInstanceID w in
  r.2 = m.2 ∧ r.1.2 = m.1.2 ∧ r.1.1.2 = m.1.1.2 ∧
  (m.1.1.2 ≠ None → r.1.1.1 = "") ∧
  (m.1.1.2 = None →
   (∀ label rest,
      without "." label = true → m.1.1.1 = label +:+ "." +:+ rest →
      r.1.1.1 = label) ∧
   (without "." m.1.1.1 = true → r.1.1.1 = m.1.1.1)).
Proof.
  cbn zeta. unfold gce_cloud.getInstanceID, mbind, gce_cloud.Api_bind.
  change "http://metadata/computeMetadata/v1/instance/hostname"
    with gce_cloud.hostname_url.
  rewrite serve_then. cbn zeta.
  destruct (gce_cloud.serve h (gce_cloud.getMetadata gce_cloud.hostname_url) w)
    as [[[body err] w'] tr].
  cbn [fst snd]. destruct err as [e|].
  { cbn. rewrite app_nil_r. by repeat (split; [done|]). }
  assert (Hlen := Split_length body ".").
  destruct (length (strings.Split body ".") =? 0) eqn:E0.
  { apply Nat.eqb_eq in E0. lia. }
  cbn. rewrite app_nil_r.
  split; [done|split; [done|split; [done|split; [done|]]]].
  intros _. split.
  - intros label rest Hl ->.
    change (label +:+ "." +:+ rest) with (label +:+ String "." rest).
    by rewrite Split_first.
  - intros Hb. by rewrite Split_one.
Qed.

Lemma getInstanceID_first_label_witness :
  (gce_cloud.serve
     (gce_cloud.metadata_server
        [(gce_cloud.hostname_url, "minion-1.c.proj.internal")])
     gce_cloud.getInstanceID "").1.1 = ("minion-1", None).
Proof.
  pose proof (getInstanceID_first_label
                (gce_cloud.metadata_server
                   [(gce_cloud.hostname_url, "minion-1.c.proj.internal")]) "")
    as (_ & _ & He & _ & Hl).
  destruct (Hl eq_refl) as [Hl' _].
  specialize (Hl' "minion-1" "c.proj.internal" eq_refl eq_refl).
  cbn zeta in He, Hl'.
  destruct (gce_cloud.serve _ gce_cloud.getInstanceID "") as [[[i e] w] tr].
  cbn in *. by subst.
Defined.

(** ** Disks *)

(** The source of an attached disk is the URL of the disk. *)
Lemma convertDiskToAttachedDisk_Source (gce : gce_cloud.GCECloud)
    (disk : gce_cloud.compute.Disk) (readWrite : string) :
  plain_name (gce_cloud.projectID gce) = true →
  plain_name (gce_cloud.zone gce) = true →
  plain_name (gce_cloud.compute.Disk_Name disk) = true →
  gce_cloud.compute.Source
    (gce_cloud.convertDiskToAttachedDisk gce disk readWrite) =
  "https://www.googleapis.com/compute/v1/projects/" +:+
  gce_cloud.projectID gce +:+ "/zones/" +:+ gce_cloud.zone gce +:+
  "/disks/" +:+ gce_cloud.compute.Disk_Name disk.
Proof.
  intros Hp Hz Hd.
  unfold gce_cloud.convertDiskToAttachedDisk. cbn [gce_cloud.compute.Source].
  change "www.googleapis.com/compute/v1/projects/" with
    (dir_path false ["www.googleapis.com"; "compute"; "v1"; "projects"] +:+ "/").
  rewrite Join_root_trailing_slash, Join_dir_path;
    [|done|by repeat constructor|done|by repeat constructor
     |done|by repeat constructor|done|by repeat constructor].
  apply L_inj. cbn [path.strings_Join dir_path].
  rewrite !L_app. cbn. by rewrite <- ?app_assoc.
Qed.

(** X22.  [AttachDisk] looks the disk up first and attaches what it found:
    under every server, an error of the lookup is returned with no attach
    request; otherwise there is exactly one attach request, for the
    instance of the cloud, of a persistent disk whose device name and kind
    are those of the disk found, whose mode is READ_ONLY exactly when
    [readOnly] is set and READ_WRITE otherwise, and whose source, for plain
    project, zone and disk names, is the disk's URL
    [https://www.googleapis.com/compute/v1/projects/P/zones/Z/disks/D]; the
    result is the answer to that request. *)
Theorem AttachDisk_steps {W : Type} (h : gce_cloud.Server W) (w : W)
    (gce : gce_cloud.GCECloud) (diskName : string) (readOnly : bool) :
  let dg := gce_cloud.DisksGet (gce_cloud.projectID gce) (gce_cloud.zone gce)
                               diskName in
  let disk := (gce_cloud.reply h dg w).1 in
  let w1 := gce_cloud.next h dg w in
  let r := gce_cloud.serve h (gce_cloud.AttachDisk gce diskName readOnly) w in
  (∀ e, (gce_cloud.reply h dg w).2 = Some e →
        r = (Some e, w1, [gce_cloud.Req dg (gce_cloud.reply h dg w)])) ∧
  ((gce_cloud.reply h dg w).2 = None →
   ∃ ad,
     let at_ := gce_cloud.InstancesAttachDisk
                  (gce_cloud.projectID gce) (gce_cloud.zone gce)
                  (gce_cloud.instanceID gce) ad in
     r = (gce_cloud.reply h at_ w1, gce_cloud.next h at_ w1,
          [gce_cloud.Req dg (gce_cloud.reply h dg w);
           gce_cloud.Req at_ (gce_cloud.reply h at_ w1)]) ∧
     gce_cloud.compute.DeviceName ad = gce_cloud.compute.Disk_Name disk ∧
     gce_cloud.compute.Kind ad = gce_cloud.compute.Disk_Kind disk ∧
     gce_cloud.compute.Type' ad = "PERSISTENT" ∧
     gce_cloud.compute.Mode ad =
       (if readOnly then "READ_ONLY" else "READ_WRITE") ∧
     (plain_name (gce_cloud.projectID gce) = true →
      plain_name (gce_cloud.zone gce) = true →
      plain_name (gce_cloud.compute.Disk_Name disk) = true →
      gce_cloud.compute.Source ad =
        "https://www.googleapis.com/compute/v1/projects/" +:+
        gce_cloud.projectID gce +:+ "/zones/" +:+ gce_cloud.zone gce +:+
        "/disks/" +:+ gce_cloud.compute.Disk_Name disk)).
Proof.
  cbn zeta.
  unfold gce_cloud.AttachDisk, gce_cloud.getDisk, mbind, gce_cloud.Api_bind,
    gce_cloud.ask.
  cbn [gce_cloud.Api_then]. rewrite serve_Ask. cbn zeta.
  destruct (gce_cloud.reply h (gce_cloud.DisksGet _ _ _) w) as [disk [e|]]
    eqn:Edg; cbn [fst snd].
  { split; [by intros ? [= ->]|done]. }
  split; [done|]. intros _.
  exists (gce_cloud.convertDiskToAttachedDisk gce disk
            (if readOnly then "READ_ONLY" else "READ_WRITE")).
  cbn zeta. rewrite serve_Ask.
  split; [reflexivity|]. do 4 (split; [reflexivity|]).
  apply convertDiskToAttachedDisk_Source.
Qed.

Lemma AttachDisk_steps_witness :
  ∃ ad,
    (gce_cloud.serve (gce_cloud.metadata_server [])
       (gce_cloud.AttachDisk (gce_cloud.mkGCECloud "proj" "us-central1-b" "minion-1")
                             "disk-1" true) "").2 =
    [gce_cloud.Req (gce_cloud.DisksGet "proj" "us-central1-b" "disk-1")
                   (gce_cloud.compute.mkDisk "disk-1" "compute#disk", None);
     gce_cloud.Req (gce_cloud.InstancesAttachDisk "proj" "us-central1-b"
                                                 "minion-1" ad) None] ∧
    gce_cloud.compute.Mode ad = "READ_ONLY" ∧
    gce_cloud.compute.Source ad =
    "https://www.googleapis.com/compute/v1/projects/proj/zones/us-central1-b/disks/disk-1".
Proof.
  destruct (proj2 (AttachDisk_steps (gce_cloud.metadata_server []) ""
                     (gce_cloud.mkGCECloud "proj" "us-central1-b" "minion-1")
                     "disk-1" true) eq_refl)
    as (ad & Hr & _ & _ & _ & Hm & Hs).
  exists ad. split; [by rewrite Hr|]. split; [done|].
  exact (Hs eq_refl eq_refl eq_refl).
Defined.

(** ** Load balancers *)

Lemma foldl_snoc_map {A B : Type} (f : A → B) (l : list A) (acc : list B) :
  foldl (fun acc x => acc ++ [f x]) acc l = acc ++ map f l.
Proof.
  revert acc. induction l as [|x l IH]; intros acc; cbn.
  - by rewrite app_nil_r.
  - by rewrite IH, <- app_assoc.
Qed.

(** X23.  [CreateTCPLoadBalancer] makes the target pool before the
    forwarding rule that points at it: under every server its first request
    inserts a pool of the given name with one instance link per host, in the
    order of the hosts; if that fails the error is returned and no rule is
    inserted; otherwise its second and last request inserts, in the same
    project and region, a TCP rule of the same name for the port in decimal,
    whose target is the URL of that pool, and the result is the answer to
    that request. *)
Theorem CreateTCPLoadBalancer_steps {W : Type} (h : gce_cloud.Server W) (w : W)
    (gce : gce_cloud.GCECloud) (name region : string) (port : Z)
    (hosts : list string) :
  let project := gce_cloud.projectID gce in
  let pool :=
    gce_cloud.compute.mkTargetPool name
      (map (gce_cloud.makeHostLink project (gce_cloud.zone gce)) hosts) in
  let ins := gce_cloud.TargetPoolsInsert project region pool in
  let w1 := gce_cloud.next h ins w in
  let rule :=
    gce_cloud.compute.mkForwardingRule name "TCP" (Itoa port)
      ("https://www.googleapis.com/compute/v1/projects/" +:+ project +:+
       "/regions/" +:+ region +:+ "/targetPools/" +:+ name) in
  let fr := gce_cloud.ForwardingRulesInsert project region rule in
  let r := gce_cloud.serve h
             (gce_cloud.CreateTCPLoadBalancer gce name region port hosts) w in
  (∀ e, gce_cloud.reply h ins w = Some e →
        r = (Some e, w1, [gce_cloud.Req ins (Some e)])) ∧
  (gce_cloud.reply h ins w = None →
   r = (gce_cloud.reply h fr w1, gce_cloud.next h fr w1,
        [gce_cloud.Req ins None; gce_cloud.Req fr (gce_cloud.reply h fr w1)])).
Proof.
  cbn zeta.
  unfold gce_cloud.CreateTCPLoadBalancer, gce_cloud.makeTargetPool, mbind,
    gce_cloud.Api_bind, gce_cloud.ask.
  rewrite foldl_snoc_map. cbn [app gce_cloud.Api_then].
  rewrite serve_Ask. cbn zeta.
  destruct (gce_cloud.reply h (gce_cloud.TargetPoolsInsert _ _ _) w) as [e|].
  { split; [by intros ? [= ->]|done]. }
  split; [done|]. intros _. cbn [gce_cloud.Api_then mret gce_cloud.Api_ret].
  by rewrite serve_Ask.
Qed.

Lemma CreateTCPLoadBalancer_steps_witness :
  (gce_cloud.serve (gce_cloud.metadata_server [])
     (gce_cloud.CreateTCPLoadBalancer
        (gce_cloud.mkGCECloud "proj" "us-central1-b" "minion-1")
        "lb" "us-central1" 80 ["minion-1.c.proj.internal"; "minion-2"]) "").2 =
  [gce_cloud.Req
     (gce_cloud.TargetPoolsInsert "proj" "us-central1"
        (gce_cloud.compute.mkTargetPool "lb"
           ["https://www.googleapis.com/compute/v1/projects/proj/zones/us-central1-b/instances/minion-1";
            "https://www.googleapis.com/compute/v1/projects/proj/zones/us-central1-b/instances/minion-2"]))
     None;
   gce_cloud.Req
     (gce_cloud.ForwardingRulesInsert "proj" "us-central1"
        (gce_cloud.compute.mkForwardingRule "lb" "TCP" "80"
           "https://www.googleapis.com/compute/v1/projects/proj/regions/us-central1/targetPools/lb"))
     None].
Proof.
  exact (f_equal snd
           (proj2 (CreateTCPLoadBalancer_steps (gce_cloud.metadata_server []) ""
                     (gce_cloud.mkGCECloud "proj" "us-central1-b" "minion-1")
                     "lb" "us-central1" 80
                     ["minion-1.c.proj.internal"; "minion-2"]) eq_refl)).
Defined.

(** X24.  [DeleteTCPLoadBalancer] removes the forwarding rule before the
    target pool it points at, and keeps the pool when the rule could not be
    removed: under every server its first request deletes the rule; if that
    fails the error is returned and the pool is not touched; otherwise its
    second and last request deletes the pool of the same name, and the
    result is the answer to that request. *)
Theorem DeleteTCPLoadBalancer_steps {W : Type} (h : gce_cloud.Server W) (w : W)
    (gce : gce_cloud.GCECloud) (name region : string) :
  let project := gce_cloud.projectID gce in
  let fr := gce_cloud.ForwardingRulesDelete project region name in
  let w1 := gce_cloud.next h fr w in
  let tp := gce_cloud.TargetPoolsDelete project region name in
  let r := gce_cloud.serve h (gce_cloud.DeleteTCPLoadBalancer gce name region) w in
  (∀ e, gce_cloud.reply h fr w = Some e →
        r = (Some e, w1, [gce_cloud.Req fr (Some e)])) ∧
  (gce_cloud.reply h fr w = None →
   r = (gce_cloud.reply h tp w1, gce_cloud.next h tp w1,
        [gce_cloud.Req fr None; gce_cloud.Req tp (gce_cloud.reply h tp w1)])).
Proof.
  cbn zeta.
  unfold gce_cloud.DeleteTCPLoadBalancer, mbind, gce_cloud.Api_bind,
    gce_cloud.ask.
  cbn [gce_cloud.Api_then]. rewrite serve_Ask. cbn zeta.
  destruct (gce_cloud.reply h (gce_cloud.ForwardingRulesDelete _ _ _) w) as [e|].
  { split; [by intros ? [= ->]|done]. }
  split; [done|]. intros _. by rewrite serve_Ask.
Qed.

Lemma DeleteTCPLoadBalancer_steps_witness :
  (gce_cloud.serve (gce_cloud.metadata_server [])
     (gce_cloud.DeleteTCPLoadBalancer
        (gce_cloud.mkGCECloud "proj" "us-central1-b" "minion-1")
        "lb" "us-central1") "").2 =
  [gce_cloud.Req (gce_cloud.ForwardingRulesDelete "proj" "us-central1" "lb") None;
   gce_cloud.Req (gce_cloud.TargetPoolsDelete "proj" "us-central1" "lb") None].
Proof.
  exact (f_equal snd
           (proj2 (DeleteTCPLoadBalancer_steps (gce_cloud.metadata_server []) ""
                     (gce_cloud.mkGCECloud "proj" "us-central1-b" "minion-1")
                     "lb" "us-central1") eq_refl)).
Defined.

(** X25.  [TCPLoadBalancerExists] never reports that a load balancer
    exists: under every server it makes one request, for the forwarding
    rule of that name, and returns false with whatever error the request
    gave, also when the request succeeded. *)
Theorem TCPLoadBalancerExists_never_true {W : Type} (h : gce_cloud.Server W)
    (w : W) (gce : gce_cloud.GCECloud) (name region : string) :
  let get := gce_cloud.ForwardingRulesGet (gce_cloud.projectID gce) region name in
  gce_cloud.serve h (gce_cloud.TCPLoadBalancerExists gce name region) w =
  ((false, gce_cloud.reply h get w), gce_cloud.next h get w,
   [gce_cloud.Req get (gce_cloud.reply h get w)]).
Proof.
  cbn zeta. unfold gce_cloud.TCPLoadBalancerExists, mbind, gce_cloud.Api_bind,
    gce_cloud.ask.
  cbn [gce_cloud.Api_then]. by rewrite serve_Ask.
Qed.

(** ** Starting up *)

Lemma getMetadata_metadata_server pages url w :
  gce_cloud.serve (gce_cloud.metadata_server pages) (gce_cloud.getMetadata url) w =
  ((gce_cloud.page pages url, None), url,
   [gce_cloud.Req (gce_cloud.HttpNewRequest "GET" url) None;
    gce_cloud.Req (gce_cloud.ClientDo "GET" url
                     [("X-Google-Metadata-Request", "True")]) None;
    gce_cloud.Req gce_cloud.IoutilReadAll (gce_cloud.page pages url, None);
    gce_cloud.Req gce_cloud.BodyClose tt]).
Proof. reflexivity. Qed.

(** X26.  [NewGCECloud] learns who it is from the metadata server, the zone
    first: against a server that answers [a/P/c/Z] for the zone URL and
    [I.rest] for the hostname URL, it returns the cloud of project [P], zone
    [Z] and instance [I], after fetching the zone, then the hostname, then
    making the service-account client and the compute service; each body is
    closed before the next request. *)
Theorem NewGCECloud_from_metadata (pages : list (string * string))
    (a P c Z I rest w : string) :
  without "/" a = true → without "/" P = true →
  without "/" c = true → without "/" Z = true →
  without "." I = true →
  gce_cloud.page pages gce_cloud.zone_url =
    a +:+ "/" +:+ P +:+ "/" +:+ c +:+ "/" +:+ Z →
  gce_cloud.page pages gce_cloud.hostname_url = I +:+ "." +:+ rest →
  let r := gce_cloud.serve (gce_cloud.metadata_server pages)
             gce_cloud.NewGCECloud w in
  r.1.1 = (Some (gce_cloud.mkGCECloud P Z I), None) ∧
  let header := [("X-Google-Metadata-Request", "True")] in
  r.2 =
    [gce_cloud.Req (gce_cloud.HttpNewRequest "GET" gce_cloud.zone_url) None;
     gce_cloud.Req (gce_cloud.ClientDo "GET" gce_cloud.zone_url header) None;
     gce_cloud.Req gce_cloud.IoutilReadAll
       (a +:+ "/" +:+ P +:+ "/" +:+ c +:+ "/" +:+ Z, None);
     gce_cloud.Req gce_cloud.BodyClose tt;
     gce_cloud.Req (gce_cloud.HttpNewRequest "GET" gce_cloud.hostname_url) None;
     gce_cloud.Req (gce_cloud.ClientDo "GET" gce_cloud.hostname_url header) None;
     gce_cloud.Req gce_cloud.IoutilReadAll (I +:+ "." +:+ rest, None);
     gce_cloud.Req gce_cloud.BodyClose tt;
     gce_cloud.Req gce_cloud.ServiceaccountNewClient None;
     gce_cloud.Req gce_cloud.ComputeNew None].
Proof.
  intros Ha HP Hc HZ HI Hzone Hhost. cbn zeta.
  unfold gce_cloud.NewGCECloud, gce_cloud.getProjectAndZone,
    gce_cloud.getInstanceID, mbind, gce_cloud.Api_bind, mret,
    gce_cloud.Api_ret, gce_cloud.ask.
  change "http://metadata/computeMetadata/v1/instance/zone"
    with gce_cloud.zone_url.
  change "http://metadata/computeMetadata/v1/instance/hostname"
    with gce_cloud.hostname_url.
  rewrite !serve_then, !getMetadata_metadata_server. cbn zeta. cbn [fst snd].
  rewrite Hzone.
  change (a +:+ "/" +:+ P +:+ "/" +:+ c +:+ "/" +:+ Z) with
    (a +:+ String "/" (P +:+ String "/" (c +:+ String "/" Z))).
  rewrite !Split_first, Split_one by done.
  cbn [length Nat.eqb negb nth]. cbn [gce_cloud.serve fst snd].
  rewrite !serve_then, !getMetadata_metadata_server. cbn zeta. cbn [fst snd].
  rewrite Hhost.
  change (I +:+ "." +:+ rest) with (I +:+ String "." rest).
  rewrite Split_first by done.
  cbn [length Nat.eqb nth]. cbn [gce_cloud.serve fst snd app].
  split; reflexivity.
Qed.

Lemma NewGCECloud_from_metadata_witness :
  (gce_cloud.serve
     (gce_cloud.metadata_server
        [(gce_cloud.zone_url, "projects/1234/zones/us-central1-b");
         (gce_cloud.hostname_url, "minion-1.c.proj.internal")])
     gce_cloud.NewGCECloud "").1.1 =
  (Some (gce_cloud.mkGCECloud "1234" "us-central1-b" "minion-1"), None).
Proof.
  exact (proj1 (NewGCECloud_from_metadata
                  [(gce_cloud.zone_url, "projects/1234/zones/us-central1-b");
                   (gce_cloud.hostname_url, "minion-1.c.proj.internal")]
                  "projects" "1234" "zones" "us-central1-b" "minion-1"
                  "c.proj.internal" ""
                  eq_refl eq_refl eq_refl eq_refl eq_refl eq_refl eq_refl)).
Defined.
